(** * starbound-mcp: the extraction pipeline, embedded and verified

    A shallow embedding of the extraction scripts of the repository
    ([src/scripts/extract-fu.ts], [src/scripts/extract-lua-docs.ts],
    [src/scripts/extract-openstarbound.ts]) together with the part of the
    relational schema ([src/db/schema.ts]) that the storage steps rely on.

    Conventions of the embedding.
    - A JavaScript string is a sequence of code units.  Code units are
      modelled by [ascii] (the code units 0..255); the scripts only compare
      code units with ASCII constants and copy everything else.
    - A cursor [i] into an immutable string [text] is represented by the
      unread suffix [text.slice(i)]; [text[i]] is its head and
      [i + 1 < text.length] says that it has at least two elements.
    - [while] loops whose cursor is advanced by inner loops take a fuel
      argument; every such loop is run with as much fuel as it can use, and
      the lemmas below show that more fuel never changes the result.
    - A recipe or config file may hold any JSON value, and the extractors
      are embedded over untyped JSON values, the [TypeError]s included
      that values of an unexpected shape make them throw.  The two passes
      over the research-tree configs are embedded twice: over untyped
      values ([ExtractFuTrees]), and at the TypeScript type the parsed
      content is cast to (in [ExtractFu], an optional property being an
      [option]), for what is said of well-formed trees only; on content of
      that type the two runs give the same ids and prerequisites
      ([typed_run_is_the_run]). *)

From Stdlib Require Import Ascii String QArith.
From stdpp Require Import base list strings gmap pretty.

Local Close Scope Q_scope.

(** ** Characters the scripts name *)

Definition dquote : ascii := "034"%char.
Definition squote : ascii := "'"%char.
Definition backslash : ascii := "\"%char.
Definition slash : ascii := "/"%char.
Definition star : ascii := "*"%char.
Definition newline : ascii := "010"%char.
Definition backtick : ascii := "`"%char.

(** [dq s] is [s] between two double quotes. *)
Definition dq (s : string) : string :=
  String dquote (s +:+ String dquote EmptyString).

(** ** extract-fu.ts: [stripJsonComments] *)

Module Sanitizer.

(** The variables of the loop: [result], [inString], [stringChar] and the
    cursor.  [stringChar] starts as the empty string, which is equal to no
    character: [None]. *)
Record scanner : Type := Scanner {
  result : list ascii;
  inString : bool;
  stringChar : option ascii;
  rest : list ascii
}.

Definition init (text : list ascii) : scanner :=
  {| result := []; inString := false; stringChar := None; rest := text |}.

(** [text[i] === stringChar] *)
Definition isStringChar (c : ascii) (stringChar : option ascii) : bool :=
  match stringChar with
  | Some q => Ascii.eqb c q
  | None => false
  end.

(** [text[i]] is one of the two quote characters. *)
Definition isQuote (c : ascii) : bool :=
  Ascii.eqb c dquote || Ascii.eqb c squote.

(** [while (i < text.length && text[i] !== "\n") i++;] *)
Fixpoint skipLineComment (text : list ascii) : list ascii :=
  match text with
  | [] => []
  | c :: tl => if Ascii.eqb c newline then text else skipLineComment tl
  end.

(** [while (i + 1 < text.length && !(text[i] === "*" && text[i + 1] === "/")) i++;] *)
Fixpoint skipBlockComment (text : list ascii) : list ascii :=
  match text with
  | c :: (d :: _) as tl =>
      if Ascii.eqb c star && Ascii.eqb d slash then text else skipBlockComment tl
  | _ => text
  end.

(** One iteration of the outer [while (i < text.length)] loop; [None] when
    the loop condition fails. *)
Definition step (s : scanner) : option scanner :=
  match rest s with
  | [] => None
  | c :: tl =>
      if inString s then
        match Ascii.eqb c backslash, tl with
        | true, d :: tl' =>
            (* result += text[i] + text[i + 1]; i += 2; continue *)
            Some {| result := result s ++ [c; d]; inString := true;
                    stringChar := stringChar s; rest := tl' |}
        | _, _ =>
            Some {| result := result s ++ [c];
                    inString := negb (isStringChar c (stringChar s));
                    stringChar := stringChar s; rest := tl |}
        end
      else if isQuote c then
        Some {| result := result s ++ [c]; inString := true;
                stringChar := Some c; rest := tl |}
      else
        match Ascii.eqb c slash, tl with
        | true, d :: tl' =>
            if Ascii.eqb d slash then
              Some {| result := result s; inString := false;
                      stringChar := stringChar s;
                      rest := skipLineComment (rest s) |}
            else if Ascii.eqb d star then
              (* i += 2; while (...) i++; i += 2 *)
              Some {| result := result s; inString := false;
                      stringChar := stringChar s;
                      rest := drop 2 (skipBlockComment tl') |}
            else
              Some {| result := result s ++ [c]; inString := false;
                      stringChar := stringChar s; rest := tl |}
        | _, _ =>
            Some {| result := result s ++ [c]; inString := false;
                    stringChar := stringChar s; rest := tl |}
        end
  end.

(** The outer loop, at most [fuel] iterations. *)
Fixpoint loop (fuel : nat) (s : scanner) : scanner :=
  match fuel with
  | O => s
  | S fuel' =>
      match step s with
      | None => s
      | Some s' => loop fuel' s'
      end
  end.

(** Every iteration moves the cursor forward, so [length text] iterations
    are enough (lemma [loop_fuel]). *)
Definition stripChars (text : list ascii) : list ascii :=
  result (loop (length text) (init text)).

Definition stripJsonComments (text : string) : string :=
  string_of_list_ascii (stripChars (list_ascii_of_string text)).

(** The output produced from a position: [strip b sc text] is what the loop
    appends to [result] when it is at the start of [text] with
    [inString = b] and [stringChar = sc]. *)
Definition strip (b : bool) (sc : option ascii) (text : list ascii) : list ascii :=
  result (loop (length text)
            {| result := []; inString := b; stringChar := sc; rest := text |}).

(** [frame r s]: the scanner [s] started with [r] already in [result]. *)
Definition frame (r : list ascii) (s : scanner) : scanner :=
  {| result := r ++ result s; inString := inString s;
     stringChar := stringChar s; rest := rest s |}.

(** *** What the claims about the sanitizer speak of *)

(** [isStringBody q body]: [body] can stand between an opening and a
    closing [q]: every backslash in it is followed by the character it
    escapes, and [q] occurs in it only escaped. *)
Fixpoint isStringBody (q : ascii) (body : list ascii) : bool :=
  match body with
  | [] => true
  | c :: tl =>
      if Ascii.eqb c backslash then
        match tl with
        | _ :: tl' => isStringBody q tl'
        | [] => false
        end
      else if Ascii.eqb c q then false
      else isStringBody q tl
  end.

(** Following the spec's words: does the text contain a comment opener
    ([//] or [/*]) outside of string literals?  [open] is the quote of the
    literal the position is in, if any.  String literals are delimited by
    either quote character and honour backslash escapes, as the sanitizer
    takes them. *)
Fixpoint commentOutsideString (open : option ascii) (text : list ascii) : bool :=
  match text with
  | [] => false
  | c :: tl =>
      match open with
      | Some q =>
          if Ascii.eqb c backslash then
            match tl with
            | _ :: tl' => commentOutsideString (Some q) tl'
            | [] => false
            end
          else if Ascii.eqb c q then commentOutsideString None tl
          else commentOutsideString (Some q) tl
      | None =>
          if isQuote c then commentOutsideString (Some c) tl
          else
            match tl with
            | d :: _ =>
                if Ascii.eqb c slash && (Ascii.eqb d slash || Ascii.eqb d star)
                then true
                else commentOutsideString None tl
            | [] => false
            end
      end
  end.

Definition hasCommentOutsideString (text : string) : bool :=
  commentOutsideString None (list_ascii_of_string text).

End Sanitizer.

(** ** JavaScript strings and regular expressions, as the scripts use them *)

Module JS.

(** White space as [\s] and [trim] take it, among the code units below
    256: tab, line feed, vertical tab, form feed, carriage return, space
    and the no-break space. *)
Definition isSpace (c : ascii) : bool :=
  let n := nat_of_ascii c in
  (Nat.leb 9 n && Nat.leb n 13) || Nat.eqb n 32 || Nat.eqb n 160.

(** [\d] *)
Definition isDigit (c : ascii) : bool :=
  let n := nat_of_ascii c in Nat.leb 48 n && Nat.leb n 57.

(** [\w]: letters, digits and the underscore. *)
Definition isWord (c : ascii) : bool :=
  let n := nat_of_ascii c in
  (Nat.leb 65 n && Nat.leb n 90) || (Nat.leb 97 n && Nat.leb n 122)
  || isDigit c || Nat.eqb n 95.

Fixpoint dropString (n : nat) (s : string) : string :=
  match n, s with
  | S n', String _ s' => dropString n' s'
  | _, _ => s
  end.

Fixpoint takeString (n : nat) (s : string) : string :=
  match n, s with
  | S n', String c s' => String c (takeString n' s')
  | _, _ => EmptyString
  end.

(** [s.substring(start, end)] for [start <= end]; a negative [start] is
    taken as 0 by JavaScript, and is 0 here by truncated subtraction at the
    call sites. *)
Definition substring (s : string) (start end_ : nat) : string :=
  takeString (end_ - start) (dropString start s).

(** [s.startsWith(p)] *)
Definition startsWith (s p : string) : bool := String.prefix p s.

(** [s.includes(p)] *)
Fixpoint includes (s p : string) : bool :=
  String.prefix p s ||
  match s with
  | EmptyString => false
  | String _ s' => includes s' p
  end.

Fixpoint trimStart (s : string) : string :=
  match s with
  | String c s' => if isSpace c then trimStart s' else s
  | EmptyString => EmptyString
  end.

(** [trimEnd] keeps a character when it is not white space or when
    something is kept behind it. *)
Fixpoint trimEnd (s : string) : string :=
  match s with
  | EmptyString => EmptyString
  | String c s' =>
      match trimEnd s' with
      | EmptyString => if isSpace c then EmptyString else String c EmptyString
      | kept => String c kept
      end
  end.

(** [s.trim()] *)
Definition trim (s : string) : string := trimEnd (trimStart s).

(** [s.split("\n")]: the result always has one element more than [s] has
    line feeds. *)
Fixpoint splitLines (s : string) : list string :=
  match s with
  | EmptyString => [EmptyString]
  | String c s' =>
      if Ascii.eqb c newline then EmptyString :: splitLines s'
      else
        match splitLines s' with
        | line :: lines => String c line :: lines
        | [] => [String c EmptyString]
        end
  end.

(** [parts.join(sep)] *)
Fixpoint join (sep : string) (parts : list string) : string :=
  match parts with
  | [] => EmptyString
  | [part] => part
  | part :: rest => part +:+ sep +:+ join sep rest
  end.

(** A falsy string is the empty one. *)
Definition truthy (s : string) : bool :=
  match s with EmptyString => false | _ => true end.

(** *** Regular expressions

    The fragment of the pattern language the scripts use, with the
    backtracking semantics of the language standard: a matcher takes the
    current position and a continuation and tries its alternatives in
    priority order.  [*] is greedy and [*?] is lazy; an iteration of either
    that consumes nothing is rejected. *)
Inductive regex : Type :=
  | Chr (c : ascii)                 (* a literal character *)
  | Cls (p : ascii -> bool)         (* a character class *)
  | Eps                             (* the empty pattern *)
  | Bol                             (* [^], no m flag *)
  | Eol                             (* [$], no m flag *)
  | Seq (r1 r2 : regex)
  | Alt (r1 r2 : regex)             (* [r1|r2] *)
  | Star (r : regex)                (* [r*] *)
  | StarLazy (r : regex)            (* [r*?] *)
  | Grp (i : nat) (r : regex).      (* the i-th capturing group *)

(** [r+] and [r?].  Every optional pattern of the scripts consumes a
    character when it matches, and none has a group under [*] or [+]. *)
Definition Plus (r : regex) : regex := Seq r (Star r).
Definition Opt (r : regex) : regex := Alt r Eps.

Fixpoint seq (rs : list regex) : regex :=
  match rs with
  | [] => Eps
  | [r] => r
  | r :: rs' => Seq r (seq rs')
  end.

Fixpoint alts (rs : list regex) : regex :=
  match rs with
  | [] => Cls (fun _ => false)
  | [r] => r
  | r :: rs' => Alt r (alts rs')
  end.

(** A literal word. *)
Fixpoint Lit (s : string) : regex :=
  match s with
  | EmptyString => Eps
  | String c EmptyString => Chr c
  | String c s' => Seq (Chr c) (Lit s')
  end.

Definition Not (c : ascii) : regex := Cls (fun x => negb (Ascii.eqb x c)).
Definition ws : regex := Cls isSpace.       (* [\s] *)
Definition word : regex := Cls isWord.      (* [\w] *)
Definition digit : regex := Cls isDigit.    (* [\d] *)

(** Captures: the most recent binding of a group comes first. *)
Definition captures : Type := list (nat * string).

Fixpoint capture (i : nat) (c : captures) : option string :=
  match c with
  | [] => None
  | (j, s) :: c' => if Nat.eqb i j then Some s else capture i c'
  end.

Section Matcher.
Context {R : Type}.

(** The iterations of [r*]: [step] matches [r] once.  At most [fuel]
    iterations are tried; as every iteration consumes a character, the
    length of the subject is fuel enough (lemma [matches_Star_fuel]). *)
Definition starLoop
    (step : nat -> string -> captures ->
            (nat -> string -> captures -> option R) -> option R)
    (k : nat -> string -> captures -> option R)
  : nat -> nat -> string -> captures -> option R :=
  fix iterate (fuel : nat) (pos : nat) (s : string) (c : captures) : option R :=
    match fuel with
    | O => k pos s c
    | S fuel' =>
        match step pos s c
                (fun pos' s' c' =>
                   if Nat.ltb pos pos' then iterate fuel' pos' s' c' else None) with
        | Some x => Some x
        | None => k pos s c
        end
    end.

(** The iterations of [r*?]: the continuation is tried first, and one more
    iteration only when it fails (lemma [matches_StarLazy_fuel]). *)
Definition lazyLoop
    (step : nat -> string -> captures ->
            (nat -> string -> captures -> option R) -> option R)
    (k : nat -> string -> captures -> option R)
  : nat -> nat -> string -> captures -> option R :=
  fix iterate (fuel : nat) (pos : nat) (s : string) (c : captures) : option R :=
    match k pos s c with
    | Some x => Some x
    | None =>
        match fuel with
        | O => None
        | S fuel' =>
            step pos s c
              (fun pos' s' c' =>
                 if Nat.ltb pos pos' then iterate fuel' pos' s' c' else None)
        end
    end.

(** [matches r pos s c k]: [s] is the subject from position [pos] on. *)
Fixpoint matches (r : regex) (pos : nat) (s : string) (c : captures)
    (k : nat -> string -> captures -> option R) {struct r} : option R :=
  match r with
  | Chr a =>
      match s with
      | String b s' => if Ascii.eqb a b then k (S pos) s' c else None
      | EmptyString => None
      end
  | Cls p =>
      match s with
      | String b s' => if p b then k (S pos) s' c else None
      | EmptyString => None
      end
  | Eps => k pos s c
  | Bol => if Nat.eqb pos 0 then k pos s c else None
  | Eol => match s with EmptyString => k pos s c | _ => None end
  | Seq r1 r2 =>
      matches r1 pos s c (fun pos' s' c' => matches r2 pos' s' c' k)
  | Alt r1 r2 =>
      match matches r1 pos s c k with
      | Some x => Some x
      | None => matches r2 pos s c k
      end
  | Star r1 => starLoop (matches r1) k (String.length s) pos s c
  | StarLazy r1 => lazyLoop (matches r1) k (String.length s) pos s c
  | Grp i r1 =>
      matches r1 pos s c
        (fun pos' s' c' => k pos' s' ((i, takeString (pos' - pos) s) :: c'))
  end.

End Matcher.

(** A pattern that cannot match the empty string. *)
Fixpoint nonNullable (r : regex) : bool :=
  match r with
  | Chr _ | Cls _ => true
  | Eps | Bol | Eol | Star _ | StarLazy _ => false
  | Seq r1 r2 => nonNullable r1 || nonNullable r2
  | Alt r1 r2 => nonNullable r1 && nonNullable r2
  | Grp _ r1 => nonNullable r1
  end.

(** A matcher at [pos] with subject [s] calls its continuation at a position
    [pos'] with the subject [s'] left behind the characters it consumed. *)
Definition reached (pos : nat) (s : string) (pos' : nat) (s' : string) : Prop :=
  String.length s' <= String.length s /\
  pos' + String.length s' = pos + String.length s.

(** The result of a successful [exec]: [index], [match[0]], the groups,
    and the position behind the match (the next [lastIndex]). *)
Record MatchResult : Type := {
  index : nat;
  matched : string;
  captured : captures;
  lastIndex : nat
}.

(** Leftmost match starting at [pos] or later; [s] is the subject from
    [pos] on. *)
Fixpoint search (r : regex) (pos : nat) (s : string) : option MatchResult :=
  match matches r pos s [] (fun pos' _ c => Some (pos', c)) with
  | Some (pos', c) =>
      Some {| index := pos; matched := takeString (pos' - pos) s;
              captured := c; lastIndex := pos' |}
  | None =>
      match s with
      | String _ s' => search r (S pos) s'
      | EmptyString => None
      end
  end.

(** [re.exec(s)] with [re.lastIndex = from]. *)
Definition exec (r : regex) (s : string) (from : nat) : option MatchResult :=
  if Nat.leb from (String.length s) then search r from (dropString from s)
  else None.

(** [s.match(re)] without the g flag, and [re.test(s)]. *)
Definition match_ (r : regex) (s : string) : option MatchResult := exec r s 0.
Definition test (r : regex) (s : string) : bool :=
  match exec r s 0 with Some _ => true | None => false end.

(** [while ((match = re.exec(s)) !== null) ...] for a pattern with the g
    flag: the successive matches.  None of the patterns below matches the
    empty string, so [lastIndex] advances with every match. *)
Fixpoint execLoop (fuel : nat) (r : regex) (s : string) (from : nat)
  : list MatchResult :=
  match fuel with
  | O => []
  | S fuel' =>
      match exec r s from with
      | None => []
      | Some m => m :: execLoop fuel' r s (lastIndex m)
      end
  end.

Definition execAll (r : regex) (s : string) : list MatchResult :=
  execLoop (S (String.length s)) r s 0.

(** [match[i]] of a group that takes part in every match. *)
Definition group (i : nat) (m : MatchResult) : string :=
  default EmptyString (capture i (captured m)).

(** [s.replace(re, empty)], [empty] being the empty string, for a pattern
    with the g flag that matches no empty string: what is left of [s]
    between its successive matches. *)
Fixpoint removeMatches (ms : list MatchResult) (s : string) (from : nat) : string :=
  match ms with
  | [] => dropString from s
  | m :: ms' => substring s from (index m) +:+ removeMatches ms' s (lastIndex m)
  end.

Definition removeAll (r : regex) (s : string) : string :=
  removeMatches (execAll r s) s 0.

(** *** [Map<string, V>], iterated in insertion order *)
Section Map.
Context {V : Type}.

Fixpoint mapGet (m : list (string * V)) (key : string) : option V :=
  match m with
  | [] => None
  | (k, v) :: m' => if String.eqb k key then Some v else mapGet m' key
  end.

Definition mapHas (m : list (string * V)) (key : string) : bool :=
  match mapGet m key with Some _ => true | None => false end.

(** [m.set(key, value)]: an existing key keeps its place. *)
Fixpoint mapSet (m : list (string * V)) (key : string) (value : V)
  : list (string * V) :=
  match m with
  | [] => [(key, value)]
  | (k, v) :: m' =>
      if String.eqb k key then (k, value) :: m' else (k, v) :: mapSet m' key value
  end.

End Map.

(** *** Values parsed from JSON

    What [JSON.parse] returns.  An object is given by its own properties,
    each key once, in the order of [Object.entries]. *)
#[local] Unset Elimination Schemes.
Inductive json : Type :=
  | JNull
  | JBool (b : bool)
  | JNum (n : Q)
  | JStr (s : string)
  | JArr (items : list json)
  | JObj (properties : list (string * json)).
#[local] Set Elimination Schemes.

(** [!!v] *)
Definition truthyValue (v : json) : bool :=
  match v with
  | JNull => false
  | JBool b => b
  | JNum n => negb (Qeq_bool n 0)
  | JStr s => truthy s
  | JArr _ | JObj _ => true
  end.

(** [!!v] for a value that may be [undefined] ([None]). *)
Definition truthyProp (v : option json) : bool :=
  match v with Some v => truthyValue v | None => false end.

(** [v.key], for [v] other than [null] and a key that no prototype
    defines: an own property of an object, [undefined] otherwise. *)
Definition getProp (v : json) (key : string) : option json :=
  match v with
  | JObj properties => mapGet properties key
  | _ => None
  end.

(** [v ?? d] *)
Definition orElse (v : option json) (d : json) : json :=
  match v with
  | None | Some JNull => d
  | Some v => v
  end.

(** [v?.[0]]: the first element of an array, the first code unit of a
    string, the property 0 of an object. *)
Definition first (v : option json) : option json :=
  match v with
  | Some (JArr items) => head items
  | Some (JStr (String c _)) => Some (JStr (String c EmptyString))
  | Some (JObj properties) => mapGet properties "0"
  | _ => None
  end.

End JS.

(** ** extract-fu.ts: recipes, rarity tiers, research trees *)

Module ExtractFu.
Import JS.

(** JSON numbers are only defaulted and copied here; they are rationals. *)
Abbreviation number := Q.

(** *** [extractRecipes]

    A recipe file may hold any JSON value: the cast of the parsed data to
    [{ input?, output?, groups?, duration? }] checks nothing at run time.
    So the fields of a record hold whatever values the file had. *)
Record ParsedRecipe : Type := {
  outputItem : json;
  outputCount : json;
  station : json;
  inputs : list (option json * json);
  groups : json;
  duration : json
}.

(** What the body of the loop over [recipeFiles] does for one file:
    [continue], [recipes.push(...)], or an uncaught [TypeError]. *)
Inductive outcome : Type :=
  | Skipped
  | Pushed (recipe : ParsedRecipe)
  | Thrown.

(** The callback of [data.input.map]: [{ item: i.item, count: i.count ?? 1 }];
    reading a property of [null] throws ([None]). *)
Definition inputOf (i : json) : option (option json * json) :=
  match i with
  | JNull => None
  | _ => Some (getProp i "item", orElse (getProp i "count") (JNum 1))
  end.

(** [data] is what [readJsonFile] returned; [null] when the file could not
    be read or parsed. *)
Definition parseRecipe (data : json) : outcome :=
  let output := getProp data "output" in
  let input := getProp data "input" in
  if negb (truthyValue data) || negb (truthyProp output) || negb (truthyProp input)
  then Skipped                                 (* first guard *)
  else
    let item := getProp (default JNull output) "item" in
    if negb (truthyProp item) then Skipped     (* !data.output.item *)
    else
      match default JNull input with
      | JArr items =>
          match mapM inputOf items with
          | Some inputs =>
              Pushed {| outputItem := default JNull item;
                        outputCount :=
                          orElse (getProp (default JNull output) "count") (JNum 1);
                        station := orElse (first (getProp data "groups")) JNull;
                        inputs := inputs;
                        groups := orElse (getProp data "groups") (JArr []);
                        duration := orElse (getProp data "duration") JNull |}
          | None => Thrown
          end
      | _ => Thrown                            (* data.input.map is not a function *)
      end.

(** Following the claim's words.  The parsed data lacks a usable output
    item: the first guard fails on [data] or [data.output], or the item is
    falsy. *)
Definition lacksOutputItem (data : json) : bool :=
  negb (truthyValue data)
  || negb (truthyProp (getProp data "output"))
  || negb (truthyProp (getProp (default JNull (getProp data "output")) "item")).

(** The parsed data has no input at all: the property is absent, [null] or
    otherwise falsy. *)
Definition lacksInput (data : json) : bool :=
  negb (truthyValue data) || negb (truthyProp (getProp data "input")).

(** The parsed data has an input list: [data.input] is an array. *)
Definition hasInputList (data : json) : bool :=
  match getProp data "input" with
  | Some (JArr _) => true
  | _ => false
  end.

Section Files.

(** [readJsonFile]: the parsed content of a file, or [null]. *)
Variable readJsonFile : string -> json.

(** The body of the loop over [recipeFiles].  [None]: the run has ended
    with an uncaught exception. *)
Definition pushRecipe (recipes : option (list ParsedRecipe)) (file : string)
  : option (list ParsedRecipe) :=
  match recipes with
  | None => None
  | Some recipes =>
      match parseRecipe (readJsonFile file) with
      | Skipped => Some recipes
      | Pushed recipe => Some (recipes ++ [recipe])
      | Thrown => None
      end
  end.

(** [recipeFiles] is what [walkDir] returned. *)
Definition extractRecipes (recipeFiles : list string)
  : option (list ParsedRecipe) :=
  foldl pushRecipe (Some []) recipeFiles.

End Files.

(** *** [insertData]: the probability stored for a centrifuge output *)

(** [o.rarity === "common" ? 0.9 : o.rarity === "uncommon" ? 0.5 :
     o.rarity === "rare" ? 0.2 : 0.05].  The four literals are compared as
    the decimal fractions they denote. *)
Definition chance (rarity : string) : number :=
  if String.eqb rarity "common" then 0.9%Q
  else if String.eqb rarity "uncommon" then 0.5%Q
  else if String.eqb rarity "rare" then 0.2%Q
  else 0.05%Q.

(** *** [extractResearchTrees], at the type the parsed content is cast to

    The two passes for configs whose content has the shape of that type:
    trees and bodies are objects, [price] and [children] are lists, the ids
    are strings that no prototype defines.  On such configs no pass throws.
    ([ExtractFuTrees] below embeds the passes over any content.) *)

(** A node body, [Record<string, unknown>], with the three properties that
    are read; no other property of a body is read anywhere. *)
Record NodeData : Type := {
  price : option (list (string * number));
  children : option (list string);
  unlocks : option (list string)
}.

Record NodeStrings : Type := {
  str_name : option string;
  str_description : option string
}.

Record Strings : Type := {
  str_trees : option (gmap string string);
  str_research : option (gmap string NodeStrings)
}.

(** A parsed config file.  [researchTree] is given by its
    [Object.entries], tree by tree and node by node; a node whose value is
    not an object (or is [null]) is [None]. *)
Record ConfigData : Type := {
  researchTree : option (list (string * list (string * option NodeData)));
  strings : option Strings
}.

Record ParsedResearchNode : Type := {
  tree : string;
  nodeId : string;
  name : string;
  description : string;
  cost : list (string * number);
  prerequisites : list string;
  unlocks_ : list string
}.

(** The template [`${treeId}:${nodeId}`]. *)
Definition fullId (treeId nodeId : string) : string :=
  treeId +:+ ":" +:+ nodeId.

Definition setPrerequisites (node : ParsedResearchNode) (p : list string)
  : ParsedResearchNode :=
  {| tree := tree node; nodeId := nodeId node; name := name node;
     description := description node; cost := cost node;
     prerequisites := p; unlocks_ := unlocks_ node |}.

Section Configs.

Variable readJsonFile : string -> option ConfigData.

(** First pass, innermost loop body: one entry of a tree. *)
Definition pushNode (strs : Strings) (treeId treeName : string)
    (nodes : list ParsedResearchNode) (entry : string * option NodeData)
  : list ParsedResearchNode :=
  let '(nodeId, nodeData) := entry in
  match nodeData with
  | None => nodes                        (* typeof nodeData !== "object" *)
  | Some nodeData =>
      let nodeStrings := str_research strs ≫= (.!! nodeId) in
      nodes ++ [ {| tree := treeName;
                    nodeId := fullId treeId nodeId;
                    name := default nodeId (nodeStrings ≫= str_name);
                    description := default EmptyString (nodeStrings ≫= str_description);
                    cost := default [] (price nodeData);
                    prerequisites := [];  (* filled in after all nodes parsed *)
                    unlocks_ := default [] (unlocks nodeData) |} ]
  end.

Definition pushTree (strs : Strings)
    (nodes : list ParsedResearchNode)
    (entry : string * list (string * option NodeData))
  : list ParsedResearchNode :=
  let '(treeId, treeNodes) := entry in
  let treeName := default treeId (str_trees strs ≫= (.!! treeId)) in
  foldl (pushNode strs treeId treeName) nodes treeNodes.

Definition pushFile (nodes : list ParsedResearchNode) (file : string)
  : list ParsedResearchNode :=
  match readJsonFile file with
  | None => nodes
  | Some data =>
      match researchTree data with
      | None => nodes                    (* !data.researchTree *)
      | Some researchTree =>
          let strs := default {| str_trees := None; str_research := None |}
                              (strings data) in
          foldl (pushTree strs) nodes researchTree
      end
  end.

(** The node table of the first pass. *)
Definition parseNodes (configFiles : list string) : list ParsedResearchNode :=
  foldl pushFile [] configFiles.

(** Second pass: [childToParent], a [Map<string, string[]>]. *)
Definition addParent (fullNodeId treeId : string)
    (childToParent : gmap string (list string)) (childId : string)
  : gmap string (list string) :=
  let fullChildId := fullId treeId childId in
  let existing := default [] (childToParent !! fullChildId) in
  <[fullChildId := existing ++ [fullNodeId]]> childToParent.

Definition scanNode (treeId : string)
    (childToParent : gmap string (list string))
    (entry : string * option NodeData) : gmap string (list string) :=
  let '(nodeId, nodeData) := entry in
  match nodeData with
  | None => childToParent
  | Some nodeData =>
      foldl (addParent (fullId treeId nodeId) treeId) childToParent
            (default [] (children nodeData))
  end.

Definition scanTree (childToParent : gmap string (list string))
    (entry : string * list (string * option NodeData))
  : gmap string (list string) :=
  let '(treeId, treeNodes) := entry in
  foldl (scanNode treeId) childToParent treeNodes.

Definition scanFile (childToParent : gmap string (list string))
    (configFile : string) : gmap string (list string) :=
  match readJsonFile configFile with
  | None => childToParent
  | Some data =>
      match researchTree data with
      | None => childToParent
      | Some researchTree => foldl scanTree childToParent researchTree
      end
  end.

Definition buildChildToParent (configFiles : list string)
  : gmap string (list string) :=
  foldl scanFile ∅ configFiles.

(** [configFiles] is what [walkDir] returned; both passes read the same
    files.  (The loop over [nodeMap] between the passes has an empty
    body.) *)
Definition extractResearchTrees (configFiles : list string)
  : list ParsedResearchNode :=
  let nodes := parseNodes configFiles in
  let childToParent := buildChildToParent configFiles in
  map (fun node =>
         setPrerequisites node (default [] (childToParent !! nodeId node)))
      nodes.

(** The same two passes as lists: the nodes a file contributes, and the
    [(child, parent)] pairs a file makes [childToParent] record, in order.
    Lemmas [parseNodes_bind] and [buildChildToParent_edges] relate them to
    the loops. *)
Definition nodeOf (strs : Strings) (treeId : string)
    (entry : string * option NodeData) : list ParsedResearchNode :=
  pushNode strs treeId (default treeId (str_trees strs ≫= (.!! treeId))) [] entry.

Definition fileTrees (file : string)
  : list (string * list (string * option NodeData)) :=
  default [] (readJsonFile file ≫= researchTree).

Definition fileStrings (file : string) : Strings :=
  default {| str_trees := None; str_research := None |}
          (readJsonFile file ≫= strings).

Definition fileNodes (file : string) : list ParsedResearchNode :=
  fileTrees file ≫= (fun entry => entry.2 ≫= nodeOf (fileStrings file) entry.1).

Definition nodeEdges (treeId : string) (entry : string * option NodeData)
  : list (string * string) :=
  match entry.2 with
  | None => []
  | Some nodeData =>
      map (fun childId => (fullId treeId childId, fullId treeId entry.1))
          (default [] (children nodeData))
  end.

Definition fileEdges (file : string) : list (string * string) :=
  fileTrees file ≫= (fun entry => entry.2 ≫= nodeEdges entry.1).

Definition addEdge (childToParent : gmap string (list string))
    (edge : string * string) : gmap string (list string) :=
  <[edge.1 := default [] (childToParent !! edge.1) ++ [edge.2]]> childToParent.

(** The authored edges of the file set: [(t, a, b)] when node [a] of tree
    [t] lists [b] in its [children]. *)
Definition listsChild (configFiles : list string) (t a b : string) : Prop :=
  exists file data trees nodes body cs,
    file ∈ configFiles /\ readJsonFile file = Some data /\
    researchTree data = Some trees /\ (t, nodes) ∈ trees /\
    (a, Some body) ∈ nodes /\ children body = Some cs /\ b ∈ cs.

(** Node [b] of tree [t] has a body in some file. *)
Definition declaresNode (configFiles : list string) (t b : string) : Prop :=
  exists file data trees nodes body,
    file ∈ configFiles /\ readJsonFile file = Some data /\
    researchTree data = Some trees /\ (t, nodes) ∈ trees /\
    (b, Some body) ∈ nodes.

End Configs.

End ExtractFu.

(** ** extract-lua-docs.ts *)

Module ExtractLuaDocs.
Import JS.

Record ParsedParam : Type := {
  name : string;
  type : string;
  optional : bool
}.

Record ParsedFunction : Type := {
  tableName : string;
  functionName : string;
  returnType : string;
  parameters : list ParsedParam;
  signature : string;
  description : string;
  isOverload : bool;
  sourceFile : string;
  lineNumber : nat
}.

(** What [parseSignatureLine] returns. *)
Record SignatureLine : Type := {
  sig_returnType : string;
  sig_tableName : string;
  sig_functionName : string;
  sig_rawParams : string
}.

(** The patterns are quoted with blanks between their parts.

    [^ #{3,4} \s+ ` ([^`]+) ` \s+ (\w+) \. (\w+) \( ([^)]* ) \) \s* $] *)
Definition signatureRegex : regex :=
  seq [Bol; Lit "###"; Opt (Chr "#"); Plus ws;
       Chr backtick; Grp 1 (Plus (Not backtick)); Chr backtick; Plus ws;
       Grp 2 (Plus word); Chr "."; Grp 3 (Plus word);
       Chr "("; Grp 4 (Star (Not ")")); Chr ")"; Star ws; Eol].

(** [^ #{3,4} \s+ (\w+) \. (\w+) \( ([^)]* ) \) \s* $] *)
Definition noReturnRegex : regex :=
  seq [Bol; Lit "###"; Opt (Chr "#"); Plus ws;
       Grp 1 (Plus word); Chr "."; Grp 2 (Plus word);
       Chr "("; Grp 3 (Star (Not ")")); Chr ")"; Star ws; Eol].

Definition parseSignatureLine (line : string) : option SignatureLine :=
  match match_ signatureRegex line with
  | Some m =>
      Some {| sig_returnType := group 1 m; sig_tableName := group 2 m;
              sig_functionName := group 3 m; sig_rawParams := group 4 m |}
  | None =>
      (* Some signatures have no return type (callbacks/hooks) *)
      match match_ noReturnRegex line with
      | Some m =>
          Some {| sig_returnType := "void"; sig_tableName := group 1 m;
                  sig_functionName := group 2 m; sig_rawParams := group 3 m |}
      | None => None
      end
  end.

(** [(\[?) \s* ` ([^`]+) ` \s+ (\w+) \s* \]?], with the g flag *)
Definition paramRegex : regex :=
  seq [Grp 1 (Opt (Chr "[")); Star ws;
       Chr backtick; Grp 2 (Plus (Not backtick)); Chr backtick; Plus ws;
       Grp 3 (Plus word); Star ws; Opt (Chr "]")].

Definition parseParameters (rawParams : string) : list ParsedParam :=
  if negb (truthy (trim rawParams)) then []
  else
    map (fun m => {| name := group 3 m; type := group 2 m;
                     optional := String.eqb (group 1 m) "[" |})
        (execAll paramRegex rawParams).

(** The test that stops a description and that lets a line be tried as a
    signature. *)
Definition looksLikeSignature (line : string) : bool :=
  (startsWith line "###" || startsWith line "####")
  && includes line "`" && includes line "(".

(** The inner loop: description lines up to the next heading (left in
    place) or a horizontal rule (consumed).  Returns the lines collected,
    the lines left and the new [i]. *)
Fixpoint collectDescription (lines : list string) (i : nat)
    (descriptionLines : list string) : list string * list string * nat :=
  match lines with
  | [] => (descriptionLines, [], i)
  | nextLine :: rest =>
      if looksLikeSignature nextLine then (descriptionLines, lines, i)
      else if String.eqb (trim nextLine) "---" then (descriptionLines, rest, S i)
      else collectDescription rest (S i) (descriptionLines ++ [nextLine])
  end.

Definition paramStr (parameters : list ParsedParam) : string :=
  join ", "
    (map (fun p => (if optional p then "[" else EmptyString) +:+ type p +:+ " "
                   +:+ name p +:+ (if optional p then "]" else EmptyString))
         parameters).

(** Is the entry about to be pushed an overload of the last one pushed? *)
Definition overloadOfLast (functions : list ParsedFunction)
    (parsed : SignatureLine) : bool :=
  match last functions with
  | Some previous =>
      String.eqb (tableName previous) (sig_tableName parsed)
      && String.eqb (functionName previous) (sig_functionName parsed)
  | None => false
  end.

(** The flags [isOverload] of a list of entries are those the loop below
    computes: an entry is flagged exactly when the entry before it has the
    same table and function name. *)
Definition sameFunction (previous fn : ParsedFunction) : bool :=
  String.eqb (tableName previous) (tableName fn)
  && String.eqb (functionName previous) (functionName fn).

Definition overloadsMarked (functions : list ParsedFunction) : Prop :=
  forall pre fn post,
    functions = pre ++ fn :: post ->
    isOverload fn = match last pre with
                    | Some previous => sameFunction previous fn
                    | None => false
                    end.

(** The outer loop of [parseMarkdownFile]; [lines] are the lines from
    index [i] on. *)
Fixpoint parseLines (fuel : nat) (fileName : string) (lines : list string)
    (i : nat) (functions : list ParsedFunction) : list ParsedFunction :=
  match fuel with
  | O => functions
  | S fuel' =>
      match lines with
      | [] => functions
      | line :: rest =>
          if negb (startsWith line "###") && negb (startsWith line "####") then
            parseLines fuel' fileName rest (S i) functions
          else if negb (includes line "`") || negb (includes line "(") then
            parseLines fuel' fileName rest (S i) functions
          else
            match parseSignatureLine line with
            | None => parseLines fuel' fileName rest (S i) functions
            | Some parsed =>
                let lineNumber := i + 1 in
                let '(descriptionLines, rest', i') :=
                  collectDescription rest (S i) [] in
                let parameters := parseParameters (sig_rawParams parsed) in
                parseLines fuel' fileName rest' i'
                  (functions ++
                   [ {| tableName := sig_tableName parsed;
                        functionName := sig_functionName parsed;
                        returnType := sig_returnType parsed;
                        parameters := parameters;
                        signature :=
                          sig_tableName parsed +:+ "." +:+ sig_functionName parsed
                          +:+ "(" +:+ paramStr parameters +:+ ")";
                        description := trim (join (String newline EmptyString)
                                                  descriptionLines);
                        isOverload := overloadOfLast functions parsed;
                        sourceFile := fileName;
                        lineNumber := lineNumber |} ])
            end
      end
  end.

(** [content] is the text of the file and [fileName] its base name. *)
Definition parseMarkdownFile (content fileName : string) : list ParsedFunction :=
  let lines := splitLines content in
  parseLines (length lines) fileName lines 0 [].

(** *** [insertLuaData]: grouping by table and merging overloads *)

Definition groupByTable (allFunctions : list ParsedFunction)
  : list (string * list ParsedFunction) :=
  foldl (fun tableMap fn =>
           let existing := default [] (mapGet tableMap (tableName fn)) in
           mapSet tableMap (tableName fn) (existing ++ [fn]))
        [] allFunctions.

(** The entries of table [t], in order. *)
Definition ofTable (t : string) (allFunctions : list ParsedFunction)
  : list ParsedFunction :=
  filter (fun fn => tableName fn = t) allFunctions.

(** The text appended to the description of the entry merged into. *)
Definition overloadLabel : string :=
  String newline (String newline ("**Overload:**" +:+ String newline EmptyString)).

(** The updates made to [existing] when [fn] is merged into it. *)
Definition mergeOverload (existing fn : ParsedFunction) : ParsedFunction :=
  let more := Nat.ltb (length (parameters existing)) (length (parameters fn)) in
  {| tableName := tableName existing;
     functionName := functionName existing;
     returnType := if more then returnType fn else returnType existing;
     parameters := if more then parameters fn else parameters existing;
     signature := signature existing +:+ String newline EmptyString +:+ signature fn;
     description :=
       if truthy (description fn)
       then description existing +:+ overloadLabel +:+ description fn
       else description existing;
     isOverload := isOverload existing;
     sourceFile := sourceFile existing;
     lineNumber := lineNumber existing |}.

(** One iteration of the loop over the functions of a table. *)
Definition mergeStep (mergedFunctions : list (string * ParsedFunction))
    (fn : ParsedFunction) : list (string * ParsedFunction) :=
  if isOverload fn && mapHas mergedFunctions (functionName fn) then
    match mapGet mergedFunctions (functionName fn) with
    | Some existing =>
        mapSet mergedFunctions (functionName fn) (mergeOverload existing fn)
    | None => mergedFunctions            (* not reached: the key is there *)
    end
  else mapSet mergedFunctions (functionName fn) fn.   (* { ...fn } *)

Definition mergeFunctions (functions : list ParsedFunction)
  : list (string * ParsedFunction) :=
  foldl mergeStep [] functions.

End ExtractLuaDocs.

(** ** extract-openstarbound.ts *)

Module ExtractOpenStarbound.
Import JS.

Record ExtractedField : Type := {
  fieldName : string;
  type : string;
  defaultValue : option string;
  optional : bool;
  sourceFile : string;
  lineNumber : nat;
  context : string
}.

Record DatabaseFileInfo : Type := {
  fileName : string;
  assetType : string;
  fileExtension : string;
  fields : list ExtractedField
}.

Record AssetMapping : Type := {
  map_assetType : string;
  map_extension : string;
  map_description : string
}.

(** The three lookup tables, in the order of their keys.  (Characters
    outside ASCII in the descriptions stand as their UTF-8 bytes; the
    descriptions are only stored.) *)
Definition DATABASE_TO_ASSET : list (string * AssetMapping) :=
  [
    ("StarObjectDatabase.cpp",
     {| map_assetType := "object"; map_extension := ".object";
        map_description := "Placeable objects — furniture, crafting stations, wired objects, containers, etc." |});
    ("StarItemDatabase.cpp",
     {| map_assetType := "item"; map_extension := ".item";
        map_description := "Generic items — crafting materials, consumables, quest items. Also handles recipe files." |});
    ("StarProjectileDatabase.cpp",
     {| map_assetType := "projectile"; map_extension := ".projectile";
        map_description := "Projectile definitions — bullets, rockets, energy bolts, thrown items, etc." |});
    ("StarMonsterDatabase.cpp",
     {| map_assetType := "monster"; map_extension := ".monstertype";
        map_description := "Monster type definitions — behavior, stats, drops, animations, etc." |});
    ("StarNpcDatabase.cpp",
     {| map_assetType := "npc"; map_extension := ".npctype";
        map_description := "NPC type definitions — scripts, items, behavior, spawning, etc." |});
    ("StarBiomeDatabase.cpp",
     {| map_assetType := "biome"; map_extension := ".biome";
        map_description := "Biome definitions — terrain generation, flora, fauna, weather, music, etc." |});
    ("StarMaterialDatabase.cpp",
     {| map_assetType := "material"; map_extension := ".material";
        map_description := "Material/block definitions — collision, health, rendering, interactions, etc." |});
    ("StarLiquidsDatabase.cpp",
     {| map_assetType := "liquid"; map_extension := ".liquid";
        map_description := "Liquid definitions — color, physics, status effects, interactions, etc." |});
    ("StarStatusEffectDatabase.cpp",
     {| map_assetType := "statuseffect"; map_extension := ".statuseffect";
        map_description := "Status effect definitions — buffs, debuffs, environmental effects, etc." |});
    ("StarTechDatabase.cpp",
     {| map_assetType := "tech"; map_extension := ".tech";
        map_description := "Tech definitions — player abilities like double jump, dash, sphere, etc." |});
    ("StarCodexDatabase.cpp",
     {| map_assetType := "codex"; map_extension := ".codex";
        map_description := "Codex entries — lore books, data logs, blueprints, etc." |});
    ("StarVehicleDatabase.cpp",
     {| map_assetType := "vehicle"; map_extension := ".vehicle";
        map_description := "Vehicle definitions — hoverbikes, boats, mechs, etc." |});
    ("StarStagehandDatabase.cpp",
     {| map_assetType := "stagehand"; map_extension := ".stagehand";
        map_description := "Stagehand definitions — invisible world entities that run scripts (triggers, spawners, etc.)" |});
    ("StarTenantDatabase.cpp",
     {| map_assetType := "tenant"; map_extension := ".tenant";
        map_description := "Tenant/colony deed definitions — what NPCs can move in based on furniture tags." |});
    ("StarQuestTemplateDatabase.cpp",
     {| map_assetType := "quest"; map_extension := ".questtemplate";
        map_description := "Quest template definitions — objectives, rewards, dialog, etc." |});
    ("StarDamageDatabase.cpp",
     {| map_assetType := "damagetype"; map_extension := ".damage";
        map_description := "Damage type definitions — damage kinds, resistances, knockback, etc." |});
    ("StarParticleDatabase.cpp",
     {| map_assetType := "particle"; map_extension := ".particle";
        map_description := "Particle effect definitions — visual effects, trails, explosions, etc." |});
    ("StarPlantDatabase.cpp",
     {| map_assetType := "plant"; map_extension := ".modularstem";
        map_description := "Plant definitions — trees, saplings, growth stages, etc." |});
    ("StarSpeciesDatabase.cpp",
     {| map_assetType := "species"; map_extension := ".species";
        map_description := "Species definitions — humanoid config, overrides, etc." |});
    ("StarDanceDatabase.cpp",
     {| map_assetType := "dance"; map_extension := ".dance";
        map_description := "Dance emote definitions." |});
    ("StarEffectSourceDatabase.cpp",
     {| map_assetType := "effectsource"; map_extension := ".effectsource";
        map_description := "Effect source definitions — named effect emitters." |});
    ("StarSpawnTypeDatabase.cpp",
     {| map_assetType := "spawntype"; map_extension := ".spawntypes";
        map_description := "Spawn type definitions — monster/NPC spawn profiles for biomes." |});
    ("StarRadioMessageDatabase.cpp",
     {| map_assetType := "radiomessage"; map_extension := ".radiomessages";
        map_description := "Radio message definitions — SAIL communications, popup messages." |});
    ("StarCollectionDatabase.cpp",
     {| map_assetType := "collection"; map_extension := ".collection";
        map_description := "Collection definitions — in-game collectible tracking." |});
    ("StarTerrainDatabase.cpp",
     {| map_assetType := "terrain"; map_extension := ".terrain";
        map_description := "Terrain generation selector definitions." |});
    ("StarAiDatabase.cpp",
     {| map_assetType := "ai"; map_extension := ".aimission";
        map_description := "AI mission definitions — SAIL AI interface missions." |});
    ("StarBehaviorDatabase.cpp",
     {| map_assetType := "behavior"; map_extension := ".behavior";
        map_description := "Behavior tree definitions — NPC/monster AI behavior trees." |});
    ("StarStatisticsDatabase.cpp",
     {| map_assetType := "statistics"; map_extension := ".event";
        map_description := "Statistics/achievement event definitions." |});
    ("StarTilesetDatabase.cpp",
     {| map_assetType := "tileset"; map_extension := ".tileset";
        map_description := "Tileset definitions for dungeon/structure generation." |})
  ].

Definition GETTER_TYPE_MAP : list (string * string) :=
  [ ("String", "String"); ("Bool", "Bool"); ("Float", "Float");
    ("Double", "Float"); ("Int", "Int"); ("UInt", "UInt");
    ("Array", "Array"); ("Object", "Object") ].

Definition CONVERTER_TYPE_MAP : list (string * string) :=
  [ ("jsonToVec2F", "Vec2F"); ("jsonToVec2I", "Vec2I"); ("jsonToVec2U", "Vec2U");
    ("jsonToVec3B", "Vec3B"); ("jsonToVec4B", "Vec4B"); ("jsonToColor", "Color");
    ("jsonToRectF", "RectF"); ("jsonToPolyF", "PolyF");
    ("jsonToStringList", "String[]"); ("jsonToStringSet", "StringSet");
    ("jsonToWeightedPool", "WeightedPool") ].

(** *** The patterns, quoted with blanks between their parts; [Q] stands
    for the double quote *)

Definition words (names : list string) : regex := alts (Lit <$> names).

Definition getterNames : regex :=
  words ["String"; "Bool"; "Float"; "Double"; "Int"; "UInt"; "Array"; "Object"].

Definition quotedName (i : nat) : regex :=
  seq [Chr dquote; Grp i (Plus (Not dquote)); Chr dquote].

(** [\.get (String|Bool|Float|Double|Int|UInt|Array|Object) \s* \( \s*
     Q ([^Q]+) Q (?: \s* , \s* ([^)]* ) )? \)] *)
Definition typedGetter : regex :=
  seq [Lit ".get"; Grp 1 getterNames; Star ws; Chr "("; Star ws; quotedName 2;
       Opt (seq [Star ws; Chr ","; Star ws; Grp 3 (Star (Not ")"))]); Chr ")"].

(** [\.opt (String|Float|Int|UInt|Bool|Array|Object) \s* \( \s* Q ([^Q]+) Q
     \s* \)] *)
Definition optGetter : regex :=
  seq [Lit ".opt";
       Grp 1 (words ["String"; "Float"; "Int"; "UInt"; "Bool"; "Array"; "Object"]);
       Star ws; Chr "("; Star ws; quotedName 2; Star ws; Chr ")"].

(** [\.opt \s* \( \s* Q ([^Q]+) Q \s* \)] *)
Definition genericOpt : regex :=
  seq [Lit ".opt"; Star ws; Chr "("; Star ws; quotedName 1; Star ws; Chr ")"].

(** [\.get \s* \( \s* Q ([^Q]+) Q (?: \s* , \s* ([^)]* ) )? \)] *)
Definition genericGet : regex :=
  seq [Lit ".get"; Star ws; Chr "("; Star ws; quotedName 1;
       Opt (seq [Star ws; Chr ","; Star ws; Grp 2 (Star (Not ")"))]); Chr ")"].

(** [\.contains \s* \( \s* Q ([^Q]+) Q \s* \)] *)
Definition contains : regex :=
  seq [Lit ".contains"; Star ws; Chr "("; Star ws; quotedName 1; Star ws; Chr ")"].

(** [(jsonTo (?:Vec2F|Vec2I|Vec2U|Vec3B|Vec4B|Color|RectF|PolyF|StringList|
     StringSet|WeightedPool)) \s* \( [^)]* \.get \w* \s* \( \s* Q ([^Q]+) Q] *)
Definition converter : regex :=
  seq [Grp 1 (Seq (Lit "jsonTo")
                  (words ["Vec2F"; "Vec2I"; "Vec2U"; "Vec3B"; "Vec4B"; "Color";
                          "RectF"; "PolyF"; "StringList"; "StringSet";
                          "WeightedPool"]));
       Star ws; Chr "("; Star (Not ")"); Lit ".get"; Star word; Star ws;
       Chr "("; Star ws; quotedName 2].

(** [\.get (String|Bool|Float|Double|Int|UInt|Array|Object) \s* \(] *)
Definition typedGetterCall : regex :=
  seq [Lit ".get"; Grp 1 getterNames; Star ws; Chr "("].

(** [^ \s* \) \s* \. \s* to (Float|Int|Bool|String|UInt|Array|Object) \s* \(] *)
Definition toType : regex :=
  seq [Bol; Star ws; Chr ")"; Star ws; Chr "."; Star ws; Lit "to";
       Grp 1 (words ["Float"; "Int"; "Bool"; "String"; "UInt"; "Array"; "Object"]);
       Star ws; Chr "("].

(** [^ \d+ \. \d+ f? $] and [^ \d+ $] *)
Definition floatLiteral : regex :=
  seq [Bol; Plus digit; Chr "."; Plus digit; Opt (Chr "f"); Eol].
Definition intLiteral : regex := seq [Bol; Plus digit; Eol].

(** [table[key] ?? fallback] *)
Definition lookupOr (table : list (string * string)) (key fallback : string)
  : string :=
  default fallback (mapGet table key).

(** *** [extractFieldsFromFile] *)

(** [fields] and [seen]. *)
Definition extraction : Type := list ExtractedField * gset string.

Definition fieldKey (fieldName type : string) : string :=
  fieldName +:+ ":" +:+ type.

Definition addField (st : extraction) (field : ExtractedField) : extraction :=
  let '(fields, seen) := st in
  let key := fieldKey (fieldName field) (type field) in
  if decide (key ∈ seen) then st
  else (fields ++ [field], {[key]} ∪ seen).

Definition getLineNumber (content : string) (index : nat) : nat :=
  length (splitLines (substring content 0 index)).

Definition getContext (content : string) (index : nat) : string :=
  let lines := splitLines content in
  let lineNum := getLineNumber content index in
  let start := lineNum - 2 in
  let end_ := Nat.min (length lines) (lineNum + 1) in
  join " | " (trim <$> take (end_ - start) (drop start lines)).

(** The first converter named in [surroundingCode], or [Json]. *)
Definition converterIn (surroundingCode : string) : string :=
  match filter (fun entry => includes surroundingCode entry.1 = true)
               CONVERTER_TYPE_MAP with
  | (_, convertedType) :: _ => convertedType
  | [] => "Json"
  end.

(** [!!defaultValue] *)
Definition hasDefault (defaultValue : option string) : bool :=
  match defaultValue with Some dv => truthy dv | None => false end.

Section File.
Variables (content fileName : string).

Definition mkField (fieldName type : string) (defaultValue : option string)
    (optional : bool) (m : MatchResult) : ExtractedField :=
  {| fieldName := fieldName; type := type; defaultValue := defaultValue;
     optional := optional; sourceFile := fileName;
     lineNumber := getLineNumber content (index m);
     context := getContext content (index m) |}.

(** Pattern 1: typed getters *)
Definition pattern1 (st : extraction) (m : MatchResult) : extraction :=
  let cppType := group 1 m in
  let defaultValue := capture 3 (captured m) in
  addField st (mkField (group 2 m) (lookupOr GETTER_TYPE_MAP cppType cppType)
                       (trim <$> defaultValue) (hasDefault defaultValue) m).

(** Pattern 2: optional getters *)
Definition pattern2 (st : extraction) (m : MatchResult) : extraction :=
  let cppType := group 1 m in
  addField st (mkField (group 2 m) (lookupOr GETTER_TYPE_MAP cppType cppType)
                       None true m).

(** Pattern 3: generic opt *)
Definition pattern3 (st : extraction) (m : MatchResult) : extraction :=
  let surroundingCode :=
    substring content (index m - 100)
              (index m + String.length (matched m) + 100) in
  addField st (mkField (group 1 m) (converterIn surroundingCode) None true m).

(** Pattern 4: converter-wrapped fields *)
Definition pattern4 (st : extraction) (m : MatchResult) : extraction :=
  addField st (mkField (group 2 m) (lookupOr CONVERTER_TYPE_MAP (group 1 m) "Json")
                       None false m).

(** The type pattern 5 gives from a default value, for [type = Json]. *)
Definition typeOfDefault (dv : string) : string :=
  if String.eqb dv "true" || String.eqb dv "false" then "Bool"
  else if String.eqb dv "JsonArray()" || String.eqb dv "{}" then "Array"
  else if String.eqb dv "JsonObject()" || String.eqb dv "JsonObject{}" then "Object"
  else if test floatLiteral dv then "Float"
  else if test intLiteral dv then "Int"
  else if startsWith dv (String dquote EmptyString) then "String"
  else "Json".

(** Pattern 5: generic get.  The key is added to [seen] before [addField]
    is called. *)
Definition pattern5 (st : extraction) (m : MatchResult) : extraction :=
  let fullMatch := matched m in
  let fieldName := group 1 m in
  let defaultValue := capture 2 (captured m) in
  if test typedGetterCall
          (substring content (index m - 10) (index m + String.length fullMatch))
  then st
  else
    let surroundingCode :=
      substring content (index m - 150)
                (index m + String.length fullMatch + 50) in
    let type1 := converterIn surroundingCode in
    let afterMatch :=
      substring content (index m + String.length fullMatch)
                (index m + String.length fullMatch + 30) in
    let type2 :=
      match match_ toType afterMatch with
      | Some toTypeMatch =>
          lookupOr GETTER_TYPE_MAP (group 1 toTypeMatch) (group 1 toTypeMatch)
      | None => type1
      end in
    let type3 :=
      if String.eqb type2 "Json" && hasDefault defaultValue
      then typeOfDefault (trim (default EmptyString defaultValue))
      else type2 in
    let key := fieldKey fieldName type3 in
    if decide (key ∈ st.2) then st
    else
      addField (st.1, {[key]} ∪ st.2)
               (mkField fieldName type3 (trim <$> defaultValue)
                        (hasDefault defaultValue) m).

(** Pattern 6: contains checks *)
Definition pattern6 (st : extraction) (m : MatchResult) : extraction :=
  let fieldName := group 1 m in
  if decide (fieldName ∈ st.2) then st
  else addField st (mkField fieldName "Json" None true m).

Definition extractFieldsFromFile : list ExtractedField :=
  let st0 : extraction := ([], ∅) in
  let st1 := foldl pattern1 st0 (execAll typedGetter content) in
  let st2 := foldl pattern2 st1 (execAll optGetter content) in
  let st3 := foldl pattern3 st2 (execAll genericOpt content) in
  let st4 := foldl pattern4 st3 (execAll converter content) in
  let st5 := foldl pattern5 st4 (execAll genericGet content) in
  let st6 := foldl pattern6 st5 (execAll contains content) in
  st6.1.

End File.

(** *** The knowledge store and [insertExtractedData]

    The four tables the storage step touches, as [src/db/schema.ts]
    declares them; rows are kept in insertion order.  Every [id] is
    [INTEGER PRIMARY KEY AUTOINCREMENT]. *)

Record SourceRow : Type := {
  src_id : nat;
  src_name : string;                       (* UNIQUE *)
  src_version : option string;
  src_description : string;
  src_url : string
}.

Record AssetTypeRow : Type := {
  at_id : nat;
  at_source_id : nat;
  at_name : string;                        (* UNIQUE(source_id, name) *)
  at_file_extension : string;
  at_description : string;
  at_base_path : string
}.

Record AssetFieldRow : Type := {
  af_id : nat;
  af_asset_type_id : nat;
  af_field_path : string;                  (* UNIQUE(asset_type_id, field_path) *)
  af_type : string;
  af_description : option string;
  af_required : nat;
  af_default_value : option string;
  af_enum_values : option string;
  af_examples : option string
}.

Record SearchRow : Type := {
  entity_type : string;
  entity_id : nat;
  search_name : string;
  search_content : string;
  search_source : string
}.

Record Database : Type := {
  sources : list SourceRow;
  asset_types : list AssetTypeRow;
  asset_fields : list AssetFieldRow;
  search_index : list SearchRow
}.

(** The next row id of a table whose rows were never deleted and whose
    inserts were never ignored: the least id the database can give.  (No
    statement below speaks of the id of a field row.) *)
Definition nextId (ids : list nat) : nat := S (max_list ids).

(** [SELECT id FROM sources WHERE name = ?] *)
Definition getSource (db : Database) (name : string) : option SourceRow :=
  head (filter (fun row => src_name row = name) (sources db)).

(** [SELECT id FROM asset_types WHERE source_id = ? AND name = ?] *)
Definition getAssetType (db : Database) (sourceId : nat) (name : string)
  : option AssetTypeRow :=
  head (filter (fun row => at_source_id row = sourceId /\ at_name row = name)
               (asset_types db)).

(** Is there a row with this [(asset_type_id, field_path)]? *)
Definition hasField (db : Database) (assetTypeId : nat) (fieldPath : string) : bool :=
  bool_decide (Exists (fun row => af_asset_type_id row = assetTypeId /\
                                  af_field_path row = fieldPath)
                      (asset_fields db)).

(** [INSERT INTO sources (name, version, description, url)]; returns the
    new row id. *)
Definition insertSource (db : Database) (name : string) (version : option string)
    (description url : string) : Database * nat :=
  let id := nextId (src_id <$> sources db) in
  ({| sources := sources db ++
                 [ {| src_id := id; src_name := name; src_version := version;
                      src_description := description; src_url := url |} ];
      asset_types := asset_types db; asset_fields := asset_fields db;
      search_index := search_index db |}, id).

(** [INSERT OR IGNORE INTO asset_types (source_id, name, file_extension,
     description, base_path)] *)
Definition insertAssetType (db : Database) (sourceId : nat)
    (name extension description basePath : string) : Database :=
  match getAssetType db sourceId name with
  | Some _ => db
  | None =>
      {| sources := sources db;
         asset_types := asset_types db ++
           [ {| at_id := nextId (at_id <$> asset_types db);
                at_source_id := sourceId; at_name := name;
                at_file_extension := extension; at_description := description;
                at_base_path := basePath |} ];
         asset_fields := asset_fields db; search_index := search_index db |}
  end.

(** [INSERT OR IGNORE INTO asset_fields (asset_type_id, field_path, type,
     description, required, default_value)] *)
Definition insertField (db : Database) (assetTypeId : nat)
    (fieldPath type description : string) (required : nat)
    (defaultValue : option string) : Database :=
  if hasField db assetTypeId fieldPath then db
  else
    {| sources := sources db; asset_types := asset_types db;
       asset_fields := asset_fields db ++
         [ {| af_id := nextId (af_id <$> asset_fields db);
              af_asset_type_id := assetTypeId; af_field_path := fieldPath;
              af_type := type; af_description := Some description;
              af_required := required; af_default_value := defaultValue;
              af_enum_values := None; af_examples := None |} ];
       search_index := search_index db |}.

(** [INSERT INTO search_index (entity_type, entity_id, name, content, source)] *)
Definition insertSearch (db : Database) (entityType : string) (entityId : nat)
    (name content source : string) : Database :=
  {| sources := sources db; asset_types := asset_types db;
     asset_fields := asset_fields db;
     search_index := search_index db ++
       [ {| entity_type := entityType; entity_id := entityId;
            search_name := name; search_content := content;
            search_source := source |} ] |}.

(** The description stored with a field. *)
Definition fieldDescription (field : ExtractedField) : string :=
  trim ("Extracted from " +:+ sourceFile field +:+ ":" +:+ pretty (lineNumber field)
        +:+ ". " +:+ (if optional field then "Optional." else "Required.") +:+ " "
        +:+ match defaultValue field with
            | Some dv => if truthy dv then "Default: " +:+ dv else EmptyString
            | None => EmptyString
            end).

Definition storeField (assetTypeId : nat) (db : Database) (field : ExtractedField)
  : Database :=
  insertField db assetTypeId (fieldName field) (type field)
              (fieldDescription field) (if optional field then 0 else 1)
              (defaultValue field).

(** The body of the loop over [dbFiles], for any lookup table. *)
Definition storeFile (table : list (string * AssetMapping)) (sourceId : nat)
    (db : Database) (dbFile : DatabaseFileInfo) : Database :=
  match mapGet table (fileName dbFile) with
  | None => db
  | Some mapping =>
      let db1 := insertAssetType db sourceId (map_assetType mapping)
                   (map_extension mapping) (map_description mapping) EmptyString in
      match getAssetType db1 sourceId (map_assetType mapping) with
      | None => db1
      | Some assetTypeRow =>
          let db2 := foldl (storeField (at_id assetTypeRow)) db1 (fields dbFile) in
          (* Index this asset type in search *)
          insertSearch db2 "asset_type" (at_id assetTypeRow)
                       (map_assetType mapping) (map_description mapping)
                       "openstarbound"
      end
  end.

(** Ensure the openstarbound source exists. *)
Definition ensureSource (db : Database) : Database * nat :=
  match getSource db "openstarbound" with
  | Some existingSource => (db, src_id existingSource)
  | None =>
      insertSource db "openstarbound" None
        "OpenStarbound C++ source — authoritative asset schema definitions"
        "https://github.com/OpenStarbound/OpenStarbound"
  end.

(** The rows of the closing query: the fields of the types of the source
    named openstarbound, each with the name of its type. *)
Definition allFields (db : Database) : list (AssetFieldRow * string) :=
  af ← asset_fields db;
  at_ ← filter (fun row => at_id row = af_asset_type_id af) (asset_types db);
  s ← filter (fun row => src_id row = at_source_id at_ /\
                         src_name row = "openstarbound") (sources db);
  [(af, at_name at_)].

Definition indexFields (db : Database) : Database :=
  foldl (fun db '(field, assetName) =>
           insertSearch db "asset_field" (af_id field)
                        (assetName +:+ "." +:+ af_field_path field)
                        (default EmptyString (af_description field))
                        "openstarbound")
        db (allFields db).

Definition insertExtractedDataWith (table : list (string * AssetMapping))
    (db : Database) (dbFiles : list DatabaseFileInfo) : Database :=
  let '(db0, sourceId) := ensureSource db in
  indexFields (foldl (storeFile table sourceId) db0 dbFiles).

Definition insertExtractedData : Database -> list DatabaseFileInfo -> Database :=
  insertExtractedDataWith DATABASE_TO_ASSET.

(** The keys of the stored fields. *)
Definition fieldKeys (db : Database) : list (nat * string) :=
  (fun row => (af_asset_type_id row, af_field_path row)) <$> asset_fields db.

(** [db'] holds the rows of [db], in place, and possibly more behind them. *)
Definition extends (db db' : Database) : Prop :=
  sources db `prefix_of` sources db' /\
  asset_types db `prefix_of` asset_types db' /\
  asset_fields db `prefix_of` asset_fields db'.

(** [db] and [db'] differ at most in the search index. *)
Definition sameStore (db db' : Database) : Prop :=
  sources db = sources db' /\ asset_types db = asset_types db' /\
  asset_fields db = asset_fields db'.

(** The type of [dbFile] and all its fields are stored already. *)
Definition covered (table : list (string * AssetMapping)) (sourceId : nat)
    (db : Database) (dbFile : DatabaseFileInfo) : Prop :=
  match mapGet table (fileName dbFile) with
  | None => True
  | Some mapping =>
      exists row,
        getAssetType db sourceId (map_assetType mapping) = Some row /\
        forall field, field ∈ fields dbFile ->
          hasField db (at_id row) (fieldName field) = true
  end.

End ExtractOpenStarbound.

(** ** Sample inputs used by the examples below *)

Module Samples.
Import JS.

Section Fu.
Import ExtractFu.

(** Recipe files: [a] and [c] are complete; [b] has an output without an
    item; [d] could not be parsed; the input of [e] is a number. *)
Definition sampleRecipe (item : string) : json :=
  JObj [ ("input", JArr [ JObj [("item", JStr "ore"); ("count", JNum 3)];
                          JObj [("item", JStr "coal")] ]);
         ("output", JObj [("item", JStr item)]);
         ("groups", JArr [JStr "furnace"; JStr "all"]);
         ("duration", JNum 0.5) ].

Definition sampleRecipeFiles (file : string) : json :=
  if String.eqb file "b.recipe" then
    JObj [ ("input", JArr [ JObj [("item", JStr "ore")] ]);
           ("output", JObj [("count", JNum 2)]) ]
  else if String.eqb file "d.recipe" then JNull
  else if String.eqb file "e.recipe" then
    JObj [ ("input", JNum 5); ("output", JObj [("item", JStr "bar")]) ]
  else sampleRecipe file.

(** One file with one tree: [a] and [c] both list [b]; [b] lists [d], which
    has no body of its own; a second file has no [researchTree]. *)
Definition sampleNode (cs : option (list string)) : option NodeData :=
  Some {| price := Some [("fuscienceresource", 5%Q)]; children := cs;
          unlocks := None |}.

Definition sampleTree : list (string * option NodeData) :=
  [ ("a", sampleNode (Some ["b"])); ("b", sampleNode (Some ["d"]));
    ("c", sampleNode (Some ["b"])); ("note", None) ].

Definition sampleConfigs (file : string) : option ConfigData :=
  if String.eqb file "tree.config" then
    Some {| researchTree := Some [("t1", sampleTree)];
            strings := Some {| str_trees := Some {[ "t1" := "Tree One" ]};
                               str_research := None |} |}
  else if String.eqb file "other.config" then
    Some {| researchTree := None; strings := None |}
  else None.

End Fu.

Section Lua.
Import ExtractLuaDocs.

(** Two consecutive signatures of [t.f], the first with one parameter and
    the second with three; both have a description. *)
Definition overloadedDoc : string :=
"# t

#### `Void` t.f(`Int` a)

One argument.

#### `Bool` t.f(`Int` a, `Int` b, [`Int` c])

Three arguments.
".

(** The same, the second signature without a description. *)
Definition overloadedDocBare : string :=
"#### `Void` t.f(`Int` a)

One argument.

#### `Bool` t.f(`Int` a, `Int` b, [`Int` c])
".

(** The two signatures of [overloadedDoc], one in each of two files. *)
Definition firstDoc : string :=
"#### `Void` t.f(`Int` a)

One argument.
".

Definition secondDoc : string :=
"#### `Bool` t.f(`Int` a, `Int` b, [`Int` c])

Three arguments.
".

(** The two entries of [overloadedDoc]. *)
Definition entryOne : ParsedFunction :=
  {| tableName := "t"; functionName := "f"; returnType := "Void";
     parameters := [ {| name := "a"; type := "Int"; optional := false |} ];
     signature := "t.f(Int a)"; description := "One argument.";
     isOverload := false; sourceFile := "t.md"; lineNumber := 3 |}.

Definition entryThree : ParsedFunction :=
  {| tableName := "t"; functionName := "f"; returnType := "Bool";
     parameters := [ {| name := "a"; type := "Int"; optional := false |};
                     {| name := "b"; type := "Int"; optional := false |};
                     {| name := "c"; type := "Int"; optional := true |} ];
     signature := "t.f(Int a, Int b, [Int c])"; description := "Three arguments.";
     isOverload := true; sourceFile := "t.md"; lineNumber := 7 |}.

End Lua.

Section OpenStarbound.
Import ExtractOpenStarbound.

(** A store and a run of the extractor: one file with a field found twice,
    once typed and once by a presence check, and a file of no known type. *)
Definition emptyStore : Database :=
  {| sources := []; asset_types := []; asset_fields := []; search_index := [] |}.

Definition sampleSource : string :=
  "auto x = config.getString(" +:+ dq "foo" +:+ ");
if (config.contains(" +:+ dq "foo" +:+ ")) {}
auto y = config.getFloat(" +:+ dq "speed" +:+ ", 1.0f);".

Definition sampleDbFiles : list DatabaseFileInfo :=
  [ {| fileName := "StarTechDatabase.cpp"; assetType := "tech";
       fileExtension := ".tech";
       fields := extractFieldsFromFile sampleSource "StarTechDatabase.cpp" |};
    {| fileName := "StarFooDatabase.cpp"; assetType := "foo";
       fileExtension := "unknown";
       fields := extractFieldsFromFile sampleSource "StarFooDatabase.cpp" |} ].

End OpenStarbound.

End Samples.

(** ** What the further theorems about the sanitizer speak of *)

Module SanitizerShapes.
Import Sanitizer.

(** [closesBlock body]: the two characters that end a block comment occur
    in [body], one behind the other. *)
Fixpoint closesBlock (body : list ascii) : bool :=
  match body with
  | c :: (d :: _) as tl => (Ascii.eqb c star && Ascii.eqb d slash) || closesBlock tl
  | _ => false
  end.

(** [closesString q body]: read as the contents of a literal opened by
    [q], with its backslash escapes, [body] holds the closing [q]. *)
Fixpoint closesString (q : ascii) (body : list ascii) : bool :=
  match body with
  | [] => false
  | c :: tl =>
      if Ascii.eqb c backslash then
        match tl with
        | _ :: tl' => closesString q tl'
        | [] => false
        end
      else if Ascii.eqb c q then true
      else closesString q tl
  end.

End SanitizerShapes.

(** ** extract-fu.ts: centrifuge and extraction lab recipes *)

Module ExtractFuMachines.
Import JS ExtractFu.

(** [Object.entries(v)] for a parsed value [v] other than [null]: the
    properties of an object, the elements of an array and the code units of
    a string under their indices, nothing for a number or a boolean. *)
Definition ownEntries (v : json) : list (string * json) :=
  match v with
  | JObj properties => properties
  | JArr items => imap (fun i item => (pretty i, item)) items
  | JStr s =>
      imap (fun i c => (pretty i, JStr (String c EmptyString)))
           (list_ascii_of_string s)
  | JNull | JBool _ | JNum _ => []
  end.

(** [Object.entries(v)]; [None] is the [TypeError] thrown for [null]. *)
Definition entries (v : json) : option (list (string * json)) :=
  match v with
  | JNull => None
  | _ => Some (ownEntries v)
  end.

(** [typeof v === "object" && v !== null] *)
Definition isObject (v : json) : bool :=
  match v with
  | JObj _ | JArr _ => true
  | _ => false
  end.

Definition CENTRIFUGE_GROUP_NAMES : list (string * string) :=
  [ ("itemMapFarm", "centrifuge (farm)");
    ("itemMapBees", "centrifuge (bees)");
    ("itemMapLiquids", "centrifuge (liquids)");
    ("itemMapPowder", "sifter (powder)");
    ("itemMapRocks", "rock crusher");
    ("itemMapIsotopes", "centrifuge (isotopes)") ].

(** The pairs [(file, method)]. *)
Definition EXTRACTION_CONFIGS : list (string * string) :=
  [ ("objects/generic/extractionlab_recipes.config", "extraction lab");
    ("objects/generic/extractionlabmadness_recipes.config", "psionic amplifier");
    ("objects/generic/xenostation_recipes.config", "xeno research lab");
    ("objects/power/fu_liquidmixer/fu_liquidmixer_recipes.config", "liquid mixer");
    ("objects/generic/honeyjarrer_recipes.config", "honey extractor") ].

(** *** [extractCentrifugeRecipes]

    The conversions [String(v)] and [Number(v)] of the language are taken
    as given; [jsnumber] is the type of JavaScript numbers.  A conversion
    can throw a [TypeError], as it does on a parsed object that has a
    property [toString] of its own (which is no function, then); [None] is
    that exception. *)
Module Centrifuge.
Section Conversions.
Variable jsnumber : Type.
Variables (toString : json -> option string) (toNumber : json -> option jsnumber).

Record Output : Type := {
  item : string;
  count : jsnumber;
  rarity : string
}.

Record ParsedCentrifugeRecipe : Type := {
  inputItem : string;
  method : string;
  outputs : list Output
}.

(** What the body of the innermost loop pushes for one entry of
    [outputMap]: nothing unless the value is an array of two elements or
    more; [None] when a conversion throws. *)
Definition outputOf (entry : string * json) : option (list Output) :=
  match entry.2 with
  | JArr (rarity :: count :: _) =>
      rarity ← toString rarity;
      count ← toNumber count;
      Some [ {| item := entry.1; rarity := rarity; count := count |} ]
  | _ => Some []
  end.

(** The body of the innermost loop; [None]: the run has ended with an
    uncaught exception. *)
Definition pushOutput (outputs : option (list Output)) (entry : string * json)
  : option (list Output) :=
  match outputs with
  | None => None
  | Some outputs =>
      match outputOf entry with
      | None => None
      | Some pushed => Some (outputs ++ pushed)
      end
  end.

(** The body of the loop over the entries of [inputMap]. *)
Definition pushInput (method : string)
    (recipes : option (list ParsedCentrifugeRecipe)) (entry : string * json)
  : option (list ParsedCentrifugeRecipe) :=
  match recipes with
  | None => None
  | Some recipes =>
      if negb (isObject entry.2) then Some recipes
      else
        match foldl pushOutput (Some []) (ownEntries entry.2) with
        | None => None
        | Some [] => Some recipes            (* outputs.length > 0 fails *)
        | Some outputs =>
            Some (recipes ++
                  [ {| inputItem := entry.1; method := method; outputs := outputs |} ])
        end
  end.

(** The body of the loop over the entries of [data]. *)
Definition pushGroup (recipes : option (list ParsedCentrifugeRecipe))
    (entry : string * json) : option (list ParsedCentrifugeRecipe) :=
  match recipes with
  | None => None
  | Some recipes =>
      if negb (startsWith entry.1 "itemMap") then Some recipes
      else
        let method := default entry.1 (mapGet CENTRIFUGE_GROUP_NAMES entry.1) in
        match entries entry.2 with
        | None => None
        | Some inputs => foldl (pushInput method) (Some recipes) inputs
        end
  end.

(** [config] is [None] when [centrifuge_recipes.config] does not exist, and
    otherwise what [readJsonFile] returned for it. *)
Definition extractCentrifugeRecipes (config : option json)
  : option (list ParsedCentrifugeRecipe) :=
  match config with
  | None => Some []
  | Some data =>
      if negb (truthyValue data) then Some []
      else foldl pushGroup (Some []) (ownEntries data)
  end.

(** A recipe that [pushInput] pushes for the entry [input] of a group with
    the given label: its outputs are what the entries of the output map
    give, one after the other. *)
Definition fromInput (label : string) (input : string * json)
    (recipe : ParsedCentrifugeRecipe) : Prop :=
  isObject input.2 = true /\ inputItem recipe = input.1 /\
  method recipe = label /\
  exists pushed,
    mapM outputOf (ownEntries input.2) = Some pushed /\
    outputs recipe = concat pushed.

(** An entry of an output map at which a conversion throws. *)
Definition throwingOutput (output : string * json) : Prop :=
  exists rarity count rest,
    output.2 = JArr (rarity :: count :: rest) /\
    (toString rarity = None \/ toNumber count = None).

End Conversions.

Arguments item {jsnumber}.
Arguments count {jsnumber}.
Arguments rarity {jsnumber}.
Arguments inputItem {jsnumber}.
Arguments method {jsnumber}.
Arguments outputs {jsnumber}.
Arguments outputOf {jsnumber}.
Arguments pushOutput {jsnumber}.
Arguments pushInput {jsnumber}.
Arguments pushGroup {jsnumber}.
Arguments extractCentrifugeRecipes {jsnumber}.
Arguments fromInput {jsnumber}.
Arguments throwingOutput {jsnumber}.

End Centrifuge.

(** *** [extractExtractionRecipes] *)
Module ExtractionLab.
Section Conversions.
Variable jsnumber : Type.

(** [Number(v)]; [None] is the [TypeError] it throws. *)
Variable toNumber : json -> option jsnumber.

(** The tier names. *)
Definition tiers : list string := ["basic"; "improved"; "advanced"; "all"].

(** [count] is the element of the tier list as it was parsed. *)
Record Output : Type := {
  item : string;
  count : json;
  tier : string
}.

Record ParsedExtractionRecipe : Type := {
  inputItem : string;
  inputCount : jsnumber;
  method : string;
  outputs : list Output
}.

(** The body of the loop over the entries of [outputs]. *)
Definition tierOutputs (entry : string * json) : list Output :=
  match entry.2 with
  | JArr (t0 :: t1 :: t2 :: _) =>
      [ {| item := entry.1; count := t0; tier := "basic" |};
        {| item := entry.1; count := t1; tier := "improved" |};
        {| item := entry.1; count := t2; tier := "advanced" |} ]
  | JArr [t0] => [ {| item := entry.1; count := t0; tier := "all" |} ]
  | JNum n => [ {| item := entry.1; count := JNum n; tier := "all" |} ]
  | _ => []
  end.

(** The body of the loop over the entries of [inputs]; [None]: the run has
    ended with an uncaught exception. *)
Definition pushInput (method : string) (outputs : json)
    (allRecipes : option (list ParsedExtractionRecipe)) (entry : string * json)
  : option (list ParsedExtractionRecipe) :=
  match allRecipes with
  | None => None
  | Some allRecipes =>
      match ownEntries outputs ≫= tierOutputs with
      | [] => Some allRecipes              (* parsedOutputs.length > 0 fails *)
      | parsedOutputs =>
          match toNumber entry.2 with
          | None => None
          | Some inputCount =>
              Some (allRecipes ++
                    [ {| inputItem := entry.1; inputCount := inputCount;
                         method := method; outputs := parsedOutputs |} ])
          end
      end
  end.

(** The body of the loop over [recipes]; reading a property of [null]
    throws. *)
Definition pushRecipe (method : string)
    (allRecipes : option (list ParsedExtractionRecipe)) (recipe : json)
  : option (list ParsedExtractionRecipe) :=
  match allRecipes, recipe with
  | None, _ => None
  | Some _, JNull => None
  | Some allRecipes, _ =>
      let inputs := getProp recipe "inputs" in
      let outputs := getProp recipe "outputs" in
      if negb (truthyProp inputs) || negb (truthyProp outputs) then Some allRecipes
      else
        foldl (pushInput method (default JNull outputs)) (Some allRecipes)
              (ownEntries (default JNull inputs))
  end.

(** [Array.isArray(raw) ? raw : raw.recipes], when it is an array. *)
Definition recipeList (raw : json) : option (list json) :=
  match raw with
  | JArr items => Some items
  | _ =>
      match getProp raw "recipes" with
      | Some (JArr items) => Some items
      | _ => None
      end
  end.

(** A recipe that [pushRecipe] pushes for the element [recipe] of a
    config with the given label: one of its inputs with all its outputs. *)
Definition fromRecipe (label : string) (recipe : json)
    (parsed : ParsedExtractionRecipe) : Prop :=
  exists inputs outputs_ input,
    getProp recipe "inputs" = Some inputs /\
    getProp recipe "outputs" = Some outputs_ /\
    input ∈ ownEntries inputs /\
    inputItem parsed = input.1 /\ toNumber input.2 = Some (inputCount parsed) /\
    method parsed = label /\
    outputs parsed = ownEntries outputs_ ≫= tierOutputs.

(** An element of a recipe list at which the loop throws: it is null, or
    it has inputs and usable outputs, and the count of one of its inputs
    cannot be converted. *)
Definition throwingRecipe (recipe : json) : Prop :=
  recipe = JNull \/
  exists inputs outputs_ input,
    getProp recipe "inputs" = Some inputs /\ truthyValue inputs = true /\
    getProp recipe "outputs" = Some outputs_ /\ truthyValue outputs_ = true /\
    ownEntries outputs_ ≫= tierOutputs <> [] /\
    input ∈ ownEntries inputs /\ toNumber input.2 = None.

Section Files.

(** [readConfig file] is [None] when the file does not exist under
    [fuPath], and otherwise what [readJsonFile] returned for it. *)
Variable readConfig : string -> option json.

(** The body of the loop over [EXTRACTION_CONFIGS]. *)
Definition pushConfig (allRecipes : option (list ParsedExtractionRecipe))
    (config : string * string) : option (list ParsedExtractionRecipe) :=
  match allRecipes with
  | None => None
  | Some allRecipes =>
      match readConfig config.1 with
      | None => Some allRecipes                          (* not found *)
      | Some raw =>
          if negb (truthyValue raw) then Some allRecipes (* failed to parse *)
          else
            match recipeList raw with
            | None => Some allRecipes                    (* unexpected format *)
            | Some recipes => foldl (pushRecipe config.2) (Some allRecipes) recipes
            end
      end
  end.

Definition extractExtractionRecipes : option (list ParsedExtractionRecipe) :=
  foldl pushConfig (Some []) EXTRACTION_CONFIGS.

End Files.
End Conversions.

Arguments inputItem {jsnumber}.
Arguments inputCount {jsnumber}.
Arguments method {jsnumber}.
Arguments outputs {jsnumber}.
Arguments pushInput {jsnumber}.
Arguments pushRecipe {jsnumber}.
Arguments pushConfig {jsnumber}.
Arguments fromRecipe {jsnumber}.
Arguments throwingRecipe {jsnumber}.
Arguments extractExtractionRecipes {jsnumber}.

End ExtractionLab.

(** *** Sample configs *)

(** Stand-ins for the conversions, right on the values the samples hold:
    a string converts to itself and a number to itself, and the conversion
    of an object that has a property [toString] of its own throws. *)
Definition sampleString (v : json) : option string :=
  match v with JStr s => Some s | _ => None end.

Definition sampleNumber (v : json) : option number :=
  match v with JNum n => Some n | _ => None end.

(** A centrifuge config: one group with two inputs, the second without a
    usable output; a key that is no group; a group that is null. *)
Definition sampleCentrifuge (withNull : bool) : json :=
  JObj ([ ("itemMapFarm",
           JObj [ ("wheat", JObj [ ("seed", JArr [JStr "common"; JNum 2]);
                                   ("chaff", JStr "rare") ]);
                  ("stone", JObj [ ("dust", JArr [JStr "rare"]) ]) ]);
          ("comment", JNull) ]
        ++ if withNull then [("itemMapBees", JNull)] else []).

(** A centrifuge config without a null group, in which the rarity of an
    output is an object that cannot be converted. *)
Definition sampleCentrifugeOdd : json :=
  JObj [ ("itemMapFarm",
          JObj [ ("wheat",
                  JObj [ ("seed", JArr [JObj [("toString", JNum 1)]; JNum 2]) ]) ]) ].

Definition sampleWheat : Centrifuge.ParsedCentrifugeRecipe number :=
  {| Centrifuge.inputItem := "wheat"; Centrifuge.method := "centrifuge (farm)";
     Centrifuge.outputs :=
       [ {| Centrifuge.item := "seed"; Centrifuge.count := 2%Q;
            Centrifuge.rarity := "common" |} ] |}.

(** Extraction configs: the extraction lab has a recipe with two inputs, a
    three-tier output and a two-tier one; the liquid mixer file is an
    object with a recipe list that holds a null. *)
Definition sampleLabRecipe : json :=
  JObj [ ("inputs", JObj [("ore", JNum 2); ("sand", JNum 1)]);
         ("outputs", JObj [ ("bar", JArr [JNum 1; JNum 2; JNum 3]);
                            ("slag", JArr [JNum 1; JNum 2]) ]) ].

Definition sampleLabConfigs (withNull : bool) (file : string) : option json :=
  if String.eqb file "objects/generic/extractionlab_recipes.config" then
    Some (JArr [sampleLabRecipe; JStr "note"])
  else if String.eqb file "objects/power/fu_liquidmixer/fu_liquidmixer_recipes.config"
  then Some (JObj [("recipes", JArr (if withNull then [JNull] else []))])
  else if String.eqb file "objects/generic/honeyjarrer_recipes.config" then Some JNull
  else None.

(** Extraction configs without a null recipe, in which the count of an
    input is an object that cannot be converted. *)
Definition sampleLabConfigsOdd (file : string) : option json :=
  if String.eqb file "objects/generic/extractionlab_recipes.config" then
    Some (JArr [ JObj [ ("inputs", JObj [("ore", JObj [("toString", JNum 1);
                                                        ("valueOf", JNum 1)])]);
                        ("outputs", JObj [("bar", JNum 1)]) ] ])
  else None.

Definition sampleOre : ExtractionLab.ParsedExtractionRecipe number :=
  {| ExtractionLab.inputItem := "ore"; ExtractionLab.inputCount := 2%Q;
     ExtractionLab.method := "extraction lab";
     ExtractionLab.outputs :=
       [ {| ExtractionLab.item := "bar"; ExtractionLab.count := JNum 1;
            ExtractionLab.tier := "basic" |};
         {| ExtractionLab.item := "bar"; ExtractionLab.count := JNum 2;
            ExtractionLab.tier := "improved" |};
         {| ExtractionLab.item := "bar"; ExtractionLab.count := JNum 3;
            ExtractionLab.tier := "advanced" |} ] |}.

Definition sampleSand : ExtractionLab.ParsedExtractionRecipe number :=
  {| ExtractionLab.inputItem := "sand"; ExtractionLab.inputCount := 1%Q;
     ExtractionLab.method := "extraction lab";
     ExtractionLab.outputs := ExtractionLab.outputs sampleOre |}.

End ExtractFuMachines.

(** ** extract-fu.ts: [extractResearchTrees] over the parsed values

    The cast of the parsed data to [Record<string, unknown>] checks nothing
    at run time: a config file may hold any JSON value.  Here the two passes
    are embedded over untyped values, with the [TypeError]s that a value of
    an unexpected shape makes them throw. *)

Module ExtractFuTrees.
Import JS ExtractFuMachines.

(** The values a string gives when it is iterated: its code units, one by
    one. *)
Definition characters (s : string) : list json :=
  (fun c => JStr (String c EmptyString)) <$> list_ascii_of_string s.

(** [[item, count]] taken from [entry], as the parameter of the callback of
    [price.map] does: the first two values [entry] gives when iterated
    ([undefined] is [None]); a value that cannot be iterated throws. *)
Definition costOf (entry : json) : option (option json * option json) :=
  match entry with
  | JArr items => Some (items !! 0, items !! 1)
  | JStr s => Some (characters s !! 0, characters s !! 1)
  | _ => None
  end.

(** [(price ?? []).map(([item, count]) => ({ item, count }))]; only an
    array has a [map]. *)
Definition costs (price : option json) : option (list (option json * option json)) :=
  match price with
  | None | Some JNull => Some []
  | Some (JArr entries) => mapM costOf entries
  | Some _ => None
  end.

(** The values the loop [for (const childId of children)] meets, where
    [children] is [nodeData.children ?? []]; a value that cannot be
    iterated throws. *)
Definition childIds (nodeData : json) : option (list json) :=
  match orElse (getProp nodeData "children") (JArr []) with
  | JArr items => Some items
  | JStr s => Some (characters s)
  | _ => None
  end.

(** What the items of a loop contribute together, when each contributes a
    list or throws ([None]). *)
Definition collect {A B} (g : A -> option (list B)) (l : list A) : option (list B) :=
  match mapM g l with
  | Some contributions => Some (concat contributions)
  | None => None
  end.

Section Language.

(** Values that are no parsed data: the functions and objects that every
    value inherits from its prototype. *)
Variable foreign : Type.

Inductive value : Type :=
  | Data (v : json)
  | Foreign (f : foreign).

(** Taken as given.  [inherited v key] is what [v[key]] answers when [key]
    is no enumerable own property of [v]: a member of the prototype chain
    of [v], such as [constructor], or the length of an array or a string;
    [None] when there is none.  [foreignProperty f key] is [f.key].
    [toString v] is [String(v)] for a value that is no string; [None] is
    the [TypeError] the conversion throws, as it does on an object that has
    a property [toString] of its own. *)
Variable inherited : json -> string -> option value.
Variable foreignProperty : foreign -> string -> option value.
Variable toString : json -> option string.

(** [v[key]], for [v] other than [null]. *)
Definition index (v : json) (key : string) : option value :=
  match mapGet (ownEntries v) key with
  | Some x => Some (Data x)
  | None => inherited v key
  end.

(** [v.key] for the keys [name] and [description], which no prototype of a
    parsed value defines. *)
Definition property (v : value) (key : string) : option value :=
  match v with
  | Data d => Data <$> getProp d key
  | Foreign f => foreignProperty f key
  end.

(** [v ?? d] *)
Definition orValue (v : option value) (d : value) : value :=
  match v with
  | None | Some (Data JNull) => d
  | Some v => v
  end.

(** [strings?.table?.[key]], for [strings] other than [null]. *)
Definition lookup (strs : json) (table key : string) : option value :=
  match getProp strs table with
  | None | Some JNull => None
  | Some entries_ => index entries_ key
  end.

(** The text a template puts in for [v]. *)
Definition templateString (v : json) : option string :=
  match v with
  | JStr s => Some s
  | _ => toString v
  end.

Record ParsedResearchNode : Type := {
  tree : value;
  nodeId : string;
  name : value;
  description : value;
  cost : list (option json * option json);
  prerequisites : list string;
  unlocks : json
}.

Definition setPrerequisites (node : ParsedResearchNode) (p : list string)
  : ParsedResearchNode :=
  {| tree := tree node; nodeId := nodeId node; name := name node;
     description := description node; cost := cost node;
     prerequisites := p; unlocks := unlocks node |}.

(** The node pushed for the entry [(nodeId, nodeData)] of a tree, with its
    cost already computed. *)
Definition nodeFor (strs : json) (treeId : string) (treeName : value)
    (entry : string * json) (cost : list (option json * option json))
  : ParsedResearchNode :=
  let nodeStrings := orValue (lookup strs "research" entry.1) (Data (JObj [])) in
  {| tree := treeName;
     nodeId := treeId +:+ ":" +:+ entry.1;
     name := orValue (property nodeStrings "name") (Data (JStr entry.1));
     description :=
       orValue (property nodeStrings "description") (Data (JStr EmptyString));
     cost := cost;
     prerequisites := [];                  (* filled in after all nodes parsed *)
     unlocks := orElse (getProp entry.2 "unlocks") (JArr []) |}.

Section Configs.

(** [readJsonFile]: the parsed content of a file, or [null]. *)
Variable readJsonFile : string -> json.

(** [!data || !data.researchTree] *)
Definition skipped (data : json) : bool :=
  negb (truthyValue data) || negb (truthyProp (getProp data "researchTree")).

(** First pass, innermost loop body: one entry of a tree.  [None]: the run
    has ended with an uncaught exception. *)
Definition pushNode (strs : json) (treeId : string) (treeName : value)
    (nodes : option (list ParsedResearchNode)) (entry : string * json)
  : option (list ParsedResearchNode) :=
  match nodes with
  | None => None
  | Some nodes =>
      if negb (isObject entry.2) then Some nodes
      else
        match costs (getProp entry.2 "price") with
        | None => None
        | Some cost => Some (nodes ++ [nodeFor strs treeId treeName entry cost])
        end
  end.

(** [strings?.trees?.[treeId] ?? treeId] *)
Definition treeNameOf (strs : json) (treeId : string) : value :=
  orValue (lookup strs "trees" treeId) (Data (JStr treeId)).

(** The body of the loop over the entries of [researchTree]. *)
Definition pushTree (strs : json) (nodes : option (list ParsedResearchNode))
    (entry : string * json) : option (list ParsedResearchNode) :=
  match nodes with
  | None => None
  | Some nodes =>
      let treeName := treeNameOf strs entry.1 in
      match entries entry.2 with
      | None => None                       (* Object.entries(null) *)
      | Some treeNodes =>
          foldl (pushNode strs entry.1 treeName) (Some nodes) treeNodes
      end
  end.

(** The body of the loop over [configFiles]. *)
Definition pushFile (nodes : option (list ParsedResearchNode)) (file : string)
  : option (list ParsedResearchNode) :=
  match nodes with
  | None => None
  | Some nodes =>
      let data := readJsonFile file in
      if skipped data then Some nodes
      else
        let researchTree := default JNull (getProp data "researchTree") in
        let strs := orElse (getProp data "strings") (JObj []) in
        foldl (pushTree strs) (Some nodes) (ownEntries researchTree)
  end.

(** The node table of the first pass. *)
Definition parseNodes (configFiles : list string)
  : option (list ParsedResearchNode) :=
  foldl pushFile (Some []) configFiles.

(** Second pass: [childToParent], a [Map<string, string[]>]. *)
Definition addParent (fullNodeId treeId : string)
    (childToParent : option (gmap string (list string))) (childId : json)
  : option (gmap string (list string)) :=
  match childToParent with
  | None => None
  | Some childToParent =>
      match templateString childId with
      | None => None
      | Some childId =>
          let fullChildId := treeId +:+ ":" +:+ childId in
          let existing := default [] (childToParent !! fullChildId) in
          Some (<[fullChildId := existing ++ [fullNodeId]]> childToParent)
      end
  end.

Definition scanNode (treeId : string)
    (childToParent : option (gmap string (list string))) (entry : string * json)
  : option (gmap string (list string)) :=
  match childToParent with
  | None => None
  | Some childToParent =>
      if negb (isObject entry.2) then Some childToParent
      else
        match childIds entry.2 with
        | None => None                     (* children is not iterable *)
        | Some children =>
            foldl (addParent (treeId +:+ ":" +:+ entry.1) treeId)
                  (Some childToParent) children
        end
  end.

Definition scanTree (childToParent : option (gmap string (list string)))
    (entry : string * json) : option (gmap string (list string)) :=
  match childToParent with
  | None => None
  | Some childToParent =>
      match entries entry.2 with
      | None => None
      | Some treeNodes => foldl (scanNode entry.1) (Some childToParent) treeNodes
      end
  end.

Definition scanFile (childToParent : option (gmap string (list string)))
    (configFile : string) : option (gmap string (list string)) :=
  match childToParent with
  | None => None
  | Some childToParent =>
      let data := readJsonFile configFile in
      if skipped data then Some childToParent
      else
        foldl scanTree (Some childToParent)
              (ownEntries (default JNull (getProp data "researchTree")))
  end.

Definition buildChildToParent (configFiles : list string)
  : option (gmap string (list string)) :=
  foldl scanFile (Some ∅) configFiles.

(** [configFiles] is what [walkDir] returned; both passes read the same
    files.  (The loop over [nodeMap] between the passes has an empty
    body.) *)
Definition extractResearchTrees (configFiles : list string)
  : option (list ParsedResearchNode) :=
  match parseNodes configFiles with
  | None => None
  | Some nodes =>
      match buildChildToParent configFiles with
      | None => None
      | Some childToParent =>
          Some (map (fun node =>
                       setPrerequisites node
                         (default [] (childToParent !! nodeId node)))
                    nodes)
      end
  end.

(** *** The same two passes as lists

    What an item of a loop contributes, [None] when the body throws at it,
    and what the items of a loop contribute together ([collect]). *)
Definition nodeOf (strs : json) (treeId : string) (entry : string * json)
  : option (list ParsedResearchNode) :=
  if negb (isObject entry.2) then Some []
  else
    match costs (getProp entry.2 "price") with
    | None => None
    | Some cost => Some [nodeFor strs treeId (treeNameOf strs treeId) entry cost]
    end.

Definition treeNodes (strs : json) (entry : string * json)
  : option (list ParsedResearchNode) :=
  match entries entry.2 with
  | None => None
  | Some nodes => collect (nodeOf strs entry.1) nodes
  end.

(** The trees of a file that takes part. *)
Definition fileTrees (file : string) : list (string * json) :=
  let data := readJsonFile file in
  if skipped data then []
  else ownEntries (default JNull (getProp data "researchTree")).

Definition fileNodes (file : string) : option (list ParsedResearchNode) :=
  collect (treeNodes (orElse (getProp (readJsonFile file) "strings") (JObj [])))
          (fileTrees file).

(** The pairs [(child, parent)] that [childToParent] is made to record. *)
Definition edgeOf (treeId nodeId : string) (childId : json)
  : option (list (string * string)) :=
  match templateString childId with
  | None => None
  | Some childId => Some [(treeId +:+ ":" +:+ childId, treeId +:+ ":" +:+ nodeId)]
  end.

Definition nodeEdges (treeId : string) (entry : string * json)
  : option (list (string * string)) :=
  if negb (isObject entry.2) then Some []
  else
    match childIds entry.2 with
    | None => None
    | Some children => collect (edgeOf treeId entry.1) children
    end.

Definition treeEdges (entry : string * json) : option (list (string * string)) :=
  match entries entry.2 with
  | None => None
  | Some nodes => collect (nodeEdges entry.1) nodes
  end.

Definition fileEdges (file : string) : option (list (string * string)) :=
  collect treeEdges (fileTrees file).

Definition addEdge (childToParent : gmap string (list string))
    (edge : string * string) : gmap string (list string) :=
  <[edge.1 := default [] (childToParent !! edge.1) ++ [edge.2]]> childToParent.

(** *** What the claim speaks of *)

(** Node [b] of tree [t] has a body in some file. *)
Definition declaresNode (configFiles : list string) (t b : string) : Prop :=
  exists file nodes body,
    file ∈ configFiles /\ (t, nodes) ∈ fileTrees file /\
    (b, body) ∈ ownEntries nodes /\ isObject body = true.

(** Node [a] of tree [t] lists the id [b] in its children list. *)
Definition listsChild (configFiles : list string) (t a b : string) : Prop :=
  exists file nodes body children,
    file ∈ configFiles /\ (t, nodes) ∈ fileTrees file /\
    (a, body) ∈ ownEntries nodes /\ isObject body = true /\
    getProp body "children" = Some (JArr children) /\ JStr b ∈ children.

(** The second pass meets, at node [a] of tree [t], a child that the
    template writes as [b]: an element of the children list, or a
    character of a [children] that is a string. *)
Definition meetsChild (configFiles : list string) (t a b : string) : Prop :=
  exists file nodes body children childId,
    file ∈ configFiles /\ (t, nodes) ∈ fileTrees file /\
    (a, body) ∈ ownEntries nodes /\ isObject body = true /\
    childIds body = Some children /\ childId ∈ children /\
    templateString childId = Some b.

(** A node body at which a pass throws: its price is no list of values
    that can be iterated, its children cannot be iterated, or a child
    cannot be written by the template. *)
Definition throwingBody (body : json) : Prop :=
  costs (getProp body "price") = None \/
  childIds body = None \/
  exists children childId,
    childIds body = Some children /\ childId ∈ children /\
    templateString childId = None.

(** The run meets a tree that is null, or a node body at which it throws. *)
Definition throwingTree (configFiles : list string) : Prop :=
  exists file t nodes,
    file ∈ configFiles /\ (t, nodes) ∈ fileTrees file /\
    (nodes = JNull \/
     exists a body,
       (a, body) ∈ ownEntries nodes /\ isObject body = true /\ throwingBody body).

End Configs.
End Language.

Arguments Data {foreign}.
Arguments Foreign {foreign}.
Arguments tree {foreign}.
Arguments nodeId {foreign}.
Arguments name {foreign}.
Arguments description {foreign}.
Arguments cost {foreign}.
Arguments prerequisites {foreign}.
Arguments unlocks {foreign}.
Arguments setPrerequisites {foreign}.

(** *** A sample run *)

(** One file with one tree: [a] and [c] both list [b]; [b] lists [d], which
    has no body of its own, and carries an authored list of prerequisites,
    which nothing reads; [note] is no node.  A second file has no
    [researchTree]; in a third the children of a node are the number 5. *)
Definition sampleBody (children : list string) : json :=
  JObj [ ("price", JArr [JArr [JStr "fuscienceresource"; JNum 5]]);
         ("children", JArr (JStr <$> children)) ].

Definition sampleTrees (file : string) : json :=
  if String.eqb file "tree.config" then
    JObj [ ("researchTree",
            JObj [ ("t1",
                    JObj [ ("a", sampleBody ["b"]);
                           ("b", JObj [ ("children", JArr [JStr "d"]);
                                        ("prerequisites", JArr [JStr "t1:z"]) ]);
                           ("c", sampleBody ["b"]);
                           ("note", JStr "not a node") ]) ]);
           ("strings", JObj [ ("trees", JObj [("t1", JStr "Tree One")]) ]) ]
  else if String.eqb file "other.config" then JObj [("strings", JObj [])]
  else if String.eqb file "odd.config" then
    JObj [ ("researchTree",
            JObj [ ("t2", JObj [ ("x", JObj [("children", JNum 5)]) ]) ]) ]
  else JNull.

(** Stand-ins for what the language gives, right on the sample: nothing is
    looked up that is inherited, and every child is a string. *)
Definition sampleInherited (v : json) (key : string) : option (value Empty_set) := None.
Definition sampleForeignProperty (f : Empty_set) (key : string)
  : option (value Empty_set) := None.
Definition sampleToString (v : json) : option string := None.

Definition sampleExtract (configFiles : list string)
  : option (list (ParsedResearchNode Empty_set)) :=
  extractResearchTrees Empty_set sampleInherited sampleForeignProperty sampleToString
                       sampleTrees configFiles.

End ExtractFuTrees.

(** ** extract-fu.ts: the typed configs among the parsed values

    What a config of the type the parsed content is cast to looks like as
    a parsed value: an optional property that is [None] is absent, and a
    node that is no object is [null]. *)

Module ExtractFuTyped.
Import JS ExtractFuMachines.

Definition optionalProperty (key : string) (v : option json)
  : list (string * json) :=
  match v with
  | Some v => [(key, v)]
  | None => []
  end.

Definition bodyValue (body : option ExtractFu.NodeData) : json :=
  match body with
  | None => JNull
  | Some nodeData =>
      JObj (optionalProperty "price"
              ((fun price => JArr ((fun entry => JArr [JStr entry.1; JNum entry.2])
                                     <$> price))
                 <$> ExtractFu.price nodeData)
            ++ optionalProperty "children"
                 ((fun children => JArr (JStr <$> children))
                    <$> ExtractFu.children nodeData)
            ++ optionalProperty "unlocks"
                 ((fun unlocks => JArr (JStr <$> unlocks))
                    <$> ExtractFu.unlocks nodeData))
  end.

Definition treeValue (nodes : list (string * option ExtractFu.NodeData)) : json :=
  JObj ((fun entry => (entry.1, bodyValue entry.2)) <$> nodes).

Definition nodeStringsValue (s : ExtractFu.NodeStrings) : json :=
  JObj (optionalProperty "name" (JStr <$> ExtractFu.str_name s)
        ++ optionalProperty "description" (JStr <$> ExtractFu.str_description s)).

Definition stringsValue (s : ExtractFu.Strings) : json :=
  JObj (optionalProperty "trees"
          ((fun trees => JObj ((fun entry => (entry.1, JStr entry.2))
                                 <$> map_to_list trees))
             <$> ExtractFu.str_trees s)
        ++ optionalProperty "research"
             ((fun research =>
                 JObj ((fun entry => (entry.1, nodeStringsValue entry.2))
                         <$> map_to_list research))
                <$> ExtractFu.str_research s)).

Definition configValue (data : option ExtractFu.ConfigData) : json :=
  match data with
  | None => JNull
  | Some data =>
      JObj (optionalProperty "researchTree"
              ((fun trees => JObj ((fun entry => (entry.1, treeValue entry.2))
                                     <$> trees))
                 <$> ExtractFu.researchTree data)
            ++ optionalProperty "strings" (stringsValue <$> ExtractFu.strings data))
  end.

End ExtractFuTyped.

(** ** extract-fu.ts: [insertData], the research nodes *)

Module ExtractFuStore.
Import JS ExtractFu.

(** A row of [fu_research], as [src/db/schema.ts] declares the table. *)
Record ResearchRow : Type := {
  fr_id : nat;                             (* INTEGER PRIMARY KEY AUTOINCREMENT *)
  fr_tree : string;
  fr_node_id : string;                     (* UNIQUE *)
  fr_name : string;
  fr_description : string;
  fr_cost : string;
  fr_prerequisites : string;
  fr_unlocks : string
}.

(** The two tables the research transaction writes.  Rows are kept in
    insertion order; [fu_research_seq] is the entry of the table in
    [sqlite_sequence], the largest row id it has ever held. *)
Record Store : Type := {
  fu_research : list ResearchRow;
  fu_research_seq : nat;
  search_index : list ExtractOpenStarbound.SearchRow
}.

(** The largest row id that [fu_research] holds or has held. *)
Definition top (db : Store) : nat :=
  fu_research_seq db `max` max_list (fr_id <$> fu_research db).

Section Stringify.

(** [JSON.stringify], taken as given, at the two types it is used at. *)
Variable stringifyCost : list (string * number) -> string.
Variable stringifyList : list string -> string.

Definition researchRow (id : nat) (node : ParsedResearchNode) : ResearchRow :=
  {| fr_id := id; fr_tree := tree node; fr_node_id := nodeId node;
     fr_name := name node; fr_description := description node;
     fr_cost := stringifyCost (cost node);
     fr_prerequisites := stringifyList (prerequisites node);
     fr_unlocks := stringifyList (unlocks_ node) |}.

(** [INSERT OR REPLACE INTO fu_research (tree, node_id, name, description,
     cost, prerequisites, unlocks)]: a row with the same [node_id] is
    deleted first; the new row gets a row id larger than any the table has
    held.  Returns the new row id. *)
Definition insertResearch (db : Store) (node : ParsedResearchNode) : Store * nat :=
  let id := S (top db) in
  ({| fu_research :=
        filter (fun row => fr_node_id row <> nodeId node) (fu_research db)
        ++ [researchRow id node];
      fu_research_seq := id;
      search_index := search_index db |}, id).

(** [INSERT INTO search_index (entity_type, entity_id, name, content, source)] *)
Definition insertSearch (db : Store) (entityType : string) (entityId : nat)
    (name content source : string) : Store :=
  {| fu_research := fu_research db; fu_research_seq := fu_research_seq db;
     search_index := search_index db ++
       [ {| ExtractOpenStarbound.entity_type := entityType;
            ExtractOpenStarbound.entity_id := entityId;
            ExtractOpenStarbound.search_name := name;
            ExtractOpenStarbound.search_content := content;
            ExtractOpenStarbound.search_source := source |} ] |}.

(** The body of the loop over [researchNodes]. *)
Definition storeNode (db : Store) (node : ParsedResearchNode) : Store :=
  let '(db1, lastInsertRowid) := insertResearch db node in
  insertSearch db1 "fu_research" lastInsertRowid (name node)
    ("Research: " +:+ name node +:+ " in " +:+ tree node +:+ ". "
     +:+ description node)
    "frackin-universe".

Definition researchTransaction (db : Store) (researchNodes : list ParsedResearchNode)
  : Store :=
  foldl storeNode db researchNodes.

End Stringify.

(** *** A sample run *)

Definition emptyFuStore : Store :=
  {| fu_research := []; fu_research_seq := 0; search_index := [] |}.

(** Stand-ins for [JSON.stringify] on the sample values. *)
Definition sampleStringifyCost (cost : list (string * number)) : string :=
  join "," cost.*1.

Definition sampleStringifyList (l : list string) : string := join "," l.

(** Two nodes with the same id, as two files that declare the same node
    give them. *)
Definition sampleNodeOld : ParsedResearchNode :=
  {| tree := "Tree One"; nodeId := "t1:b"; name := "old"; description := EmptyString;
     cost := []; prerequisites := []; unlocks_ := [] |}.

Definition sampleNodeNew : ParsedResearchNode :=
  {| tree := "Tree One"; nodeId := "t1:b"; name := "new"; description := EmptyString;
     cost := []; prerequisites := ["t1:a"]; unlocks_ := [] |}.

End ExtractFuStore.

(** ** What the further theorems about the extractors speak of *)

Module ExtractFuShapes.
Import JS ExtractFu.

(** The record an iteration of the loop over [recipeFiles] pushes, if any. *)
Definition pushed (o : outcome) : option ParsedRecipe :=
  match o with
  | Pushed recipe => Some recipe
  | Skipped | Thrown => None
  end.

(** The node of tree [t1] with two listing parents, as the sample run
    returns it. *)
Definition sampleNodeB : ParsedResearchNode :=
  {| tree := "Tree One"; nodeId := "t1:b"; name := "b";
     description := EmptyString; cost := [("fuscienceresource", 5%Q)];
     prerequisites := ["t1:a"; "t1:c"]; unlocks_ := [] |}.

(** The record extracted from [sampleRecipe item]. *)
Definition sampleRecipeOf (item : string) : ParsedRecipe :=
  {| outputItem := JStr item; outputCount := JNum 1; station := JStr "furnace";
     inputs := [ (Some (JStr "ore"), JNum 3); (Some (JStr "coal"), JNum 1) ];
     groups := JArr [JStr "furnace"; JStr "all"]; duration := JNum 0.5 |}.

End ExtractFuShapes.

Module ExtractLuaDocsShapes.
Import JS ExtractLuaDocs.

(** [fn] is the entry that [parseMarkdownFile] pushes for the heading
    [line] when the lines behind it are [following]: the heading passes the
    two tests of the loop and parses, and the fields of [fn] other than
    [isOverload] are computed from it and from the description collected
    behind it. *)
Definition parsedFromHeading (fileName line : string) (following : list string)
    (fn : ParsedFunction) : Prop :=
  looksLikeSignature line = true /\
  exists parsed,
    parseSignatureLine line = Some parsed /\
    tableName fn = sig_tableName parsed /\
    functionName fn = sig_functionName parsed /\
    returnType fn = sig_returnType parsed /\
    parameters fn = parseParameters (sig_rawParams parsed) /\
    signature fn
      = sig_tableName parsed +:+ "." +:+ sig_functionName parsed
        +:+ "(" +:+ paramStr (parameters fn) +:+ ")" /\
    description fn
      = trim (join (String newline EmptyString)
                   (collectDescription following (lineNumber fn) []).1.1) /\
    sourceFile fn = fileName.

(** The invariant of the outer loop of [parseMarkdownFile]: [all] are the
    lines of the file and [i] is the index the loop stands at. *)
Definition entriesOk (fileName : string) (all : list string) (i : nat)
    (functions : list ParsedFunction) : Prop :=
  Forall (fun fn =>
            1 <= lineNumber fn <= i /\
            exists line,
              all !! (lineNumber fn - 1) = Some line /\
              parsedFromHeading fileName line (drop (lineNumber fn) all) fn)
         functions /\
  (forall j k a b, functions !! j = Some a -> functions !! k = Some b -> j < k ->
                   lineNumber a < lineNumber b).

End ExtractLuaDocsShapes.

(** ** extract-lua-docs.ts: [insertLuaData], the functions of one table *)

Module ExtractLuaDocsStore.
Import JS ExtractLuaDocs.

(** One iteration of the merge loop, seen from the record of one name. *)
Definition mergeInto (record : option ParsedFunction) (fn : ParsedFunction)
  : option ParsedFunction :=
  match record with
  | Some existing => Some (if isOverload fn then mergeOverload existing fn else fn)
  | None => Some fn
  end.

(** The description a run of overloads gives to the entry it is merged
    into. *)
Definition mergedDescription (first : ParsedFunction) (run : list ParsedFunction)
  : string :=
  foldl (fun d fn => if truthy (description fn)
                     then d +:+ overloadLabel +:+ description fn else d)
        (description first) run.

(** The pattern of the examples, with the g flag:
    [``` (?:lua|js)? \n ( [\s\S]*? ) ```] *)
Definition codeBlockRegex : regex :=
  seq [Lit "```"; Opt (Alt (Lit "lua") (Lit "js")); Chr newline;
       Grp 1 (StarLazy (Cls (fun _ => true))); Lit "```"].

(** The pattern removed from the description, with the g flag:
    [``` (?:lua|js)? \n [\s\S]*? ```] *)
Definition codeBlockPattern : regex :=
  seq [Lit "```"; Opt (Alt (Lit "lua") (Lit "js")); Chr newline;
       StarLazy (Cls (fun _ => true)); Lit "```"].

(** An element of the array handed to [JSON.stringify] for the parameters. *)
Record StoredParam : Type := {
  sp_name : string;
  sp_type : string;
  sp_description : string;
  sp_optional : bool
}.

Definition params (fn : ParsedFunction) : list StoredParam :=
  map (fun p => {| sp_name := name p; sp_type := type p;
                   sp_description := EmptyString; sp_optional := optional p |})
      (parameters fn).

(** Extract code examples from description. *)
Definition examples (fn : ParsedFunction) : list string :=
  map (fun codeMatch => trim (group 1 codeMatch))
      (execAll codeBlockRegex (description fn)).

(** Clean description: remove code blocks for the main description. *)
Definition cleanDescription (fn : ParsedFunction) : string :=
  trim (removeAll codeBlockPattern (description fn)).

(** A row of [lua_functions], as [src/db/schema.ts] declares the table. *)
Record FunctionRow : Type := {
  lf_id : nat;                             (* INTEGER PRIMARY KEY AUTOINCREMENT *)
  lf_table_id : nat;
  lf_name : string;                        (* UNIQUE(table_id, name) *)
  lf_signature : string;
  lf_description : string;
  lf_return_type : string;
  lf_parameters : string;
  lf_examples : option string;
  lf_notes : string;
  lf_deprecated : nat;                     (* DEFAULT 0 *)
  lf_added_in : option string
}.

(** The table; rows are kept in insertion order, and [lua_functions_seq] is
    the entry of the table in [sqlite_sequence], the largest row id it has
    ever held. *)
Record Store : Type := {
  lua_functions : list FunctionRow;
  lua_functions_seq : nat
}.

(** The largest row id that [lua_functions] holds or has held. *)
Definition top (db : Store) : nat :=
  lua_functions_seq db `max` max_list (lf_id <$> lua_functions db).

(** The key of the uniqueness constraint. *)
Definition key (row : FunctionRow) : nat * string := (lf_table_id row, lf_name row).

Section Stringify.

(** [JSON.stringify], taken as given, at the two types it is used at. *)
Variable stringifyParams : list StoredParam -> string.
Variable stringifyExamples : list string -> string.

(** The values bound by [insertFunction.run] for a merged entry. *)
Definition functionRow (id tableId : nat) (fn : ParsedFunction) : FunctionRow :=
  {| lf_id := id; lf_table_id := tableId; lf_name := functionName fn;
     lf_signature := signature fn;
     lf_description := cleanDescription fn;
     lf_return_type := returnType fn;
     lf_parameters := stringifyParams (params fn);
     lf_examples :=
       match examples fn with
       | [] => None                        (* examples.length > 0 fails *)
       | found => Some (stringifyExamples found)
       end;
     lf_notes := "Source: " +:+ sourceFile fn +:+ ":" +:+ pretty (lineNumber fn);
     lf_deprecated := 0; lf_added_in := None |}.

(** [INSERT OR REPLACE INTO lua_functions (table_id, name, signature,
     description, return_type, parameters, examples, notes)]: the rows with
    the same [(table_id, name)] are deleted first; the new row gets a row
    id larger than any the table has held. *)
Definition insertFunction (tableId : nat) (db : Store) (fn : ParsedFunction) : Store :=
  let id := S (top db) in
  {| lua_functions :=
       filter (fun row => key row <> (tableId, functionName fn)) (lua_functions db)
       ++ [functionRow id tableId fn];
     lua_functions_seq := id |}.

(** The body of the loop over [tableMap] from the merge on, for a table
    whose row has the id [tableId] and whose entries are [functions]: the
    merge loop, then the loop over [mergedFunctions.values()]. *)
Definition storeFunctions (tableId : nat) (db : Store)
    (functions : list ParsedFunction) : Store :=
  foldl (insertFunction tableId) db (mergeFunctions functions).*2.

End Stringify.

(** What of a stored row the claims speak of. *)
Definition stored (row : FunctionRow)
  : string * string * string * string * string * option string :=
  (lf_name row, lf_signature row, lf_description row, lf_return_type row,
   lf_parameters row, lf_examples row).

(** *** Sample documents and a sample store *)

Definition emptyLuaStore : Store := {| lua_functions := []; lua_functions_seq := 0 |}.

(** Stand-ins for [JSON.stringify] on the sample values: the names of the
    parameters, and the examples, joined. *)
Definition sampleStringifyParams (l : list StoredParam) : string :=
  join "," (sp_name <$> l).

Definition sampleStringifyExamples (l : list string) : string := join "|" l.

(** What a run over [allFunctions] leaves in an empty store for the table
    [t], whose row has the id 1; and the same for the entries of one file. *)
Definition sampleRows (allFunctions : list ParsedFunction)
  : list (string * string * string * string * string * option string) :=
  map stored
    (lua_functions
       (storeFunctions sampleStringifyParams sampleStringifyExamples 1 emptyLuaStore
          (default [] (mapGet (groupByTable allFunctions) "t")))).

Definition sampleRun (content : string)
  : list (string * string * string * string * string * option string) :=
  sampleRows (parseMarkdownFile content "t.md").

(** [t.f] with one parameter and with three, then [t.g], then [t.f] again
    with one parameter. *)
Definition repeatedDoc : string :=
"#### `Void` t.f(`Int` a)
#### `Bool` t.f(`Int` a, `Int` b, [`Int` c])
#### `Void` t.g()
#### `Void` t.f(`Int` x)
".

(** Three consecutive signatures of [t.f], with five parameters, with one
    and with three. *)
Definition tripleDoc : string :=
"#### `Json` t.f(`Int` a, `Int` b, `Int` c, `Int` d, `Int` e)
#### `Void` t.f(`Int` a)
#### `Bool` t.f(`Int` a, `Int` b, [`Int` c])
".

(** Two consecutive signatures of [t.f]; the description of the first holds
    a fenced code block, and that of the second begins with one. *)
Definition fencedDoc : string :=
"#### `Void` t.f(`Int` a)

One argument.

```lua
t.f(1)
```

#### `Bool` t.f(`Int` a, `Int` b, [`Int` c])

```
t.f(1, 2)
```
Three arguments.
".

(** A signature whose description is a fenced code block and nothing
    else, followed by an overload with a description. *)
Definition bareFirstDoc : string :=
"#### `Void` t.f(`Int` a)
```js
t.f(1)
```
#### `Bool` t.f(`Int` a, `Int` b, [`Int` c])
Three arguments.
".

End ExtractLuaDocsStore.

Module ExtractOpenStarboundShapes.
Import JS ExtractOpenStarbound.

(** The key [addField] computes for a field. *)
Definition keyOf (field : ExtractedField) : string :=
  fieldKey (fieldName field) (type field).

(** The invariant of [fields] and [seen]: the fields have distinct keys,
    and all of them are in [seen]. *)
Definition distinctKeys (st : extraction) : Prop :=
  NoDup (keyOf <$> st.1) /\ forall field, field ∈ st.1 -> keyOf field ∈ st.2.

(** A field made by [mkField] for the file: it names the file and a line
    of it. *)
Definition locatedIn (content fileName : string) (field : ExtractedField) : Prop :=
  sourceFile field = fileName /\
  1 <= lineNumber field <= length (splitLines content).

(** The files of a run that have an entry in the lookup table. *)
Definition mappedFiles (table : list (string * AssetMapping))
    (dbFiles : list DatabaseFileInfo) : list DatabaseFileInfo :=
  filter (fun dbFile => is_Some (mapGet table (fileName dbFile))) dbFiles.

(** Two candidates for one field of the sample source, with different
    types. *)
Definition candidateString : ExtractedField :=
  {| fieldName := "foo"; type := "String"; defaultValue := None; optional := false;
     sourceFile := "StarTechDatabase.cpp"; lineNumber := 1;
     context := EmptyString |}.

Definition candidateJson : ExtractedField :=
  {| fieldName := "foo"; type := "Json"; defaultValue := None; optional := true;
     sourceFile := "StarTechDatabase.cpp"; lineNumber := 2;
     context := EmptyString |}.

(** The second field of the sample source. *)
Definition sampleSpeed : ExtractedField :=
  {| fieldName := "speed"; type := "Float"; defaultValue := Some "1.0f";
     optional := true; sourceFile := "StarTechDatabase.cpp"; lineNumber := 3;
     context := "if (config.contains(" +:+ dq "foo" +:+ ")) {} | "
                +:+ "auto y = config.getFloat(" +:+ dq "speed" +:+ ", 1.0f);" |}.

(** A source that reads one field through the untyped getter only. *)
Definition genericGetSource : string :=
  "auto v = config.get(" +:+ dq "speed" +:+ ", 5);".

End ExtractOpenStarboundShapes.

(** * Theorems *)

(** ** The sanitizer *)

Module SanitizerFacts.
Import Sanitizer.

Lemma skipLineComment_suffix text : skipLineComment text `suffix_of` text.
Proof.
  induction text as [|c tl IH]; simpl; [done|].
  destruct (Ascii.eqb c newline); [done|]. by apply suffix_cons_r.
Qed.

Lemma skipBlockComment_suffix text : skipBlockComment text `suffix_of` text.
Proof.
  induction text as [|c tl IH]; simpl; [done|].
  destruct tl as [|d tl']; [done|].
  destruct (Ascii.eqb c star && Ascii.eqb d slash); [done|].
  by apply suffix_cons_r.
Qed.

(** An iteration consumes a non-empty prefix of the unread text and appends
    to [result] a subsequence of what it consumed. *)
Lemma step_spec s s' :
  step s = Some s' ->
  exists consumed emitted,
    rest s = consumed ++ rest s' /\ consumed <> [] /\
    result s' = result s ++ emitted /\ emitted `sublist_of` consumed.
Proof.
  unfold step. destruct s as [r b sc t]; simpl.
  destruct t as [|c tl]; [done|].
  destruct b.
  - destruct (Ascii.eqb c backslash), tl as [|d tl'];
      intros [= <-]; simpl.
    + exists [c], [c]. done.
    + exists [c; d], [c; d]. done.
    + exists [c], [c]. done.
    + exists [c], [c]. done.
  - destruct (isQuote c).
    { intros [= <-]; simpl. exists [c], [c]. done. }
    destruct (Ascii.eqb c slash) eqn:Hc, tl as [|d tl'].
    + intros [= <-]; simpl. exists [c], [c]. done.
    + apply Ascii.eqb_eq in Hc as ->.
      destruct (Ascii.eqb d slash) eqn:Hd.
      * apply Ascii.eqb_eq in Hd as ->. intros [= <-]; simpl.
        destruct (skipLineComment_suffix tl') as [k Hk].
        exists (slash :: slash :: k), []. rewrite app_nil_r.
        split_and!; [by rewrite Hk at 1|done|done|apply sublist_nil_l].
      * destruct (Ascii.eqb d star) eqn:Hs; intros [= <-]; simpl.
        -- destruct (skipBlockComment_suffix tl') as [k Hk].
           exists (slash :: d :: k ++ take 2 (skipBlockComment tl')), [].
           rewrite app_nil_r.
           split_and!; [|done|done|apply sublist_nil_l].
           simpl. rewrite <-app_assoc, take_drop. by rewrite <-Hk.
        -- exists [slash], [slash]. done.
    + intros [= <-]; simpl. exists [c], [c]. done.
    + intros [= <-]; simpl. exists [c], [c]. done.
Qed.

Lemma step_shorter s s' :
  step s = Some s' -> length (rest s') < length (rest s).
Proof.
  intros (consumed & emitted & -> & Hne & _)%step_spec.
  rewrite length_app. destruct consumed; [done|simpl; lia].
Qed.

Lemma step_None s : step s = None <-> rest s = [].
Proof.
  unfold step. destruct (rest s) as [|c tl]; [done|].
  split; [|done].
  repeat (case_match; try done).
Qed.

Lemma step_frame r s : step (frame r s) = frame r <$> step s.
Proof.
  unfold step, frame. destruct s as [r0 b sc t]; simpl.
  destruct t as [|c tl]; [done|].
  repeat (case_match; simpl; try done); by rewrite ?app_assoc.
Qed.

Lemma loop_frame n r s : loop n (frame r s) = frame r (loop n s).
Proof.
  revert s. induction n as [|n IH]; intros s; simpl; [done|].
  rewrite step_frame. destruct (step s); simpl; [apply IH|done].
Qed.

(** More fuel than the length of the unread text changes nothing. *)
Lemma loop_fuel n m s :
  length (rest s) <= n -> length (rest s) <= m -> loop n s = loop m s.
Proof.
  revert m s. induction n as [|n IH]; intros m s Hn Hm.
  - assert (rest s = []) as Hnil by (destruct (rest s); [done|simpl in *; lia]).
    apply step_None in Hnil. destruct m; simpl; [done|by rewrite Hnil].
  - destruct m as [|m].
    + assert (rest s = []) as Hnil by (destruct (rest s); [done|simpl in *; lia]).
      apply step_None in Hnil. simpl. by rewrite Hnil.
    + simpl. destruct (step s) as [s'|] eqn:Hs; [|done].
      apply step_shorter in Hs. apply IH; lia.
Qed.

Lemma loop_add n m s : loop (n + m) s = loop m (loop n s).
Proof.
  revert s. induction n as [|n IH]; intros s; simpl; [done|].
  destruct (step s) as [s'|] eqn:Hs; [apply IH|].
  destruct m; simpl; [done|by rewrite Hs].
Qed.

Lemma loop_rest_length n s : length (rest (loop n s)) <= length (rest s).
Proof.
  revert s. induction n as [|n IH]; intros s; simpl; [done|].
  destruct (step s) as [s'|] eqn:Hs; [|done].
  apply step_shorter in Hs. specialize (IH s'). lia.
Qed.

Lemma stripChars_strip text : stripChars text = strip false None text.
Proof. done. Qed.

Lemma loop_strip n s :
  length (rest s) <= n ->
  result (loop n s) = result s ++ strip (inString s) (stringChar s) (rest s).
Proof.
  intros Hn. unfold strip.
  rewrite (loop_fuel n (length (rest s))) by done.
  set (s0 := {| result := []; inString := inString s;
                stringChar := stringChar s; rest := rest s |}).
  assert (s = frame (result s) s0) as ->.
  { destruct s; unfold frame; simpl. by rewrite app_nil_r. }
  rewrite loop_frame. simpl. by rewrite app_nil_r.
Qed.

Lemma strip_nil b sc : strip b sc [] = [].
Proof. done. Qed.

Lemma strip_step b sc text s' :
  step {| result := []; inString := b; stringChar := sc; rest := text |} = Some s' ->
  strip b sc text = result s' ++ strip (inString s') (stringChar s') (rest s').
Proof.
  intros Hs. unfold strip at 1.
  destruct text as [|c tl]; [done|].
  simpl length. cbn [loop]. rewrite Hs.
  apply loop_strip. apply step_shorter in Hs. simpl in Hs. lia.
Qed.

End SanitizerFacts.

Module SanitizerClaims.
Import Sanitizer SanitizerFacts.

Lemma string_length_list (s : string) :
  String.length s = length (list_ascii_of_string s).
Proof. induction s as [|c s IH]; simpl; [done|by rewrite IH]. Qed.

Lemma strip_sublist n : forall b sc text,
  length text <= n -> strip b sc text `sublist_of` text.
Proof.
  induction n as [|n IH]; intros b sc text Hn.
  - destruct text; [done|simpl in Hn; lia].
  - destruct (step {| result := []; inString := b; stringChar := sc; rest := text |})
      as [s'|] eqn:Hs.
    + rewrite (strip_step _ _ _ _ Hs).
      pose proof (step_shorter _ _ Hs) as Hlt.
      apply step_spec in Hs as (consumed & emitted & Hrest & _ & Hres & Hsub).
      simpl in *. subst text. rewrite Hres.
      apply sublist_app; [done|]. apply IH. lia.
    + apply step_None in Hs. simpl in Hs. by subst text.
Qed.

(** C10.  For every input string the output of [stripJsonComments] is a
    subsequence of the input: characters are only deleted, never inserted,
    duplicated or reordered; so the output is never longer than the input. *)
Theorem stripJsonComments_subsequence (text : string) :
  list_ascii_of_string (stripJsonComments text)
    `sublist_of` list_ascii_of_string text /\
  String.length (stripJsonComments text) <= String.length text.
Proof.
  assert (list_ascii_of_string (stripJsonComments text)
            `sublist_of` list_ascii_of_string text) as Hsub.
  { unfold stripJsonComments.
    rewrite list_ascii_of_string_of_list_ascii, stripChars_strip.
    by apply (strip_sublist (length (list_ascii_of_string text))). }
  split; [done|].
  rewrite !string_length_list. by apply sublist_length.
Qed.

(** Outside a string the value of [stringChar] is never read before it is
    overwritten. *)
Lemma strip_outside_stringChar n : forall sc sc' text,
  length text <= n -> strip false sc text = strip false sc' text.
Proof.
  induction n as [|n IH]; intros sc sc' text Hn.
  - destruct text; [done|simpl in Hn; lia].
  - destruct text as [|c tl]; [done|]. simpl in Hn.
    destruct (step {| result := []; inString := false; stringChar := sc;
                      rest := c :: tl |}) as [s1|] eqn:H1;
      [|by apply step_None in H1].
    destruct (step {| result := []; inString := false; stringChar := sc';
                      rest := c :: tl |}) as [s2|] eqn:H2;
      [|by apply step_None in H2].
    rewrite (strip_step _ _ _ _ H1), (strip_step _ _ _ _ H2).
    pose proof (step_shorter _ _ H1) as Hlt. simpl in Hlt.
    unfold step in H1, H2. cbn [rest inString stringChar result] in H1, H2.
    destruct (isQuote c).
    { injection H1 as <-. injection H2 as <-. done. }
    destruct (Ascii.eqb c slash), tl as [|d tl'];
      [| destruct (Ascii.eqb d slash); [|destruct (Ascii.eqb d star)] | |];
      injection H1 as <-; injection H2 as <-;
      cbn [rest inString stringChar result] in *;
      (erewrite IH; [reflexivity|lia]).
Qed.

Lemma isQuote_not_backslash q : isQuote q = true -> Ascii.eqb q backslash = false.
Proof.
  unfold isQuote. intros [->%Ascii.eqb_eq| ->%Ascii.eqb_eq]%orb_true_iff; done.
Qed.

(** Inside a string literal everything up to and including the closing
    quote is copied. *)
Lemma strip_string_body n : forall q body post,
  length body <= n -> Ascii.eqb q backslash = false ->
  isStringBody q body = true ->
  strip true (Some q) (body ++ q :: post) = body ++ q :: strip false (Some q) post.
Proof.
  induction n as [|n IH]; intros q body post Hn Hq Hbody.
  - destruct body; [|simpl in Hn; lia]. simpl.
    erewrite strip_step; [|unfold step; simpl; rewrite Hq; reflexivity].
    simpl. by rewrite Ascii.eqb_refl.
  - destruct body as [|c tl].
    { simpl. erewrite strip_step; [|unfold step; simpl; rewrite Hq; reflexivity].
      simpl. by rewrite Ascii.eqb_refl. }
    simpl in Hbody, Hn. destruct (Ascii.eqb c backslash) eqn:Hc.
    + destruct tl as [|d tl']; [done|]. simpl in Hn.
      erewrite strip_step; [|unfold step; simpl; rewrite Hc; reflexivity].
      simpl. do 2 f_equal. apply IH; [lia|done|done].
    + destruct (Ascii.eqb c q) eqn:Hcq; [done|].
      erewrite strip_step.
      2:{ unfold step; simpl; rewrite Hc.
          instantiate (1 := {| result := [c]; inString := true;
                               stringChar := Some q; rest := tl ++ q :: post |}).
          rewrite Hcq. by destruct tl. }
      simpl. f_equal. apply IH; [lia|done|done].
Qed.

(** C3.  String literals pass through the sanitizer byte for byte.  Whenever
    the loop stands outside a string at an opening quote [q], and [body] is
    the contents of that literal (with its backslash escapes, so an escaped
    [q] does not close it), whatever [body] contains -- comment openers
    included -- is copied unchanged, the closing quote ends the literal, and
    sanitizing goes on behind it.  The literal of the spec's example is
    returned unchanged. *)
Theorem string_literals_untouched :
  (forall (text : list ascii) (n : nat) (q : ascii) (body post : list ascii),
     inString (loop n (init text)) = false ->
     rest (loop n (init text)) = q :: body ++ q :: post ->
     isQuote q = true ->
     isStringBody q body = true ->
     stripChars text
       = result (loop n (init text)) ++ q :: body ++ q :: stripChars post) /\
  stripJsonComments ("{" +:+ dq "a" +:+ ":" +:+ dq "http://x" +:+ "}")
    = "{" +:+ dq "a" +:+ ":" +:+ dq "http://x" +:+ "}".
Proof.
  split; [|by vm_compute].
  intros text n q body post Hin Hrest Hq Hbody.
  set (st := loop n (init text)) in *.
  unfold stripChars at 1.
  rewrite (loop_fuel _ (n + length text)) by (simpl; lia).
  rewrite loop_add. fold st.
  rewrite loop_strip.
  2:{ pose proof (loop_rest_length n (init text)) as Hle. by simpl in Hle. }
  f_equal. rewrite Hin, Hrest.
  erewrite strip_step; [|unfold step; simpl; rewrite Hq; reflexivity].
  simpl. f_equal.
  rewrite (strip_string_body (length body)); [|done|by apply isQuote_not_backslash|done].
  do 2 f_equal. rewrite stripChars_strip.
  by apply (strip_outside_stringChar (length post)).
Qed.

Lemma string_literals_untouched_witness :
  let text := list_ascii_of_string ("[1, " +:+ dq ("a//b\" +:+ String dquote "c") +:+ ", 2] // c") in
  stripChars text
    = result (loop 4 (init text))
        ++ dquote :: list_ascii_of_string ("a//b\" +:+ String dquote "c")
        ++ dquote :: stripChars (list_ascii_of_string ", 2] // c").
Proof.
  apply (proj1 string_literals_untouched
           (list_ascii_of_string ("[1, " +:+ dq ("a//b\" +:+ String dquote "c") +:+ ", 2] // c"))
           4 dquote (list_ascii_of_string ("a//b\" +:+ String dquote "c"))
           (list_ascii_of_string ", 2] // c"));
    reflexivity.
Defined.

(** Without a comment opener outside of strings every character is copied. *)
Lemma strip_no_comment n : forall text,
  length text <= n ->
  (forall sc, commentOutsideString None text = false -> strip false sc text = text) /\
  (forall q, commentOutsideString (Some q) text = false ->
             strip true (Some q) text = text).
Proof.
  induction n as [|n IH]; intros text Hn.
  { destruct text; [done|simpl in Hn; lia]. }
  destruct text as [|c tl]; [done|]. simpl in Hn.
  assert (length tl <= n) as Htl by lia.
  destruct (IH tl Htl) as [IHout IHin].
  split.
  - intros sc Hno. simpl in Hno.
    destruct (isQuote c) eqn:Hq.
    { erewrite strip_step; [|unfold step; simpl; rewrite Hq; reflexivity].
      simpl. f_equal. by apply IHin. }
    destruct tl as [|d tl'].
    { erewrite strip_step.
      2:{ unfold step; simpl; rewrite Hq.
          instantiate (1 := {| result := [c]; inString := false;
                               stringChar := sc; rest := [] |}).
          by destruct (Ascii.eqb c slash). }
      done. }
    destruct (Ascii.eqb c slash) eqn:Hc; cbn [andb] in Hno.
    + destruct (Ascii.eqb d slash) eqn:Hd; [done|].
      destruct (Ascii.eqb d star) eqn:Hs; [done|]. cbn [orb] in Hno.
      erewrite strip_step;
        [|unfold step; simpl; rewrite Hq, Hc, Hd, Hs; reflexivity].
      simpl. f_equal. by apply IHout.
    + erewrite strip_step; [|unfold step; simpl; rewrite Hq, Hc; reflexivity].
      simpl. f_equal. by apply IHout.
  - intros q Hno. simpl in Hno.
    destruct (Ascii.eqb c backslash) eqn:Hc.
    + destruct tl as [|d tl'].
      { erewrite strip_step; [|unfold step; simpl; rewrite Hc; reflexivity]. done. }
      erewrite strip_step; [|unfold step; simpl; rewrite Hc; reflexivity].
      simpl. do 2 f_equal.
      simpl in Htl. destruct (IH tl') as [_ IH']; [lia|]. by apply IH'.
    + erewrite strip_step.
      2:{ unfold step; simpl; rewrite Hc.
          instantiate (1 := {| result := [c]; inString := negb (Ascii.eqb c q);
                               stringChar := Some q; rest := tl |}).
          by destruct tl. }
      simpl. f_equal.
      destruct (Ascii.eqb c q); simpl; [by apply IHout|by apply IHin].
Qed.

(** C8.  A text with no comment opener ([//] or [/*]) outside of string
    literals is returned unchanged. *)
Theorem stripJsonComments_identity (text : string) :
  hasCommentOutsideString text = false -> stripJsonComments text = text.
Proof.
  unfold hasCommentOutsideString, stripJsonComments. intros Hno.
  rewrite stripChars_strip.
  destruct (strip_no_comment _ (list_ascii_of_string text) (Nat.le_refl _))
    as [Hout _].
  rewrite Hout by done.
  apply string_of_list_ascii_of_string.
Qed.

Lemma stripJsonComments_identity_witness :
  stripJsonComments ("{" +:+ dq "url" +:+ ": " +:+ dq "a/*b*/" +:+ ", 'k': 1 / 2}")
    = "{" +:+ dq "url" +:+ ": " +:+ dq "a/*b*/" +:+ ", 'k': 1 / 2}".
Proof.
  apply (stripJsonComments_identity
           ("{" +:+ dq "url" +:+ ": " +:+ dq "a/*b*/" +:+ ", 'k': 1 / 2}")).
  reflexivity.
Defined.

End SanitizerClaims.

(** ** Recipes, rarity tiers and research trees *)

Module ExtractFuClaims.
Import JS ExtractFu Samples.

(** A loop that only pushes to an array. *)
Lemma foldl_push {A B} (f : list A -> B -> list A) (g : B -> list A) :
  (forall acc x, f acc x = acc ++ g x) ->
  forall l acc, foldl f acc l = acc ++ (l ≫= g).
Proof.
  intros Hf l. induction l as [|x l IH]; intros acc; simpl.
  - by rewrite app_nil_r.
  - by rewrite IH, Hf, <-app_assoc.
Qed.

(** A loop whose body is itself a loop over a list computed from the item. *)
Lemma foldl_bind {A B C} (f : A -> C -> A) (h : A -> B -> A) (g : B -> list C) :
  (forall acc x, h acc x = foldl f acc (g x)) ->
  forall l acc, foldl h acc l = foldl f acc (l ≫= g).
Proof.
  intros Hh l. induction l as [|x l IH]; intros acc; simpl; [done|].
  by rewrite foldl_app, IH, Hh.
Qed.

(** *** Recipes *)

Section Recipes.
Variable readJsonFile : string -> json.

Local Abbreviation extractRecipes := (extractRecipes readJsonFile).

Local Abbreviation pushRecipe := (pushRecipe readJsonFile).

Lemma foldl_pushRecipe_thrown recipeFiles : foldl pushRecipe None recipeFiles = None.
Proof. induction recipeFiles as [|file l IH]; simpl; done. Qed.

(** The records pushed before a file are kept in front of those pushed
    from it on. *)
Lemma foldl_pushRecipe recipeFiles : forall recipes,
  foldl pushRecipe (Some recipes) recipeFiles
    = (recipes ++.) <$> foldl pushRecipe (Some []) recipeFiles.
Proof.
  induction recipeFiles as [|file l IH]; intros recipes; simpl.
  - by rewrite app_nil_r.
  - destruct (parseRecipe (readJsonFile file)) as [|recipe|].
    + apply IH.
    + rewrite IH, (IH [recipe]).
      destruct (foldl pushRecipe (Some []) l); simpl; [|done].
      by rewrite <-app_assoc.
    + by rewrite foldl_pushRecipe_thrown.
Qed.

Lemma extractRecipes_app l1 l2 :
  extractRecipes (l1 ++ l2)
    = r1 ← extractRecipes l1; r2 ← extractRecipes l2; Some (r1 ++ r2).
Proof.
  unfold ExtractFu.extractRecipes. rewrite foldl_app.
  destruct (foldl pushRecipe (Some []) l1) as [r1|]; simpl.
  - rewrite foldl_pushRecipe. by destruct (foldl pushRecipe (Some []) l2).
  - apply foldl_pushRecipe_thrown.
Qed.

Lemma parseRecipe_lacking data :
  lacksOutputItem data || lacksInput data = true -> parseRecipe data = Skipped.
Proof.
  unfold lacksOutputItem, lacksInput, parseRecipe.
  destruct (truthyValue data); simpl; [|done].
  destruct (truthyProp (getProp data "output")); simpl; [|done].
  destruct (truthyProp (getProp data "input")); simpl.
  - rewrite orb_false_r. by intros ->.
  - done.
Qed.

(** X30.  A recipe file whose parsed data lacks a usable output item, or
    has no input at all (the property is absent, null or otherwise falsy),
    yields no record, and the run with it is the run without it: the files
    before and after it contribute what they contribute without it. *)
Theorem lacking_recipe_file_is_skipped (before after : list string) (file : string) :
  lacksOutputItem (readJsonFile file) || lacksInput (readJsonFile file) = true ->
  extractRecipes [file] = Some [] /\
  extractRecipes (before ++ file :: after) = extractRecipes (before ++ after) /\
  forall r1 r2,
    extractRecipes before = Some r1 -> extractRecipes after = Some r2 ->
    extractRecipes (before ++ file :: after) = Some (r1 ++ r2).
Proof.
  intros Hlack%parseRecipe_lacking.
  assert (extractRecipes [file] = Some []) as Hone.
  { unfold ExtractFu.extractRecipes. simpl. by rewrite Hlack. }
  assert (extractRecipes (before ++ file :: after) = extractRecipes (before ++ after))
    as Hsame.
  { change (file :: after) with ([file] ++ after).
    rewrite !extractRecipes_app, Hone. simpl.
    destruct (extractRecipes before); simpl; [|done].
    by destruct (extractRecipes after). }
  split_and!; [done|done|].
  intros r1 r2 H1 H2. by rewrite Hsame, extractRecipes_app, H1, H2.
Qed.

End Recipes.

Lemma lacking_recipe_file_is_skipped_witness :
  extractRecipes sampleRecipeFiles ["b.recipe"] = Some [] /\
  extractRecipes sampleRecipeFiles (["a.recipe"] ++ "b.recipe" :: ["c.recipe"])
    = extractRecipes sampleRecipeFiles (["a.recipe"] ++ ["c.recipe"]).
Proof.
  destruct (lacking_recipe_file_is_skipped sampleRecipeFiles
              ["a.recipe"] ["c.recipe"] "b.recipe") as (H1 & H2 & _).
  - reflexivity.
  - exact (conj H1 H2).
Defined.

(** C7.  The file [e.recipe] holds a usable output item and the number 5 as
    its [input]: its parsed data lacks an input list.  The guards, which
    only test that [data.input] is truthy, let it pass; mapping over the
    input throws; the file is not skipped, and the complete file after it,
    which alone yields a record, is never processed: the run ends with the
    exception, whereas a file whose input is absent is skipped and leaves
    the run going. *)
Theorem non_list_input_aborts_the_run :
  sampleRecipeFiles "e.recipe"
    = JObj [ ("input", JNum 5); ("output", JObj [("item", JStr "bar")]) ] /\
  lacksOutputItem (sampleRecipeFiles "e.recipe") = false /\
  hasInputList (sampleRecipeFiles "e.recipe") = false /\
  parseRecipe (sampleRecipeFiles "e.recipe") = Thrown /\
  (exists recipe, extractRecipes sampleRecipeFiles ["a.recipe"] = Some [recipe]) /\
  extractRecipes sampleRecipeFiles ["e.recipe"; "a.recipe"] = None /\
  parseRecipe (JObj [ ("output", JObj [("item", JStr "bar")]) ]) = Skipped /\
  extractRecipes sampleRecipeFiles ["b.recipe"; "a.recipe"]
    = extractRecipes sampleRecipeFiles ["a.recipe"].
Proof. split_and!; [done|done|done|done|by eexists|done|done|done]. Qed.

Example extractRecipes_sample :
  extractRecipes sampleRecipeFiles ["a.recipe"; "b.recipe"; "d.recipe"; "c.recipe"]
  = Some
    [ {| outputItem := JStr "a.recipe"; outputCount := JNum 1;
         station := JStr "furnace";
         inputs := [(Some (JStr "ore"), JNum 3); (Some (JStr "coal"), JNum 1)];
         groups := JArr [JStr "furnace"; JStr "all"]; duration := JNum 0.5 |};
      {| outputItem := JStr "c.recipe"; outputCount := JNum 1;
         station := JStr "furnace";
         inputs := [(Some (JStr "ore"), JNum 3); (Some (JStr "coal"), JNum 1)];
         groups := JArr [JStr "furnace"; JStr "all"]; duration := JNum 0.5 |} ].
Proof. reflexivity. Qed.

(** *** Rarity tiers *)

(** C5.  The tier table maps [common] to 0.9 and [rarest] to 0.05, and is
    strictly decreasing along common, uncommon, rare, rarest. *)
Theorem rarity_chances_decrease :
  chance "common" = 0.9%Q /\ chance "rarest" = 0.05%Q /\
  (chance "uncommon" < chance "common")%Q /\
  (chance "rare" < chance "uncommon")%Q /\
  (chance "rarest" < chance "rare")%Q.
Proof. repeat split. Qed.

(** *** Research trees *)

Section ResearchTrees.
Variable readJsonFile : string -> option ConfigData.

Local Abbreviation parseNodes := (parseNodes readJsonFile).
Local Abbreviation buildChildToParent := (buildChildToParent readJsonFile).
Local Abbreviation extractResearchTrees := (extractResearchTrees readJsonFile).
Local Abbreviation fileNodes := (fileNodes readJsonFile).
Local Abbreviation fileEdges := (fileEdges readJsonFile).
Local Abbreviation fileTrees := (fileTrees readJsonFile).
Local Abbreviation listsChild := (listsChild readJsonFile).
Local Abbreviation declaresNode := (declaresNode readJsonFile).

(** The first pass pushes, file by file, the nodes of [fileNodes]. *)
Lemma parseNodes_bind configFiles : parseNodes configFiles = configFiles ≫= fileNodes.
Proof.
  unfold ExtractFu.parseNodes. rewrite (foldl_push _ fileNodes); [done|].
  intros acc file. unfold pushFile, ExtractFu.fileNodes, ExtractFu.fileTrees,
    ExtractFu.fileStrings.
  destruct (readJsonFile file) as [data|]; simpl; [|by rewrite app_nil_r].
  destruct (researchTree data) as [trees|]; simpl; [|by rewrite app_nil_r].
  apply foldl_push. intros acc' [treeId treeNodes]. simpl.
  apply foldl_push. intros acc'' [nodeId [body|]]; simpl; [done|].
  by rewrite app_nil_r.
Qed.

(** The second pass records, file by file, the pairs of [fileEdges]. *)
Lemma buildChildToParent_edges configFiles :
  buildChildToParent configFiles = foldl addEdge ∅ (configFiles ≫= fileEdges).
Proof.
  unfold ExtractFu.buildChildToParent. apply foldl_bind.
  intros m file. unfold scanFile, ExtractFu.fileEdges, ExtractFu.fileTrees.
  destruct (readJsonFile file) as [data|]; simpl; [|done].
  destruct (researchTree data) as [trees|]; simpl; [|done].
  apply foldl_bind. intros m' [treeId treeNodes]. simpl.
  apply foldl_bind. intros m'' [nodeId [body|]]; simpl; [|done].
  unfold nodeEdges. simpl. by rewrite foldl_fmap.
Qed.

(** What [childToParent] holds for a key after a run of [addEdge]. *)
Lemma foldl_addEdge_lookup edges : forall (m : gmap string (list string)) k,
  default [] (foldl addEdge m edges !! k)
    = default [] (m !! k) ++ (filter (fun e => e.1 = k) edges).*2.
Proof.
  induction edges as [|[c p] edges IH]; intros m k; simpl.
  - by rewrite app_nil_r.
  - rewrite IH. unfold addEdge. simpl.
    rewrite filter_cons. simpl. destruct (decide (c = k)) as [->|Hne].
    + rewrite lookup_insert_eq. simpl. by rewrite <-app_assoc.
    + by rewrite lookup_insert_ne.
Qed.

Lemma childToParent_elem configFiles k p :
  p ∈ default [] (buildChildToParent configFiles !! k)
  <-> (k, p) ∈ configFiles ≫= fileEdges.
Proof.
  rewrite buildChildToParent_edges, foldl_addEdge_lookup, lookup_empty. simpl.
  rewrite list_elem_of_fmap. split.
  - intros ([c p'] & -> & [Hk Hin]%list_elem_of_filter). simpl in *. by subst c.
  - intros Hin. exists (k, p). split; [done|]. by apply list_elem_of_filter.
Qed.

Lemma fileTrees_elem file t nodes :
  (t, nodes) ∈ fileTrees file
  <-> exists data trees, readJsonFile file = Some data /\
        researchTree data = Some trees /\ (t, nodes) ∈ trees.
Proof.
  unfold ExtractFu.fileTrees.
  destruct (readJsonFile file) as [data|]; simpl;
    [destruct (researchTree data) as [trees|] eqn:Htrees; simpl|];
    rewrite ?elem_of_nil.
  - split; [by exists data, trees|]. intros (? & ? & [= <-] & Ht & ?).
    rewrite Htrees in Ht. by injection Ht as <-.
  - split; [done|]. intros (? & ? & [= <-] & Ht & ?). by rewrite Htrees in Ht.
  - split; [done|]. by intros (? & ? & ? & ?).
Qed.

(** The recorded pairs are exactly the authored child listings, inverted. *)
Lemma edges_listsChild configFiles k p :
  (k, p) ∈ configFiles ≫= fileEdges
  <-> exists t a b, listsChild configFiles t a b /\ k = fullId t b /\ p = fullId t a.
Proof.
  rewrite list_elem_of_bind. split.
  - intros (file & Hedge & Hfile). unfold ExtractFu.fileEdges in Hedge.
    apply list_elem_of_bind in Hedge as ([t nodes] & Hedge & Htree). simpl in Hedge.
    apply list_elem_of_bind in Hedge as ([a body] & Hedge & Hnode).
    unfold nodeEdges in Hedge. simpl in Hedge.
    destruct body as [body|]; [|by apply elem_of_nil in Hedge].
    apply list_elem_of_fmap in Hedge as (b & [= -> ->] & Hb).
    apply fileTrees_elem in Htree as (data & trees & Hread & Htrees & Htree).
    exists t, a, b. split; [|done].
    destruct (children body) as [cs|] eqn:Hcs; [|by apply elem_of_nil in Hb].
    by exists file, data, trees, nodes, body, cs.
  - intros (t & a & b & (file & data & trees & nodes & body & cs & Hfile & Hread
                          & Htrees & Htree & Hnode & Hcs & Hb) & -> & ->).
    exists file. split; [|done]. unfold ExtractFu.fileEdges.
    apply list_elem_of_bind. exists (t, nodes). split.
    + simpl. apply list_elem_of_bind. exists (a, Some body). split; [|done].
      unfold nodeEdges. simpl. rewrite Hcs. simpl.
      apply list_elem_of_fmap. by exists b.
    + apply fileTrees_elem. by exists data, trees.
Qed.

Lemma extractResearchTrees_elem configFiles node :
  node ∈ extractResearchTrees configFiles
  <-> exists node0, node0 ∈ parseNodes configFiles /\
        node = setPrerequisites node0
                 (default [] (buildChildToParent configFiles !! nodeId node0)).
Proof.
  unfold ExtractFu.extractResearchTrees. rewrite list_elem_of_fmap.
  split; intros (node0 & H1 & H2); by exists node0.
Qed.

Lemma parseNodes_no_prerequisites configFiles node :
  node ∈ parseNodes configFiles -> prerequisites node = [].
Proof.
  rewrite parseNodes_bind. intros (file & Hnode & _)%list_elem_of_bind.
  unfold ExtractFu.fileNodes in Hnode.
  apply list_elem_of_bind in Hnode as ([t nodes] & Hnode & _). simpl in Hnode.
  apply list_elem_of_bind in Hnode as ([a [body|]] & Hnode & _);
    simpl in Hnode; [|by apply elem_of_nil in Hnode].
  by apply list_elem_of_singleton in Hnode as ->.
Qed.

Lemma parseNodes_declared configFiles t b :
  declaresNode configFiles t b ->
  exists node, node ∈ parseNodes configFiles /\ nodeId node = fullId t b.
Proof.
  intros (file & data & trees & nodes & body & Hfile & Hread & Htrees & Htree & Hnode).
  eexists. split; [|shelve].
  rewrite parseNodes_bind. apply list_elem_of_bind. exists file. split; [|done].
  unfold ExtractFu.fileNodes. apply list_elem_of_bind. exists (t, nodes). split.
  - simpl. apply list_elem_of_bind. exists (b, Some body). split; [|done].
    simpl. apply list_elem_of_singleton. reflexivity.
  - apply fileTrees_elem. by exists data, trees.
  Unshelve. done.
Qed.

End ResearchTrees.

Example extractResearchTrees_sample :
  map (fun node => (tree node, nodeId node, prerequisites node))
      (extractResearchTrees sampleConfigs ["other.config"; "tree.config"])
  = [ ("Tree One", "t1:a", []); ("Tree One", "t1:b", ["t1:a"; "t1:c"]);
      ("Tree One", "t1:c", []) ].
Proof. by vm_compute. Qed.

End ExtractFuClaims.

(** ** Research trees over the parsed values *)

Module ExtractFuTreesClaims.
Import JS ExtractFuMachines ExtractFuTrees ExtractFuTyped.

(** *** Loops that collect or throw *)

Lemma collect_nil {A B} (g : A -> option (list B)) : collect g [] = Some [].
Proof. done. Qed.

Lemma collect_cons {A B} (g : A -> option (list B)) x l :
  collect g (x :: l)
    = match g x, collect g l with
      | Some ys, Some rest => Some (ys ++ rest)
      | _, _ => None
      end.
Proof.
  unfold collect. simpl. destruct (g x) as [ys|]; simpl; [|done].
  by destruct (mapM g l).
Qed.

Lemma collect_None {A B} (g : A -> option (list B)) l :
  collect g l = None <-> exists x, x ∈ l /\ g x = None.
Proof.
  induction l as [|x l IH].
  - split; [done|]. intros (x & Hin & _). by apply elem_of_nil in Hin.
  - rewrite collect_cons. destruct (g x) as [ys|] eqn:Hx.
    + destruct (collect g l) as [rest|] eqn:Hl.
      * split; [done|]. intros (y & [->|Hin]%elem_of_cons & Hy); [congruence|].
        assert (Some rest = None) as Hbad by (apply IH; by exists y). done.
      * split; [|done]. intros _. destruct IH as [IH _].
        destruct (IH eq_refl) as (y & Hin & Hy). exists y. split; [by right|done].
    + split; [|done]. intros _. exists x. split; [by left|done].
Qed.

Lemma collect_elem {A B} (g : A -> option (list B)) l xs y :
  collect g l = Some xs ->
  (y ∈ xs <-> exists x ys, x ∈ l /\ g x = Some ys /\ y ∈ ys).
Proof.
  revert xs. induction l as [|x l IH]; intros xs.
  - intros [= <-]. split; [by intros ?%elem_of_nil|].
    intros (x & ys & Hin & _). by apply elem_of_nil in Hin.
  - rewrite collect_cons. destruct (g x) as [ys|] eqn:Hx; [|done].
    destruct (collect g l) as [rest|]; [|done]. intros [= <-].
    rewrite elem_of_app, (IH rest eq_refl). split.
    + intros [Hy|(x' & ys' & Hin & Hx' & Hy)].
      * exists x, ys. split; [by left|done].
      * exists x', ys'. split; [by right|done].
    + intros (x' & ys' & [->|Hin]%elem_of_cons & Hx' & Hy).
      * left. congruence.
      * right. by exists x', ys'.
Qed.

(** A loop whose body adds to its accumulator what the item contributes,
    one by one with [h], or throws. *)
Lemma foldl_collect {A B C} (f : option A -> B -> option A)
    (g : B -> option (list C)) (h : A -> C -> A) :
  (forall x, f None x = None) ->
  (forall a x, f (Some a) x = foldl h a <$> g x) ->
  forall l a, foldl f (Some a) l = foldl h a <$> collect g l.
Proof.
  intros HNone Hf l. induction l as [|x l IH]; intros a; [done|].
  simpl. rewrite Hf, collect_cons. destruct (g x) as [ys|]; simpl.
  - rewrite IH. destruct (collect g l) as [rest|]; simpl; [|done].
    by rewrite foldl_app.
  - clear -HNone. induction l as [|y l IH]; simpl; [done|]. by rewrite HNone.
Qed.

Lemma foldl_snoc {A} (l : list A) : forall acc,
  foldl (fun acc x => acc ++ [x]) acc l = acc ++ l.
Proof.
  induction l as [|x l IH]; intros acc; simpl; [by rewrite app_nil_r|].
  by rewrite IH, <-app_assoc.
Qed.

Section Trees.
Variable foreign : Type.
Variable inherited : json -> string -> option (value foreign).
Variable foreignProperty : foreign -> string -> option (value foreign).
Variable toString : json -> option string.
Variable readJsonFile : string -> json.

Local Abbreviation node := (ParsedResearchNode foreign).
Local Abbreviation templateString := (templateString toString).
Local Abbreviation nodeFor := (nodeFor foreign inherited foreignProperty).
Local Abbreviation treeNameOf := (treeNameOf foreign inherited).
Local Abbreviation pushNode := (pushNode foreign inherited foreignProperty).
Local Abbreviation pushTree := (pushTree foreign inherited foreignProperty).
Local Abbreviation pushFile := (pushFile foreign inherited foreignProperty readJsonFile).
Local Abbreviation parseNodes :=
  (parseNodes foreign inherited foreignProperty readJsonFile).
Local Abbreviation addParent := (addParent toString).
Local Abbreviation scanNode := (scanNode toString).
Local Abbreviation scanTree := (scanTree toString).
Local Abbreviation scanFile := (scanFile toString readJsonFile).
Local Abbreviation buildChildToParent := (buildChildToParent toString readJsonFile).
Local Abbreviation extractResearchTrees :=
  (extractResearchTrees foreign inherited foreignProperty toString readJsonFile).
Local Abbreviation nodeOf := (nodeOf foreign inherited foreignProperty).
Local Abbreviation treeNodes := (treeNodes foreign inherited foreignProperty).
Local Abbreviation fileTrees := (fileTrees readJsonFile).
Local Abbreviation fileNodes :=
  (fileNodes foreign inherited foreignProperty readJsonFile).
Local Abbreviation edgeOf := (edgeOf toString).
Local Abbreviation nodeEdges := (nodeEdges toString).
Local Abbreviation treeEdges := (treeEdges toString).
Local Abbreviation fileEdges := (fileEdges toString readJsonFile).
Local Abbreviation declaresNode := (declaresNode readJsonFile).
Local Abbreviation listsChild := (listsChild readJsonFile).
Local Abbreviation meetsChild := (meetsChild toString readJsonFile).
Local Abbreviation throwingBody := (throwingBody toString).
Local Abbreviation throwingTree := (throwingTree toString readJsonFile).

Local Abbreviation push := (fun (acc : list node) n => acc ++ [n]).

(** The first pass pushes, file by file, the nodes of [fileNodes]. *)
Lemma pushNode_nodeOf strs treeId nodes entry :
  pushNode strs treeId (treeNameOf strs treeId) (Some nodes) entry
    = foldl push nodes <$> nodeOf strs treeId entry.
Proof.
  unfold ExtractFuTrees.pushNode, ExtractFuTrees.nodeOf.
  destruct (isObject entry.2); simpl; [|done].
  by destruct (costs (getProp entry.2 "price")).
Qed.

Lemma pushTree_treeNodes strs nodes entry :
  pushTree strs (Some nodes) entry = foldl push nodes <$> treeNodes strs entry.
Proof.
  unfold ExtractFuTrees.pushTree, ExtractFuTrees.treeNodes.
  destruct (entries entry.2) as [treeNodes_|]; [|done].
  apply foldl_collect; [done|]. intros acc x. apply pushNode_nodeOf.
Qed.

Lemma pushFile_fileNodes nodes file :
  pushFile (Some nodes) file = foldl push nodes <$> fileNodes file.
Proof.
  unfold ExtractFuTrees.pushFile, ExtractFuTrees.fileNodes, ExtractFuTrees.fileTrees.
  destruct (skipped (readJsonFile file)); [done|].
  apply foldl_collect; [done|]. intros acc x. apply pushTree_treeNodes.
Qed.

Lemma parseNodes_collect configFiles :
  parseNodes configFiles = collect fileNodes configFiles.
Proof.
  unfold ExtractFuTrees.parseNodes.
  rewrite (foldl_collect pushFile fileNodes push); [|done|apply pushFile_fileNodes].
  destruct (collect fileNodes configFiles) as [nodes|]; simpl; [|done].
  by rewrite foldl_snoc.
Qed.

(** The second pass records, file by file, the pairs of [fileEdges]. *)
Lemma addParent_edgeOf treeId nodeId m childId :
  addParent (treeId +:+ ":" +:+ nodeId) treeId (Some m) childId
    = foldl addEdge m <$> edgeOf treeId nodeId childId.
Proof.
  unfold ExtractFuTrees.addParent, ExtractFuTrees.edgeOf.
  by destruct (templateString childId).
Qed.

Lemma scanNode_nodeEdges treeId m entry :
  scanNode treeId (Some m) entry = foldl addEdge m <$> nodeEdges treeId entry.
Proof.
  unfold ExtractFuTrees.scanNode, ExtractFuTrees.nodeEdges.
  destruct (isObject entry.2); simpl; [|done].
  destruct (childIds entry.2) as [children|]; [|done].
  apply foldl_collect; [done|]. intros acc x. apply addParent_edgeOf.
Qed.

Lemma scanTree_treeEdges m entry :
  scanTree (Some m) entry = foldl addEdge m <$> treeEdges entry.
Proof.
  unfold ExtractFuTrees.scanTree, ExtractFuTrees.treeEdges.
  destruct (entries entry.2) as [treeNodes_|]; [|done].
  apply foldl_collect; [done|]. intros acc x. apply scanNode_nodeEdges.
Qed.

Lemma scanFile_fileEdges m file :
  scanFile (Some m) file = foldl addEdge m <$> fileEdges file.
Proof.
  unfold ExtractFuTrees.scanFile, ExtractFuTrees.fileEdges, ExtractFuTrees.fileTrees.
  destruct (skipped (readJsonFile file)); [done|].
  apply foldl_collect; [done|]. intros acc x. apply scanTree_treeEdges.
Qed.

Lemma buildChildToParent_collect configFiles :
  buildChildToParent configFiles = foldl addEdge ∅ <$> collect fileEdges configFiles.
Proof.
  unfold ExtractFuTrees.buildChildToParent.
  apply foldl_collect; [done|]. intros acc x. apply scanFile_fileEdges.
Qed.

(** What [childToParent] holds for a key after a run of [addEdge]. *)
Lemma foldl_addEdge_key edges : forall (m : gmap string (list string)) k,
  default [] (foldl addEdge m edges !! k)
    = default [] (m !! k) ++ (filter (fun e => e.1 = k) edges).*2.
Proof.
  induction edges as [|[c p] edges IH]; intros m k; simpl.
  - by rewrite app_nil_r.
  - rewrite IH. unfold addEdge. simpl.
    rewrite filter_cons. simpl. destruct (decide (c = k)) as [->|Hne].
    + rewrite lookup_insert_eq. simpl. by rewrite <-app_assoc.
    + by rewrite lookup_insert_ne.
Qed.

Lemma entries_ownEntries v l : entries v = Some l <-> v <> JNull /\ l = ownEntries v.
Proof.
  destruct v; simpl; (split; [by intros [= <-]|]); try (by intros [_ ->]).
  by intros [? _].
Qed.

(** The recorded pairs are exactly the children the second pass meets,
    inverted. *)
Lemma edges_meetsChild configFiles edges k p :
  collect fileEdges configFiles = Some edges ->
  (k, p) ∈ edges
  <-> exists t a b, meetsChild configFiles t a b /\
                    k = t +:+ ":" +:+ b /\ p = t +:+ ":" +:+ a.
Proof.
  intros Hedges. rewrite (collect_elem _ _ _ _ Hedges). split.
  - intros (file & fedges & Hfile & Hfedges & Hin).
    unfold ExtractFuTrees.fileEdges in Hfedges.
    apply (collect_elem _ _ _ (k, p)) in Hfedges.
    apply Hfedges in Hin as ([t nodes] & tedges & Htree & Htedges & Hin).
    unfold ExtractFuTrees.treeEdges in Htedges. simpl in Htedges.
    destruct (entries nodes) as [treeNodes_|] eqn:Hentries; [|done].
    apply entries_ownEntries in Hentries as [_ ->].
    apply (collect_elem _ _ _ (k, p)) in Htedges.
    apply Htedges in Hin as ([a body] & nedges & Hnode & Hnedges & Hin).
    unfold ExtractFuTrees.nodeEdges in Hnedges. simpl in Hnedges.
    destruct (isObject body) eqn:Hobj; simpl in Hnedges;
      [|injection Hnedges as <-; by apply elem_of_nil in Hin].
    destruct (childIds body) as [children|] eqn:Hchildren; [|done].
    apply (collect_elem _ _ _ (k, p)) in Hnedges.
    apply Hnedges in Hin as (childId & cedges & Hchild & Hcedges & Hin).
    unfold ExtractFuTrees.edgeOf in Hcedges.
    destruct (templateString childId) as [b|] eqn:Hb; [|done].
    injection Hcedges as <-. apply list_elem_of_singleton in Hin as [= -> ->].
    exists t, a, b. split; [|done].
    by exists file, nodes, body, children, childId.
  - intros (t & a & b & (file & nodes & body & children & childId & Hfile & Htree
                         & Hnode & Hobj & Hchildren & Hchild & Hb) & -> & ->).
    assert (exists fedges, fileEdges file = Some fedges) as [fedges Hfedges].
    { destruct (fileEdges file) as [fedges|] eqn:Hf; [by eexists|].
      assert (collect fileEdges configFiles = None) as Hbad
        by (apply collect_None; by exists file).
      congruence. }
    exists file, fedges. split_and!; [done..|].
    unfold ExtractFuTrees.fileEdges in Hfedges.
    assert (exists tedges, treeEdges (t, nodes) = Some tedges) as [tedges Htedges].
    { destruct (treeEdges (t, nodes)) as [tedges|] eqn:Ht; [by eexists|].
      assert (collect treeEdges (fileTrees file) = None) as Hbad
        by (apply collect_None; by exists (t, nodes)).
      congruence. }
    apply (collect_elem _ _ _ _ Hfedges). exists (t, nodes), tedges.
    split_and!; [done..|].
    unfold ExtractFuTrees.treeEdges in Htedges. simpl in Htedges.
    destruct (entries nodes) as [treeNodes_|] eqn:Hentries; [|done].
    apply entries_ownEntries in Hentries as [_ ->].
    assert (exists nedges, nodeEdges t (a, body) = Some nedges) as [nedges Hnedges].
    { destruct (nodeEdges t (a, body)) as [nedges|] eqn:Hn; [by eexists|].
      assert (collect (nodeEdges t) (ownEntries nodes) = None) as Hbad
        by (apply collect_None; by exists (a, body)).
      congruence. }
    apply (collect_elem _ _ _ _ Htedges). exists (a, body), nedges.
    split_and!; [done..|].
    unfold ExtractFuTrees.nodeEdges in Hnedges. simpl in Hnedges.
    rewrite Hobj, Hchildren in Hnedges. simpl in Hnedges.
    apply (collect_elem _ _ _ _ Hnedges). eexists childId, _.
    split_and!; [done| |left].
    unfold ExtractFuTrees.edgeOf. by rewrite Hb.
Qed.

(** A node of the first pass comes from a body, has the id the template
    writes for its tree and its key, and has no prerequisites. *)
Lemma nodes_declared configFiles nodes n :
  collect fileNodes configFiles = Some nodes ->
  n ∈ nodes ->
  prerequisites n = [] /\
  exists t b, declaresNode configFiles t b /\ nodeId n = t +:+ ":" +:+ b.
Proof.
  intros Hnodes Hin.
  apply (collect_elem _ _ _ n Hnodes) in Hin as (file & fnodes & Hfile & Hfnodes & Hin).
  unfold ExtractFuTrees.fileNodes in Hfnodes.
  apply (collect_elem _ _ _ n Hfnodes) in Hin
    as ([t tnodes] & tns & Htree & Htns & Hin).
  unfold ExtractFuTrees.treeNodes in Htns. simpl in Htns.
  destruct (entries tnodes) as [treeNodes_|] eqn:Hentries; [|done].
  apply entries_ownEntries in Hentries as [_ ->].
  apply (collect_elem _ _ _ n Htns) in Hin as ([b body] & ns & Hnode & Hns & Hin).
  unfold ExtractFuTrees.nodeOf in Hns. simpl in Hns.
  destruct (isObject body) eqn:Hobj; simpl in Hns;
    [|injection Hns as <-; by apply elem_of_nil in Hin].
  destruct (costs (getProp body "price")) as [cost_|]; [|done].
  injection Hns as <-. apply list_elem_of_singleton in Hin as ->.
  split; [done|]. exists t, b. split; [|done].
  by exists file, tnodes, body.
Qed.

Lemma declared_node configFiles nodes t b :
  collect fileNodes configFiles = Some nodes ->
  declaresNode configFiles t b ->
  exists n, n ∈ nodes /\ nodeId n = t +:+ ":" +:+ b.
Proof.
  intros Hnodes (file & tnodes & body & Hfile & Htree & Hnode & Hobj).
  assert (exists fnodes, fileNodes file = Some fnodes) as [fnodes Hfnodes].
  { destruct (fileNodes file) as [fnodes|] eqn:Hf; [by eexists|].
    assert (collect fileNodes configFiles = None) as Hbad
      by (apply collect_None; by exists file).
    congruence. }
  pose proof Hfnodes as Hfnodes'. unfold ExtractFuTrees.fileNodes in Hfnodes'.
  set (strs := orElse (getProp (readJsonFile file) "strings") (JObj [])) in *.
  assert (exists tns, treeNodes strs (t, tnodes) = Some tns) as [tns Htns].
  { destruct (treeNodes strs (t, tnodes)) as [tns|] eqn:Ht; [by eexists|].
    assert (collect (treeNodes strs) (fileTrees file) = None) as Hbad
      by (apply collect_None; by exists (t, tnodes)).
    congruence. }
  pose proof Htns as Htns'. unfold ExtractFuTrees.treeNodes in Htns'. simpl in Htns'.
  destruct (entries tnodes) as [treeNodes_|] eqn:Hentries; [|done].
  apply entries_ownEntries in Hentries as [_ ->].
  assert (exists ns, nodeOf strs t (b, body) = Some ns) as [ns Hns].
  { destruct (nodeOf strs t (b, body)) as [ns|] eqn:Hn; [by eexists|].
    assert (collect (nodeOf strs t) (ownEntries tnodes) = None) as Hbad
      by (apply collect_None; by exists (b, body)).
    congruence. }
  pose proof Hns as Hns'. unfold ExtractFuTrees.nodeOf in Hns'. simpl in Hns'.
  rewrite Hobj in Hns'. simpl in Hns'.
  destruct (costs (getProp body "price")) as [cost_|]; [|done].
  injection Hns' as <-.
  eexists. split; [|shelve].
  apply (collect_elem _ _ _ _ Hnodes). exists file, fnodes. split_and!; [done..|].
  apply (collect_elem _ _ _ _ Hfnodes'). exists (t, tnodes), tns. split_and!; [done..|].
  apply (collect_elem _ _ _ _ Htns'). eexists (b, body), _. split_and!; [done..|left].
  Unshelve. done.
Qed.

Lemma listsChild_meetsChild configFiles t a b :
  listsChild configFiles t a b -> meetsChild configFiles t a b.
Proof.
  intros (file & nodes & body & children & Hfile & Htree & Hnode & Hobj & Hc & Hb).
  exists file, nodes, body, children, (JStr b). split_and!; [done..| |done|done].
  unfold childIds. by rewrite Hc.
Qed.

(** When a pass throws. *)
Lemma fileNodes_None file :
  fileNodes file = None
  <-> exists t nodes,
        (t, nodes) ∈ fileTrees file /\
        (nodes = JNull \/
         exists a body, (a, body) ∈ ownEntries nodes /\ isObject body = true /\
                        costs (getProp body "price") = None).
Proof.
  unfold ExtractFuTrees.fileNodes. rewrite collect_None. split.
  - intros ([t nodes] & Htree & Hnone). exists t, nodes. split; [done|].
    unfold ExtractFuTrees.treeNodes in Hnone. simpl in Hnone.
    destruct (entries nodes) as [treeNodes_|] eqn:Hentries.
    + apply entries_ownEntries in Hentries as [_ ->]. right.
      apply collect_None in Hnone as ([a body] & Hnode & Hnone).
      exists a, body. unfold ExtractFuTrees.nodeOf in Hnone. simpl in Hnone.
      destruct (isObject body); simpl in Hnone; [|done].
      destruct (costs (getProp body "price")); [done|]. by split_and!.
    + left. by destruct nodes.
  - intros (t & nodes & Htree & Hbad). exists (t, nodes). split; [done|].
    unfold ExtractFuTrees.treeNodes. simpl.
    destruct Hbad as [->|(a & body & Hnode & Hobj & Hcost)]; [done|].
    destruct (entries nodes) as [treeNodes_|] eqn:Hentries; [|done].
    apply entries_ownEntries in Hentries as [_ ->].
    apply collect_None. exists (a, body). split; [done|].
    unfold ExtractFuTrees.nodeOf. simpl. by rewrite Hobj, Hcost.
Qed.

Lemma fileEdges_None file :
  fileEdges file = None
  <-> exists t nodes,
        (t, nodes) ∈ fileTrees file /\
        (nodes = JNull \/
         exists a body, (a, body) ∈ ownEntries nodes /\ isObject body = true /\
           (childIds body = None \/
            exists children childId,
              childIds body = Some children /\ childId ∈ children /\
              templateString childId = None)).
Proof.
  unfold ExtractFuTrees.fileEdges. rewrite collect_None. split.
  - intros ([t nodes] & Htree & Hnone). exists t, nodes. split; [done|].
    unfold ExtractFuTrees.treeEdges in Hnone. simpl in Hnone.
    destruct (entries nodes) as [treeNodes_|] eqn:Hentries.
    + apply entries_ownEntries in Hentries as [_ ->]. right.
      apply collect_None in Hnone as ([a body] & Hnode & Hnone).
      exists a, body. unfold ExtractFuTrees.nodeEdges in Hnone. simpl in Hnone.
      destruct (isObject body); simpl in Hnone; [|done].
      split_and!; [done..|].
      destruct (childIds body) as [children|]; [|by left]. right.
      apply collect_None in Hnone as (childId & Hchild & Hnone).
      exists children, childId. split_and!; [done..|].
      unfold ExtractFuTrees.edgeOf in Hnone. by destruct (templateString childId).
    + left. by destruct nodes.
  - intros (t & nodes & Htree & Hbad). exists (t, nodes). split; [done|].
    unfold ExtractFuTrees.treeEdges. simpl.
    destruct Hbad as [->|(a & body & Hnode & Hobj & Hbad)]; [done|].
    destruct (entries nodes) as [treeNodes_|] eqn:Hentries; [|done].
    apply entries_ownEntries in Hentries as [_ ->].
    apply collect_None. exists (a, body). split; [done|].
    unfold ExtractFuTrees.nodeEdges. simpl. rewrite Hobj. simpl.
    destruct Hbad as [->|(children & childId & -> & Hchild & Hnone)]; [done|].
    apply collect_None. exists childId. split; [done|].
    unfold ExtractFuTrees.edgeOf. by rewrite Hnone.
Qed.

Lemma extractResearchTrees_None configFiles :
  extractResearchTrees configFiles = None <-> throwingTree configFiles.
Proof.
  unfold ExtractFuTrees.extractResearchTrees.
  rewrite parseNodes_collect, buildChildToParent_collect.
  unfold ExtractFuTrees.throwingTree, ExtractFuTrees.throwingBody. split.
  - destruct (collect fileNodes configFiles) as [nodes|] eqn:Hnodes.
    + destruct (collect fileEdges configFiles) as [edges|] eqn:Hedges; [done|].
      intros _. apply collect_None in Hedges as (file & Hfile & Hnone).
      apply fileEdges_None in Hnone as (t & tnodes & Htree & Hbad).
      exists file, t, tnodes. split_and!; [done..|].
      destruct Hbad as [->|(a & body & Hnode & Hobj & Hbad)]; [by left|].
      right. exists a, body. split_and!; [done..|]. by right.
    + intros _. apply collect_None in Hnodes as (file & Hfile & Hnone).
      apply fileNodes_None in Hnone as (t & tnodes & Htree & Hbad).
      exists file, t, tnodes. split_and!; [done..|].
      destruct Hbad as [->|(a & body & Hnode & Hobj & Hbad)]; [by left|].
      right. exists a, body. split_and!; [done..|]. by left.
  - intros (file & t & tnodes & Hfile & Htree & Hbad).
    assert (collect fileNodes configFiles = None \/
            collect fileEdges configFiles = None) as [->|Hedges]; [|done|].
    { destruct Hbad as [->|(a & body & Hnode & Hobj & [Hcost|Hchildren])].
      - left. apply collect_None. exists file. split; [done|].
        apply fileNodes_None. exists t, JNull. split; [done|by left].
      - left. apply collect_None. exists file. split; [done|].
        apply fileNodes_None. exists t, tnodes. split; [done|].
        right. by exists a, body.
      - right. apply collect_None. exists file. split; [done|].
        apply fileEdges_None. exists t, tnodes. split; [done|].
        right. by exists a, body. }
    destruct (collect fileNodes configFiles); [|done]. by rewrite Hedges.
Qed.

(** C1.  Prerequisites are the inverted [children] listings and nothing
    else, whatever the config files hold.  The node table of the first
    pass has empty prerequisites throughout.  In the nodes a run returns, a
    node has [p] among its prerequisites exactly when the second pass meets
    it as a child of a node with full id [p] in its own tree; hence when
    node [a] of tree [t1] lists [b] in its children list, every extracted
    node with the id [t1:b] has [t1:a] among its prerequisites (each
    listing parent being accumulated), and such a node is extracted as soon
    as [b] has a body in [t1].  The run returns its nodes unless it meets a
    tree that is null or a node body at which it throws. *)
Theorem prerequisites_are_inverted_children (configFiles : list string) :
  (forall nodes n,
     parseNodes configFiles = Some nodes -> n ∈ nodes -> prerequisites n = []) /\
  (forall nodes,
     extractResearchTrees configFiles = Some nodes ->
     (forall n p, n ∈ nodes ->
        (p ∈ prerequisites n <->
         exists t a b, meetsChild configFiles t a b /\
                       nodeId n = t +:+ ":" +:+ b /\ p = t +:+ ":" +:+ a)) /\
     (forall t1 a b, listsChild configFiles t1 a b ->
        (forall n, n ∈ nodes -> nodeId n = t1 +:+ ":" +:+ b ->
                   t1 +:+ ":" +:+ a ∈ prerequisites n) /\
        (declaresNode configFiles t1 b ->
         exists n, n ∈ nodes /\ nodeId n = t1 +:+ ":" +:+ b /\
                   t1 +:+ ":" +:+ a ∈ prerequisites n))) /\
  (extractResearchTrees configFiles = None <-> throwingTree configFiles).
Proof.
  split_and!.
  - intros nodes n Hnodes Hn. rewrite parseNodes_collect in Hnodes.
    by destruct (nodes_declared configFiles nodes n Hnodes Hn).
  - intros nodes Hrun.
    unfold ExtractFuTrees.extractResearchTrees in Hrun.
    rewrite parseNodes_collect, buildChildToParent_collect in Hrun.
    destruct (collect fileNodes configFiles) as [nodes0|] eqn:Hnodes; [|done].
    destruct (collect fileEdges configFiles) as [edges|] eqn:Hedges; [|done].
    simpl in Hrun. injection Hrun as <-.
    assert (forall n p,
      n ∈ map (fun n0 => setPrerequisites n0
                 (default [] (foldl addEdge ∅ edges !! nodeId n0))) nodes0 ->
      (p ∈ prerequisites n <->
       exists t a b, meetsChild configFiles t a b /\
                     nodeId n = t +:+ ":" +:+ b /\ p = t +:+ ":" +:+ a)) as Hchar.
    { intros n p (n0 & -> & Hn0)%list_elem_of_fmap. simpl.
      rewrite foldl_addEdge_key, lookup_empty. simpl.
      rewrite <-(edges_meetsChild configFiles edges (nodeId n0) p Hedges).
      rewrite list_elem_of_fmap. split.
      - intros ([c p'] & -> & [Hk Hin]%list_elem_of_filter). simpl in *. by subst c.
      - intros Hin. exists (nodeId n0, p). split; [done|]. by apply list_elem_of_filter. }
    split; [exact Hchar|].
    intros t1 a b Hlists%listsChild_meetsChild. split.
    + intros n Hn Hid. apply Hchar; [done|]. by exists t1, a, b.
    + intros (n0 & Hn0 & Hid)%(declared_node configFiles nodes0); [|done].
      set (n := setPrerequisites n0 (default [] (foldl addEdge ∅ edges !! nodeId n0))).
      assert (n ∈ map (fun n0 => setPrerequisites n0
                         (default [] (foldl addEdge ∅ edges !! nodeId n0))) nodes0)
        as Hn.
      { apply list_elem_of_fmap. by exists n0. }
      exists n. split_and!; [done|done|].
      apply Hchar; [done|]. by exists t1, a, b.
  - apply extractResearchTrees_None.
Qed.

End Trees.

Lemma prerequisites_are_inverted_children_witness :
  (exists nodes n,
     sampleExtract ["other.config"; "tree.config"] = Some nodes /\
     n ∈ nodes /\ nodeId n = "t1:b" /\ "t1:a" ∈ prerequisites n /\
     "t1:c" ∈ prerequisites n) /\
  sampleExtract ["tree.config"; "odd.config"] = None.
Proof.
  pose proof (prerequisites_are_inverted_children Empty_set sampleInherited
                sampleForeignProperty sampleToString sampleTrees
                ["other.config"; "tree.config"]) as (_ & Hrun & _).
  pose proof (prerequisites_are_inverted_children Empty_set sampleInherited
                sampleForeignProperty sampleToString sampleTrees
                ["tree.config"; "odd.config"]) as (_ & _ & Hthrows).
  split.
  - destruct (sampleExtract ["other.config"; "tree.config"]) as [nodes|] eqn:Hnodes;
      [|discriminate Hnodes].
    destruct (Hrun nodes Hnodes) as [_ Hlists].
    assert (declaresNode sampleTrees ["other.config"; "tree.config"] "t1" "b") as Hb.
    { eexists "tree.config", _, _.
      split_and!; [right; left|left|right; left|reflexivity]. }
    destruct (Hlists "t1" "a" "b") as [_ Ha].
    { eexists "tree.config", _, _, _.
      split_and!; [right; left|left|left|reflexivity|reflexivity|left]. }
    destruct (Hlists "t1" "c" "b") as [Hc _].
    { eexists "tree.config", _, _, _.
      split_and!; [right; left|left|right; right; left|reflexivity|reflexivity|left]. }
    destruct (Ha Hb) as (n & Hn & Hid & Hpa).
    exists nodes, n. split_and!; [reflexivity|exact Hn|exact Hid|exact Hpa|].
    exact (Hc n Hn Hid).
  - apply Hthrows. eexists "odd.config", "t2", _.
    split_and!; [right; left|left|].
    right. eexists "x", _. split_and!; [left|reflexivity|].
    right. by left.
Defined.

Example extractResearchTrees_untyped_sample :
  map (fun n => (tree n, nodeId n, prerequisites n)) <$>
    sampleExtract ["other.config"; "tree.config"]
  = Some [ (Data (JStr "Tree One"), "t1:a", []);
           (Data (JStr "Tree One"), "t1:b", ["t1:a"; "t1:c"]);
           (Data (JStr "Tree One"), "t1:c", []) ].
Proof. by vm_compute. Qed.

(** ** The typed run and the run over the parsed values *)

Lemma collect_bind {A B} (g : A -> option (list B)) (g' : A -> list B) l :
  (forall x, x ∈ l -> g x = Some (g' x)) -> collect g l = Some (l ≫= g').
Proof.
  induction l as [|x l IH]; intros Hg; [done|].
  rewrite collect_cons, Hg, IH; [done| |left].
  intros y Hy. apply Hg. by right.
Qed.

Lemma collect_related {A B B'} (R : B -> B' -> Prop)
    (g : A -> option (list B)) (g' : A -> list B') l :
  (forall x, x ∈ l -> exists ys, g x = Some ys /\ Forall2 R ys (g' x)) ->
  exists ys, collect g l = Some ys /\ Forall2 R ys (l ≫= g').
Proof.
  induction l as [|x l IH]; intros Hg; [by exists []|].
  destruct (Hg x) as (ys & Hx & Hys); [left|].
  destruct IH as (rest & Hl & Hrest); [intros y Hy; apply Hg; by right|].
  exists (ys ++ rest). rewrite collect_cons, Hx, Hl. split; [done|].
  rewrite bind_cons. by apply Forall2_app.
Qed.

Section Typed.
Variable foreign : Type.
Variable inherited : json -> string -> option (value foreign).
Variable foreignProperty : foreign -> string -> option (value foreign).
Variable toString : json -> option string.
Variable readJsonFile : string -> option ExtractFu.ConfigData.

Local Abbreviation parsed := (fun file => configValue (readJsonFile file)).

Lemma fileTrees_typed file :
  fileTrees parsed file
    = (fun entry => (entry.1, treeValue entry.2))
        <$> ExtractFu.fileTrees readJsonFile file.
Proof.
  unfold fileTrees, ExtractFu.fileTrees, skipped.
  destruct (readJsonFile file) as [data|]; [|done]. simpl.
  destruct (ExtractFu.researchTree data) as [trees|]; simpl; [done|].
  by destruct (ExtractFu.strings data).
Qed.

Lemma childIds_typed nodeData :
  childIds (bodyValue (Some nodeData))
    = Some (JStr <$> default [] (ExtractFu.children nodeData)).
Proof.
  unfold childIds, bodyValue.
  by destruct (ExtractFu.price nodeData), (ExtractFu.children nodeData),
    (ExtractFu.unlocks nodeData).
Qed.

Lemma nodeEdges_typed treeId entry :
  nodeEdges toString treeId (entry.1, bodyValue entry.2)
    = Some (ExtractFu.nodeEdges treeId entry).
Proof.
  unfold nodeEdges, ExtractFu.nodeEdges. destruct entry as [a [nodeData|]]; [|done].
  cbn [fst snd]. change (isObject (bodyValue (Some nodeData))) with true. cbn [negb].
  rewrite childIds_typed.
  generalize (default [] (ExtractFu.children nodeData)). intros children.
  rewrite (collect_bind _ (fun childId =>
             match childId with
             | JStr c => [(treeId +:+ ":" +:+ c, treeId +:+ ":" +:+ a)]
             | _ => []
             end)).
  - f_equal. induction children as [|c children IH]; [done|].
    rewrite fmap_cons, bind_cons, IH. done.
  - intros childId (c & -> & _)%list_elem_of_fmap. done.
Qed.

Lemma fileEdges_typed file :
  fileEdges toString parsed file = Some (ExtractFu.fileEdges readJsonFile file).
Proof.
  unfold fileEdges, ExtractFu.fileEdges. rewrite fileTrees_typed.
  generalize (ExtractFu.fileTrees readJsonFile file). intros trees.
  rewrite (collect_bind _ (fun tree =>
             default [] (treeEdges toString tree))).
  - f_equal. induction trees as [|[t nodes] trees IH]; [done|].
    rewrite fmap_cons, !bind_cons, IH. f_equal.
    unfold treeEdges, treeValue. cbn [fst snd entries ownEntries].
    rewrite (collect_bind _ (fun node => default [] (nodeEdges toString t node))).
    + simpl. induction nodes as [|node nodes IHn]; [done|].
      rewrite fmap_cons, !bind_cons, IHn. by rewrite nodeEdges_typed.
    + intros node (entry & -> & _)%list_elem_of_fmap. by rewrite nodeEdges_typed.
  - intros tree ([t nodes] & -> & _)%list_elem_of_fmap.
    unfold treeEdges, treeValue. cbn [fst snd entries ownEntries].
    rewrite (collect_bind _ (fun node => default [] (nodeEdges toString t node)));
      [done|].
    intros node (entry & -> & _)%list_elem_of_fmap. by rewrite nodeEdges_typed.
Qed.

Lemma costs_typed nodeData :
  is_Some (costs (getProp (bodyValue (Some nodeData)) "price")).
Proof.
  unfold bodyValue.
  destruct (ExtractFu.price nodeData) as [price|]; simpl.
  - induction price as [|entry price [cs IH]]; [by eexists|].
    rewrite fmap_cons. simpl. simpl in IH. rewrite IH. by eexists.
  - by destruct (ExtractFu.children nodeData), (ExtractFu.unlocks nodeData).
Qed.

Lemma nodeOf_typed strs strs' treeId entry :
  exists ns,
    nodeOf foreign inherited foreignProperty strs treeId (entry.1, bodyValue entry.2)
      = Some ns /\
    Forall2 (fun n n' => nodeId n = ExtractFu.nodeId n') ns
            (ExtractFu.nodeOf strs' treeId entry).
Proof.
  unfold nodeOf, ExtractFu.nodeOf, ExtractFu.pushNode.
  destruct entry as [b [nodeData|]]; [|by exists []].
  cbn [fst snd]. change (isObject (bodyValue (Some nodeData))) with true. cbn [negb].
  destruct (costs_typed nodeData) as [cost_ ->].
  eexists. split; [done|]. by repeat constructor.
Qed.

Lemma fileNodes_typed file :
  exists ns,
    fileNodes foreign inherited foreignProperty parsed file = Some ns /\
    Forall2 (fun n n' => nodeId n = ExtractFu.nodeId n') ns
            (ExtractFu.fileNodes readJsonFile file).
Proof.
  unfold fileNodes, ExtractFu.fileNodes. rewrite fileTrees_typed.
  set (strs := orElse (getProp _ "strings") (JObj [])). clearbody strs.
  generalize (ExtractFu.fileStrings readJsonFile file) as strs'.
  generalize (ExtractFu.fileTrees readJsonFile file) as trees.
  intros trees strs'.
  induction trees as [|[t nodes] trees (ns & Hns & Hrel)]; [by exists []|].
  rewrite fmap_cons, collect_cons, Hns, bind_cons. cbn [fst snd].
  assert (exists tns,
            treeNodes foreign inherited foreignProperty strs (t, treeValue nodes)
              = Some tns /\
            Forall2 (fun n n' => nodeId n = ExtractFu.nodeId n') tns
                    (nodes ≫= ExtractFu.nodeOf strs' t)) as (tns & -> & Htns).
  { unfold treeNodes, treeValue. cbn [fst snd entries ownEntries].
    clear. induction nodes as [|node nodes (tns & Htns & Hrel)]; [by exists []|].
    destruct (nodeOf_typed strs strs' t node) as (ns & Hnode & Hns).
    exists (ns ++ tns). rewrite fmap_cons, collect_cons, Hnode, Htns, bind_cons.
    split; [done|]. by apply Forall2_app. }
  exists (tns ++ ns). split; [done|]. by apply Forall2_app.
Qed.

(** On content of the type it is cast to, the run over the parsed values
    returns, and returns the nodes of the typed run: the same ids with the
    same prerequisites, in the same order. *)
Lemma typed_run_is_the_run configFiles :
  map (fun n => (nodeId n, prerequisites n))
    <$> extractResearchTrees foreign inherited foreignProperty toString parsed
                             configFiles
  = Some (map (fun n => (ExtractFu.nodeId n, ExtractFu.prerequisites n))
              (ExtractFu.extractResearchTrees readJsonFile configFiles)).
Proof.
  unfold extractResearchTrees, ExtractFu.extractResearchTrees.
  rewrite parseNodes_collect, buildChildToParent_collect.
  rewrite ExtractFuClaims.parseNodes_bind, ExtractFuClaims.buildChildToParent_edges.
  rewrite (collect_bind _ (ExtractFu.fileEdges readJsonFile))
    by (intros file _; apply fileEdges_typed).
  destruct (collect_related (fun n n' => nodeId n = ExtractFu.nodeId n')
              (fileNodes foreign inherited foreignProperty parsed)
              (ExtractFu.fileNodes readJsonFile) configFiles) as (ns & -> & Hns).
  { intros file _. apply fileNodes_typed. }
  simpl. f_equal. rewrite <-!list_fmap_compose.
  induction Hns as [|n n' ns ns' Hid _ IH]; [done|].
  rewrite !fmap_cons, IH. simpl. by rewrite Hid.
Qed.

End Typed.

End ExtractFuTreesClaims.

(** ** Lua documentation *)

Module JSFacts.
Import JS.

(** *** The matcher *)

Lemma reached_refl pos s : reached pos s pos s.
Proof. by split. Qed.

Lemma reached_trans pos s pos1 s1 pos2 s2 :
  reached pos s pos1 s1 -> reached pos1 s1 pos2 s2 -> reached pos s pos2 s2.
Proof. unfold reached. lia. Qed.

Lemma reached_le pos s pos' s' : reached pos s pos' s' -> pos <= pos'.
Proof. unfold reached. lia. Qed.

Lemma reached_char pos b s : reached pos (String b s) (S pos) s.
Proof. unfold reached. simpl. lia. Qed.

Section MatcherFacts.
Context {R : Type}.
Implicit Types (k : nat -> string -> captures -> option R).

(** A successful match has called its continuation, and has done so behind
    the characters it consumed: at least one if the pattern is not
    nullable. *)
Lemma starLoop_sound step k :
  (forall pos s c k x, step pos s c k = Some x ->
     exists pos' s' c', reached pos s pos' s' /\ k pos' s' c' = Some x) ->
  forall fuel pos s c x,
    starLoop step k fuel pos s c = Some x ->
    exists pos' s' c', reached pos s pos' s' /\ k pos' s' c' = Some x.
Proof.
  intros Hstep. induction fuel as [|fuel IH]; intros pos s c x; simpl.
  - intros Hk. exists pos, s, c. split; [apply reached_refl|done].
  - destruct (step pos s c _) as [y|] eqn:Hy.
    + intros [= ->]. apply Hstep in Hy as (pos1 & s1 & c1 & Hr1 & Hy).
      destruct (Nat.ltb pos pos1); [|done].
      apply IH in Hy as (pos2 & s2 & c2 & Hr2 & Hk).
      exists pos2, s2, c2. split; [by eapply reached_trans|done].
    + intros Hk. exists pos, s, c. split; [apply reached_refl|done].
Qed.

Lemma lazyLoop_sound step k :
  (forall pos s c k x, step pos s c k = Some x ->
     exists pos' s' c', reached pos s pos' s' /\ k pos' s' c' = Some x) ->
  forall fuel pos s c x,
    lazyLoop step k fuel pos s c = Some x ->
    exists pos' s' c', reached pos s pos' s' /\ k pos' s' c' = Some x.
Proof.
  intros Hstep. induction fuel as [|fuel IH]; intros pos s c x; simpl.
  - destruct (k pos s c) as [y|] eqn:Hy; [|done].
    intros [= ->]. exists pos, s, c. split; [apply reached_refl|done].
  - destruct (k pos s c) as [y|] eqn:Hy.
    + intros [= ->]. exists pos, s, c. split; [apply reached_refl|done].
    + intros (pos1 & s1 & c1 & Hr1 & Hx)%Hstep.
      destruct (Nat.ltb pos pos1); [|done].
      apply IH in Hx as (pos2 & s2 & c2 & Hr2 & Hk).
      exists pos2, s2, c2. split; [by eapply reached_trans|done].
Qed.

Lemma matches_sound r : forall pos s c k x,
  matches r pos s c k = Some x ->
  exists pos' s' c',
    reached pos s pos' s' /\ (nonNullable r = true -> pos < pos') /\
    k pos' s' c' = Some x.
Proof.
  induction r as [a|p| | | |r1 IH1 r2 IH2|r1 IH1 r2 IH2|r1 IH1|r1 IH1|i r1 IH1];
    intros pos s c k x; simpl.
  - destruct s as [|b s]; [done|]. destruct (Ascii.eqb a b); [|done].
    intros Hk. exists (S pos), s, c. split_and!; [apply reached_char|lia|done].
  - destruct s as [|b s]; [done|]. destruct (p b); [|done].
    intros Hk. exists (S pos), s, c. split_and!; [apply reached_char|lia|done].
  - intros Hk. exists pos, s, c. split_and!; [apply reached_refl|done|done].
  - destruct (Nat.eqb pos 0); [|done].
    intros Hk. exists pos, s, c. split_and!; [apply reached_refl|done|done].
  - destruct s; [|done].
    intros Hk. exists pos, EmptyString, c.
    split_and!; [apply reached_refl|done|done].
  - intros (pos1 & s1 & c1 & Hr1 & Hn1 & H2)%IH1.
    apply IH2 in H2 as (pos2 & s2 & c2 & Hr2 & Hn2 & Hk).
    exists pos2, s2, c2. split_and!; [by eapply reached_trans| |done].
    apply reached_le in Hr1, Hr2.
    intros [Hn|Hn]%orb_true_iff; [apply Hn1 in Hn|apply Hn2 in Hn]; lia.
  - destruct (matches r1 pos s c k) as [y|] eqn:Hy.
    + intros [= ->]. apply IH1 in Hy as (pos1 & s1 & c1 & Hr1 & Hn1 & Hk).
      exists pos1, s1, c1. split_and!; [done| |done].
      intros [Hn _]%andb_true_iff. auto.
    + intros (pos1 & s1 & c1 & Hr1 & Hn1 & Hk)%IH2.
      exists pos1, s1, c1. split_and!; [done| |done].
      intros [_ Hn]%andb_true_iff. auto.
  - intros Hx. apply starLoop_sound in Hx as (pos1 & s1 & c1 & Hr1 & Hk).
    + exists pos1, s1, c1. by split_and!.
    + intros pos0 s0 c0 k0 x0 (pos1 & s1 & c1 & Hr1 & _ & Hk)%IH1. eauto.
  - intros Hx. apply lazyLoop_sound in Hx as (pos1 & s1 & c1 & Hr1 & Hk).
    + exists pos1, s1, c1. by split_and!.
    + intros pos0 s0 c0 k0 x0 (pos1 & s1 & c1 & Hr1 & _ & Hk)%IH1. eauto.
  - intros (pos1 & s1 & c1 & Hr1 & Hn1 & Hk)%IH1.
    exists pos1, s1, ((i, takeString (pos1 - pos) s) :: c1). by split_and!.
Qed.

Lemma matches_none r pos s c : matches r pos s c (fun _ _ _ => @None R) = None.
Proof.
  destruct (matches r pos s c _) as [x|] eqn:Hx; [|done].
  by apply matches_sound in Hx as (? & ? & ? & _ & _ & ?).
Qed.

(** The result depends on the continuation only at the positions a match
    can reach. *)
Lemma starLoop_ext step :
  (forall pos s c k k',
     (forall pos' s' c', reached pos s pos' s' -> k pos' s' c' = k' pos' s' c') ->
     step pos s c k = step pos s c k') ->
  forall fuel pos s c k k',
    (forall pos' s' c', reached pos s pos' s' -> k pos' s' c' = k' pos' s' c') ->
    starLoop step k fuel pos s c = starLoop step k' fuel pos s c.
Proof.
  intros Hstep. induction fuel as [|fuel IH]; intros pos s c k k' Hk; simpl.
  - apply Hk, reached_refl.
  - rewrite (Hk pos s c) by apply reached_refl.
    erewrite Hstep; [done|].
    intros pos1 s1 c1 Hr1. simpl. destruct (Nat.ltb pos pos1); [|done].
    apply IH. intros pos2 s2 c2 Hr2. apply Hk. by eapply reached_trans.
Qed.

Lemma lazyLoop_ext step :
  (forall pos s c k k',
     (forall pos' s' c', reached pos s pos' s' -> k pos' s' c' = k' pos' s' c') ->
     step pos s c k = step pos s c k') ->
  forall fuel pos s c k k',
    (forall pos' s' c', reached pos s pos' s' -> k pos' s' c' = k' pos' s' c') ->
    lazyLoop step k fuel pos s c = lazyLoop step k' fuel pos s c.
Proof.
  intros Hstep. induction fuel as [|fuel IH]; intros pos s c k k' Hk; simpl.
  - by rewrite (Hk pos s c) by apply reached_refl.
  - rewrite (Hk pos s c) by apply reached_refl.
    destruct (k' pos s c); [done|].
    apply Hstep. intros pos1 s1 c1 Hr1. simpl. destruct (Nat.ltb pos pos1); [|done].
    apply IH. intros pos2 s2 c2 Hr2. apply Hk. by eapply reached_trans.
Qed.

Lemma matches_ext r : forall pos s c k k',
  (forall pos' s' c', reached pos s pos' s' -> k pos' s' c' = k' pos' s' c') ->
  matches r pos s c k = matches r pos s c k'.
Proof.
  induction r as [a|p| | | |r1 IH1 r2 IH2|r1 IH1 r2 IH2|r1 IH1|r1 IH1|i r1 IH1];
    intros pos s c k k' Hk; simpl.
  - destruct s as [|b s]; [done|]. destruct (Ascii.eqb a b); [|done].
    apply Hk, reached_char.
  - destruct s as [|b s]; [done|]. destruct (p b); [|done].
    apply Hk, reached_char.
  - apply Hk, reached_refl.
  - destruct (Nat.eqb pos 0); [|done]. apply Hk, reached_refl.
  - destruct s; [|done]. apply Hk, reached_refl.
  - apply IH1. intros pos1 s1 c1 Hr1. apply IH2.
    intros pos2 s2 c2 Hr2. apply Hk. by eapply reached_trans.
  - by rewrite (IH1 pos s c k k'), (IH2 pos s c k k').
  - by apply starLoop_ext.
  - by apply lazyLoop_ext.
  - apply IH1. intros pos1 s1 c1 Hr1. by apply Hk.
Qed.

(** The fuel of [r*]: the length of the subject is enough. *)
Lemma starLoop_fuel r k : forall n m pos s c,
  String.length s <= n -> String.length s <= m ->
  starLoop (matches r) k n pos s c = starLoop (matches r) k m pos s c.
Proof.
  assert (forall m pos s c, String.length s = 0 ->
            starLoop (matches r) k m pos s c = k pos s c) as Hempty.
  { intros [|m] pos s c Hs; simpl; [done|].
    erewrite matches_ext; [by rewrite matches_none|].
    intros pos1 s1 c1 [Hle Hpos]. simpl.
    replace (Nat.ltb pos pos1) with false; [done|].
    symmetry. apply Nat.ltb_ge. lia. }
  induction n as [|n IH]; intros m pos s c Hn Hm.
  - rewrite (Hempty m) by lia. simpl. done.
  - destruct m as [|m].
    + rewrite (Hempty (S n)) by lia. simpl. done.
    + simpl. erewrite matches_ext; [done|].
      intros pos1 s1 c1 [Hle Hpos]. simpl.
      destruct (Nat.ltb pos pos1) eqn:Hlt; [|done].
      apply Nat.ltb_lt in Hlt. apply IH; lia.
Qed.

Lemma matches_Star_fuel r pos s c k n :
  String.length s <= n ->
  matches (Star r) pos s c k = starLoop (matches r) k n pos s c.
Proof. intros Hn. simpl. by apply starLoop_fuel. Qed.

(** The fuel of [r*?], likewise. *)
Lemma lazyLoop_fuel r k : forall n m pos s c,
  String.length s <= n -> String.length s <= m ->
  lazyLoop (matches r) k n pos s c = lazyLoop (matches r) k m pos s c.
Proof.
  assert (forall m pos s c, String.length s = 0 ->
            lazyLoop (matches r) k m pos s c = k pos s c) as Hempty.
  { intros [|m] pos s c Hs; simpl; destruct (k pos s c) eqn:Hk; try done.
    erewrite matches_ext; [by rewrite matches_none|].
    intros pos1 s1 c1 [Hle Hpos]. simpl.
    replace (Nat.ltb pos pos1) with false; [done|].
    symmetry. apply Nat.ltb_ge. lia. }
  induction n as [|n IH]; intros m pos s c Hn Hm.
  - rewrite (Hempty m) by lia. rewrite (Hempty 0) by lia. done.
  - destruct m as [|m].
    + rewrite (Hempty (S n)) by lia. rewrite (Hempty 0) by lia. done.
    + simpl. destruct (k pos s c); [done|].
      apply matches_ext. intros pos1 s1 c1 [Hle Hpos]. simpl.
      destruct (Nat.ltb pos pos1) eqn:Hlt; [|done].
      apply Nat.ltb_lt in Hlt. apply IH; lia.
Qed.

Lemma matches_StarLazy_fuel r pos s c k n :
  String.length s <= n ->
  matches (StarLazy r) pos s c k = lazyLoop (matches r) k n pos s c.
Proof. intros Hn. simpl. by apply lazyLoop_fuel. Qed.

End MatcherFacts.

(** *** [exec] and the loops over it *)

Lemma length_dropString n s :
  String.length (dropString n s) = String.length s - n.
Proof.
  revert s. induction n as [|n IH]; intros [|c s]; simpl; done.
Qed.

Lemma search_sound r s : forall pos m,
  search r pos s = Some m ->
  pos <= index m /\ index m <= lastIndex m /\
  lastIndex m <= pos + String.length s /\
  (nonNullable r = true -> index m < lastIndex m).
Proof.
  induction s as [|b s IH]; intros pos m; simpl.
  - destruct (matches r pos EmptyString [] _) as [[pos' c]|] eqn:Hm; [|done].
    intros [= <-]. simpl.
    apply matches_sound in Hm as (pos1 & s1 & c1 & [Hle Hpos] & Hn & [= <- <-]).
    simpl in *. split_and!; [lia|lia|lia|done].
  - destruct (matches r pos (String b s) [] _) as [[pos' c]|] eqn:Hm.
    + intros [= <-]. simpl.
      apply matches_sound in Hm as (pos1 & s1 & c1 & [Hle Hpos] & Hn & [= <- <-]).
      simpl in *. split_and!; [lia|lia|lia|done].
    + intros (H1 & H2 & H3 & H4)%IH. split_and!; [lia|lia|lia|done].
Qed.

Lemma exec_sound r s from m :
  exec r s from = Some m ->
  from <= index m /\ index m <= lastIndex m /\ lastIndex m <= String.length s /\
  (nonNullable r = true -> index m < lastIndex m).
Proof.
  unfold exec. destruct (Nat.leb from (String.length s)) eqn:Hle; [|done].
  apply Nat.leb_le in Hle.
  intros (H1 & H2 & H3 & H4)%search_sound. rewrite length_dropString in H3.
  split_and!; [lia|lia|lia|done].
Qed.

(** The fuel of the loop over the matches of a pattern that is not
    nullable: one more than the length of the subject is enough. *)
Lemma execLoop_fuel r s : nonNullable r = true -> forall n m from,
  String.length s - from < n -> String.length s - from < m ->
  execLoop n r s from = execLoop m r s from.
Proof.
  intros Hnn. induction n as [|n IH]; intros m from Hn Hm; [lia|].
  destruct m as [|m]; [lia|]. simpl.
  destruct (exec r s from) as [mr|] eqn:Hexec; [|done].
  apply exec_sound in Hexec as (H1 & H2 & H3 & H4). specialize (H4 Hnn).
  f_equal. apply IH; lia.
Qed.

Lemma execAll_fuel r s n :
  nonNullable r = true -> String.length s < n -> execLoop n r s 0 = execAll r s.
Proof. intros Hnn Hn. apply execLoop_fuel; [done|lia|lia]. Qed.

Section MapFacts.
Context {V : Type}.
Implicit Types (m : list (string * V)) (k : string) (v : V).

Lemma mapGet_mapSet_eq m k v : mapGet (mapSet m k v) k = Some v.
Proof.
  induction m as [|[k' v'] m IH]; simpl.
  - by rewrite String.eqb_refl.
  - destruct (String.eqb k' k) eqn:Hk; simpl; by rewrite Hk.
Qed.

Lemma mapGet_mapSet_ne m k k' v : k <> k' -> mapGet (mapSet m k v) k' = mapGet m k'.
Proof.
  intros Hne. induction m as [|[k0 v0] m IH]; simpl.
  - by apply String.eqb_neq in Hne as ->.
  - destruct (String.eqb k0 k) eqn:Hk; simpl; [|by rewrite IH].
    apply String.eqb_eq in Hk as ->. by apply String.eqb_neq in Hne as ->.
Qed.

(** Setting a key that is present adds no entry. *)
Lemma mapSet_keys_present m k v : is_Some (mapGet m k) -> (mapSet m k v).*1 = m.*1.
Proof.
  induction m as [|[k0 v0] m IH]; simpl; [by intros [? ?]|].
  destruct (String.eqb k0 k) eqn:Hk; [done|].
  intros Hsome. rewrite !fmap_cons. f_equal. by apply IH.
Qed.

Lemma mapSet_keys_absent m k v : mapGet m k = None -> (mapSet m k v).*1 = m.*1 ++ [k].
Proof.
  induction m as [|[k0 v0] m IH]; simpl; [done|].
  destruct (String.eqb k0 k) eqn:Hk; [done|].
  intros Hnone. rewrite !fmap_cons. simpl. f_equal. by apply IH.
Qed.

Lemma mapGet_None_keys m k : mapGet m k = None -> k ∉ m.*1.
Proof.
  induction m as [|[k0 v0] m IH]; simpl; [intros _; apply not_elem_of_nil|].
  destruct (String.eqb k0 k) eqn:Hk; [done|].
  apply String.eqb_neq in Hk. intros Hnone. apply not_elem_of_cons. auto.
Qed.

(** Keys stay distinct: a name has at most one entry. *)
Lemma mapSet_NoDup m k v : NoDup m.*1 -> NoDup (mapSet m k v).*1.
Proof.
  intros Hnd. destruct (mapGet m k) as [v0|] eqn:Hget.
  - by rewrite mapSet_keys_present.
  - rewrite mapSet_keys_absent by done. apply NoDup_app. split_and!; [done| |].
    + intros x Hx ->%list_elem_of_singleton. by apply mapGet_None_keys in Hget.
    + apply NoDup_singleton.
Qed.

End MapFacts.

End JSFacts.

Module LuaDocsClaims.
Import JS JSFacts ExtractLuaDocs ExtractLuaDocsStore Samples.

(** *** The loops have fuel enough *)

Lemma signature_patterns_nonNullable :
  nonNullable signatureRegex = true /\ nonNullable noReturnRegex = true /\
  nonNullable paramRegex = true.
Proof. done. Qed.

Lemma collectDescription_length lines : forall i descriptionLines,
  length (collectDescription lines i descriptionLines).1.2 <= length lines.
Proof.
  induction lines as [|nextLine rest IH]; intros i descriptionLines; simpl; [done|].
  destruct (looksLikeSignature nextLine); [done|].
  destruct (String.eqb (trim nextLine) "---"); simpl; [lia|].
  specialize (IH (S i) (descriptionLines ++ [nextLine])). lia.
Qed.

(** Every iteration of the outer loop of [parseMarkdownFile] consumes a
    line. *)
Lemma parseLines_fuel fileName : forall n m lines i functions,
  length lines <= n -> length lines <= m ->
  parseLines n fileName lines i functions = parseLines m fileName lines i functions.
Proof.
  induction n as [|n IH]; intros m lines i functions Hn Hm.
  - destruct lines; [|simpl in Hn; lia]. by destruct m.
  - destruct m as [|m].
    + destruct lines; [done|simpl in Hm; lia].
    + destruct lines as [|line rest]; [done|]. simpl in Hn, Hm. simpl.
      destruct (negb (startsWith line "###") && negb (startsWith line "####"));
        [apply IH; lia|].
      destruct (negb (includes line "`") || negb (includes line "("));
        [apply IH; lia|].
      destruct (parseSignatureLine line) as [parsed|]; [|apply IH; lia].
      pose proof (collectDescription_length rest (S i) []) as Hlen.
      destruct (collectDescription rest (S i) []) as [[descriptionLines rest'] i'].
      simpl in Hlen. apply IH; lia.
Qed.

(** *** The overload flags *)

Lemma overloadsMarked_nil : overloadsMarked [].
Proof. intros pre fn post H. by destruct pre. Qed.

Lemma overloadsMarked_snoc functions fn :
  overloadsMarked functions ->
  isOverload fn = match last functions with
                  | Some previous => sameFunction previous fn
                  | None => false
                  end ->
  overloadsMarked (functions ++ [fn]).
Proof.
  intros Hm Hfn pre fn' post Heq.
  destruct post as [|x post _] using rev_ind.
  - apply app_inj_tail in Heq as [-> ->]. done.
  - rewrite app_comm_cons, app_assoc in Heq.
    apply app_inj_tail in Heq as [-> _]. by apply (Hm pre fn' post).
Qed.

Lemma parseLines_marked fuel : forall fileName lines i functions,
  overloadsMarked functions ->
  overloadsMarked (parseLines fuel fileName lines i functions).
Proof.
  induction fuel as [|fuel IH]; intros fileName lines i functions Hm; simpl; [done|].
  destruct lines as [|line rest]; [done|].
  destruct (negb (startsWith line "###") && negb (startsWith line "####"));
    [by apply IH|].
  destruct (negb (includes line "`") || negb (includes line "("));
    [by apply IH|].
  destruct (parseSignatureLine line) as [parsed|]; [|by apply IH].
  destruct (collectDescription rest (S i) []) as [[descriptionLines rest'] i'].
  apply IH. apply overloadsMarked_snoc; [done|]. simpl.
  unfold overloadOfLast, sameFunction. by destruct (last functions).
Qed.

Lemma parseMarkdownFile_marked content fileName :
  overloadsMarked (parseMarkdownFile content fileName).
Proof. apply parseLines_marked, overloadsMarked_nil. Qed.

Lemma sameFunction_true e1 e2 :
  tableName e1 = tableName e2 -> functionName e1 = functionName e2 ->
  sameFunction e1 e2 = true.
Proof. intros H1 H2. unfold sameFunction. by rewrite H1, H2, !String.eqb_refl. Qed.

(** *** Grouping by table *)

Lemma groupByTable_lookup all t :
  default [] (mapGet (groupByTable all) t) = ofTable t all.
Proof.
  unfold groupByTable.
  enough (forall acc : list (string * list ParsedFunction),
    default [] (mapGet (foldl (fun tableMap fn =>
        mapSet tableMap (tableName fn)
          (default [] (mapGet tableMap (tableName fn)) ++ [fn])) acc all) t)
    = default [] (mapGet acc t) ++ ofTable t all) as H by apply (H []).
  induction all as [|fn all IH]; intros acc; simpl.
  - by rewrite app_nil_r.
  - rewrite IH. unfold ofTable. rewrite filter_cons.
    destruct (decide (tableName fn = t)) as [<-|Hne].
    + rewrite mapGet_mapSet_eq. simpl. by rewrite <-app_assoc.
    + by rewrite mapGet_mapSet_ne.
Qed.

(** *** Merging *)

Lemma mergeFunctions_snoc functions fn :
  mergeFunctions (functions ++ [fn]) = mergeStep (mergeFunctions functions) fn.
Proof. unfold mergeFunctions. by rewrite foldl_app. Qed.

Lemma mergeStep_present m fn : is_Some (mapGet (mergeStep m fn) (functionName fn)).
Proof.
  unfold mergeStep, mapHas.
  destruct (isOverload fn); simpl; [|rewrite mapGet_mapSet_eq; by eexists].
  destruct (mapGet m (functionName fn)); rewrite mapGet_mapSet_eq; by eexists.
Qed.

Lemma mergeStep_NoDup m fn : NoDup m.*1 -> NoDup (mergeStep m fn).*1.
Proof.
  unfold mergeStep, mapHas.
  destruct (isOverload fn); simpl; [|apply mapSet_NoDup].
  destruct (mapGet m (functionName fn)); apply mapSet_NoDup.
Qed.

Lemma mergeFunctions_NoDup functions : NoDup (mergeFunctions functions).*1.
Proof.
  induction functions as [|fn functions IH] using rev_ind.
  - apply NoDup_nil_2.
  - rewrite mergeFunctions_snoc. by apply mergeStep_NoDup.
Qed.

(** Merging an overload into the entry of its name. *)
Lemma mergeStep_overload m fn existing :
  isOverload fn = true -> mapGet m (functionName fn) = Some existing ->
  mapGet (mergeStep m fn) (functionName fn) = Some (mergeOverload existing fn) /\
  (mergeStep m fn).*1 = m.*1.
Proof.
  intros Ho Hget. unfold mergeStep, mapHas. rewrite Ho, Hget. simpl. split.
  - apply mapGet_mapSet_eq.
  - apply mapSet_keys_present. by rewrite Hget.
Qed.

Lemma ofTable_adjacent pre e1 e2 post :
  tableName e1 = tableName e2 ->
  mapGet (groupByTable (pre ++ e1 :: e2 :: post)) (tableName e2)
    = Some (ofTable (tableName e2) pre ++ e1 :: e2 :: ofTable (tableName e2) post).
Proof.
  intros Ht.
  pose proof (groupByTable_lookup (pre ++ e1 :: e2 :: post) (tableName e2)) as H.
  unfold ofTable in *. rewrite filter_app, !filter_cons in H.
  rewrite !decide_True in H by done.
  destruct (mapGet _ _) as [l|]; simpl in H; [by rewrite H|].
  by destruct (filter _ pre).
Qed.

(** *** Merged records and stored rows *)

Lemma append_associative (a b c : string) : (a +:+ b) +:+ c = a +:+ b +:+ c.
Proof.
  induction a as [|x a IH]; [done|].
  change (String x ((a +:+ b) +:+ c) = String x (a +:+ b +:+ c)). by rewrite IH.
Qed.

Lemma join_snoc sep (l : list string) x :
  l <> [] -> join sep (l ++ [x]) = join sep l +:+ sep +:+ x.
Proof.
  induction l as [|a l IH]; intros Hne; [done|].
  destruct l as [|b l]; [done|].
  change (join sep ((a :: b :: l) ++ [x]))
    with (a +:+ sep +:+ join sep ((b :: l) ++ [x])).
  rewrite IH by done.
  change (join sep (a :: b :: l)) with (a +:+ sep +:+ join sep (b :: l)).
  by rewrite !append_associative.
Qed.

Lemma max_list_snoc (l : list nat) x : max_list (l ++ [x]) = max_list l `max` x.
Proof. induction l as [|y l IH]; simpl; lia. Qed.

(** What a run of overloads merged into [first] gives. *)
Lemma foldl_mergeOverload first run :
  let merged := foldl mergeOverload first run in
  tableName merged = tableName first /\ functionName merged = functionName first /\
  isOverload merged = isOverload first /\
  sourceFile merged = sourceFile first /\ lineNumber merged = lineNumber first /\
  signature merged = join (String newline EmptyString) (signature <$> first :: run) /\
  length (parameters merged)
    = max_list ((fun fn => length (parameters fn)) <$> first :: run) /\
  exists fn, fn ∈ first :: run /\
             parameters merged = parameters fn /\ returnType merged = returnType fn.
Proof.
  induction run as [|fn run IH] using rev_ind.
  - simpl. split_and!; try done; [lia|]. exists first. split; [left|done].
  - rewrite foldl_app. cbn [foldl].
    destruct IH as (H1 & H2 & H3 & H4 & H5 & H6 & H7 & source & Hin & H8 & H9).
    set (existing := foldl mergeOverload first run) in *.
    split_and!; try done.
    + unfold mergeOverload. cbn [signature].
      rewrite H6, (app_comm_cons run [fn]), fmap_app.
      change (signature <$> [fn]) with [signature fn].
      by rewrite join_snoc.
    + rewrite (app_comm_cons run [fn]), fmap_app.
      change ((fun fn => length (parameters fn)) <$> [fn])
        with [length (parameters fn)].
      rewrite max_list_snoc, <-H7.
      unfold mergeOverload. cbn [parameters].
      destruct (Nat.ltb_spec (length (parameters existing)) (length (parameters fn)));
        lia.
    + unfold mergeOverload. cbn [parameters returnType].
      destruct (Nat.ltb (length (parameters existing)) (length (parameters fn))).
      * exists fn. split; [|done]. rewrite (app_comm_cons run [fn]).
        apply elem_of_app. right. left.
      * exists source. split; [|done]. rewrite (app_comm_cons run [fn]).
        apply elem_of_app. by left.
Qed.

Lemma mapGet_elem {V} (m : list (string * V)) k v : mapGet m k = Some v -> (k, v) ∈ m.
Proof.
  induction m as [|[k0 v0] m IH]; simpl; [done|].
  destruct (String.eqb k0 k) eqn:Hk.
  - apply String.eqb_eq in Hk as ->. intros [= ->]. left.
  - intros Hget. right. by apply IH.
Qed.

Lemma mapSet_elem {V} (m : list (string * V)) k v entry :
  entry ∈ mapSet m k v -> entry = (k, v) \/ entry ∈ m.
Proof.
  induction m as [|[k0 v0] m IH]; simpl.
  - intros ->%list_elem_of_singleton. by left.
  - destruct (String.eqb k0 k) eqn:Hk.
    + apply String.eqb_eq in Hk as ->.
      intros [->|Hin]%elem_of_cons; [by left|]. right. by right.
    + intros [->|Hin]%elem_of_cons; [right; left|].
      destruct (IH Hin) as [->|Hin']; [by left|]. right. by right.
Qed.

Lemma mapSet_keys {V} (m : list (string * V)) k v n :
  n ∈ (mapSet m k v).*1 <-> n = k \/ n ∈ m.*1.
Proof.
  destruct (mapGet m k) as [v0|] eqn:Hget.
  - rewrite mapSet_keys_present by (by rewrite Hget). split; [by right|].
    intros [->|Hin]; [|done].
    apply mapGet_elem in Hget. apply list_elem_of_fmap. by exists (k, v0).
  - rewrite mapSet_keys_absent by done. rewrite elem_of_app, list_elem_of_singleton.
    tauto.
Qed.

Lemma mergeStep_keys m fn n :
  n ∈ (mergeStep m fn).*1 <-> n = functionName fn \/ n ∈ m.*1.
Proof.
  unfold mergeStep, mapHas.
  destruct (isOverload fn); simpl; [|apply mapSet_keys].
  destruct (mapGet m (functionName fn)); apply mapSet_keys.
Qed.

Lemma mergeStep_named m fn :
  Forall (fun entry => functionName entry.2 = entry.1) m ->
  Forall (fun entry => functionName entry.2 = entry.1) (mergeStep m fn).
Proof.
  intros Hm. apply Forall_forall. intros entry Hin.
  assert (forall v, functionName v = functionName fn ->
            entry ∈ mapSet m (functionName fn) v -> functionName entry.2 = entry.1)
    as Hset.
  { intros v Hv [->|Hin']%mapSet_elem; [done|]. by eapply Forall_forall in Hm. }
  unfold mergeStep, mapHas in Hin.
  destruct (isOverload fn); simpl in Hin; [|by apply (Hset fn)].
  destruct (mapGet m (functionName fn)) as [existing|] eqn:Hget; [|by apply (Hset fn)].
  apply (Hset (mergeOverload existing fn)); [|done]. simpl.
  apply mapGet_elem in Hget. eapply Forall_forall in Hm; [|done]. exact Hm.
Qed.

Lemma mapGet_of_elem {V} (m : list (string * V)) k v :
  NoDup m.*1 -> (k, v) ∈ m -> mapGet m k = Some v.
Proof.
  induction m as [|[k0 v0] m IH]; [by intros _ ?%elem_of_nil|].
  rewrite fmap_cons, NoDup_cons. simpl.
  intros [Hk0 Hnd] [[= -> ->]|Hin]%elem_of_cons.
  - by rewrite String.eqb_refl.
  - destruct (String.eqb k0 k) eqn:Hk; [|by apply IH].
    apply String.eqb_eq in Hk as ->. exfalso. apply Hk0.
    apply list_elem_of_fmap. by exists (k, v).
Qed.

Lemma mergeFunctions_named functions :
  Forall (fun entry => functionName entry.2 = entry.1) (mergeFunctions functions).
Proof.
  induction functions as [|fn functions IH] using rev_ind; [done|].
  rewrite mergeFunctions_snoc. by apply mergeStep_named.
Qed.

(** The names of the merged records are the keys they are stored under. *)
Lemma mergeFunctions_names functions :
  functionName <$> (mergeFunctions functions).*2 = (mergeFunctions functions).*1.
Proof.
  pose proof (mergeFunctions_named functions) as Hnamed.
  induction Hnamed as [|[k v] m Hk _ IH]; [done|].
  rewrite !fmap_cons. simpl in *. by rewrite Hk, IH.
Qed.

Lemma foldl_mergeOverload_description first run :
  description (foldl mergeOverload first run) = mergedDescription first run.
Proof.
  unfold mergedDescription.
  induction run as [|fn run IH] using rev_ind; [done|].
  rewrite !foldl_app. simpl. by rewrite IH.
Qed.

Lemma mergeStep_lookup m fn :
  mapGet (mergeStep m fn) (functionName fn) = mergeInto (mapGet m (functionName fn)) fn.
Proof.
  unfold mergeStep, mapHas, mergeInto.
  destruct (isOverload fn), (mapGet m (functionName fn)); simpl;
    apply mapGet_mapSet_eq.
Qed.

Lemma mergeStep_lookup_ne m fn f :
  functionName fn <> f -> mapGet (mergeStep m fn) f = mapGet m f.
Proof.
  intros Hne. unfold mergeStep, mapHas.
  destruct (isOverload fn), (mapGet m (functionName fn)); simpl;
    by apply mapGet_mapSet_ne.
Qed.

(** The record of a name depends on the entries of that name only. *)
Lemma mergeFunctions_lookup functions f :
  mapGet (mergeFunctions functions) f
    = foldl mergeInto None (filter (fun fn => functionName fn = f) functions).
Proof.
  induction functions as [|fn functions IH] using rev_ind; [done|].
  rewrite mergeFunctions_snoc, filter_app, foldl_app, <-IH.
  rewrite filter_cons, filter_nil.
  destruct (decide (functionName fn = f)) as [<-|Hne]; simpl.
  - apply mergeStep_lookup.
  - by apply mergeStep_lookup_ne.
Qed.

(** The record of a name is merged from the last run of the name: the last
    entry of the name that starts a record, and the overloads behind it. *)
Lemma mergeFunctions_last_run functions before first run :
  filter (fun fn => functionName fn = functionName first) functions
    = before ++ first :: run ->
  before = [] \/ isOverload first = false ->
  Forall (fun fn => isOverload fn = true) run ->
  mapGet (mergeFunctions functions) (functionName first)
    = Some (foldl mergeOverload first run).
Proof.
  intros Hnamed Hfirst Hrun. rewrite mergeFunctions_lookup, Hnamed, foldl_app.
  assert (foldl mergeInto (foldl mergeInto None before) [first] = Some first) as Hstart.
  { simpl. destruct Hfirst as [->|Hno]; [done|].
    unfold mergeInto at 1. rewrite Hno. by destruct (foldl mergeInto None before). }
  change (first :: run) with ([first] ++ run). rewrite foldl_app, Hstart.
  clear Hnamed Hfirst Hstart. revert first.
  induction Hrun as [|fn run Hfn _ IH]; intros first; [done|].
  simpl. rewrite Hfn. apply IH.
Qed.

(** Every name that occurs has a last run. *)
Lemma last_run_exists (named : list ParsedFunction) :
  named <> [] ->
  exists before first run,
    named = before ++ first :: run /\
    (before = [] \/ isOverload first = false) /\
    Forall (fun fn => isOverload fn = true) run.
Proof.
  induction named as [|fn named IH] using rev_ind; [done|]. intros _.
  destruct named as [|fn0 named0] eqn:Hnamed using rev_ind.
  { exists [], fn, []. split_and!; [done|by left|done]. }
  clear IHnamed0. rewrite <-Hnamed in *.
  destruct (isOverload fn) eqn:Hfn.
  - destruct IH as (before & first & run & -> & Hfirst & Hrun).
    { rewrite Hnamed. by destruct named0. }
    exists before, first, (run ++ [fn]). split_and!; [|done|].
    + by rewrite <-app_assoc.
    + apply Forall_app. split; [done|]. by constructor.
  - exists named, fn, []. split_and!; [done|by right|done].
Qed.

Section Stringify.
Variable stringifyParams : list StoredParam -> string.
Variable stringifyExamples : list string -> string.

Local Abbreviation functionRow := (functionRow stringifyParams stringifyExamples).
Local Abbreviation insertFunction := (insertFunction stringifyParams stringifyExamples).
Local Abbreviation storeFunctions := (storeFunctions stringifyParams stringifyExamples).

(** What [INSERT OR REPLACE] leaves under a key. *)
Lemma insertFunction_key tableId db fn k :
  filter (fun row => key row = k) (lua_functions (insertFunction tableId db fn))
    = if decide (k = (tableId, functionName fn))
      then [functionRow (S (top db)) tableId fn]
      else filter (fun row => key row = k) (lua_functions db).
Proof.
  unfold ExtractLuaDocsStore.insertFunction. cbn [lua_functions].
  rewrite filter_app, filter_cons, filter_nil.
  change (key (functionRow (S (top db)) tableId fn)) with (tableId, functionName fn).
  destruct (decide (k = (tableId, functionName fn))) as [->|Hne].
  - rewrite decide_True by done.
    replace (filter _ (filter _ (lua_functions db))) with (@nil FunctionRow); [done|].
    symmetry. induction (lua_functions db) as [|row rows IH]; [done|].
    rewrite (filter_cons _ row). destruct (decide (key row <> _)) as [Hrow|Hrow]; [|done].
    rewrite filter_cons. by rewrite decide_False.
  - rewrite decide_False by done. rewrite app_nil_r.
    induction (lua_functions db) as [|row rows IH]; [done|].
    rewrite !(filter_cons _ row).
    destruct (decide (key row <> _)) as [Hrow|Hrow].
    + rewrite filter_cons. by rewrite IH.
    + rewrite decide_False; [done|]. intros Hk. apply Hrow. congruence.
Qed.

Lemma foldl_insertFunction_other tableId f merged : forall db,
  Forall (fun fn => functionName fn <> f) merged ->
  filter (fun row => key row = (tableId, f))
         (lua_functions (foldl (insertFunction tableId) db merged))
    = filter (fun row => key row = (tableId, f)) (lua_functions db).
Proof.
  induction merged as [|fn merged IH]; intros db Hother; [done|].
  apply Forall_cons in Hother as [Hfn Hother]. simpl.
  rewrite IH by done. rewrite insertFunction_key.
  rewrite decide_False; [done|]. congruence.
Qed.

(** After the loop over the merged records, the table holds one row for
    the key of each of them, made from that record. *)
Lemma foldl_insertFunction_key tableId merged : forall db fn,
  NoDup (functionName <$> merged) -> fn ∈ merged ->
  exists id,
    filter (fun row => key row = (tableId, functionName fn))
           (lua_functions (foldl (insertFunction tableId) db merged))
      = [functionRow id tableId fn].
Proof.
  induction merged as [|fn0 merged IH]; intros db fn Hnd Hin;
    [by apply elem_of_nil in Hin|].
  rewrite fmap_cons in Hnd. apply NoDup_cons in Hnd as [Hfn0 Hnd].
  apply elem_of_cons in Hin as [->|Hin]; [|by apply IH].
  exists (S (top db)). simpl. rewrite foldl_insertFunction_other.
  - rewrite insertFunction_key. by rewrite decide_True.
  - apply Forall_forall. intros fn1 Hfn1 Heq. apply Hfn0.
    rewrite <-Heq. apply list_elem_of_fmap. by exists fn1.
Qed.

(** What is stored under the name of a merged record. *)
Lemma storeFunctions_key tableId db functions merged :
  mapGet (mergeFunctions functions) (functionName merged) = Some merged ->
  exists id,
    filter (fun row => key row = (tableId, functionName merged))
           (lua_functions (storeFunctions tableId db functions))
      = [functionRow id tableId merged].
Proof.
  intros Hget. unfold ExtractLuaDocsStore.storeFunctions.
  apply foldl_insertFunction_key.
  - rewrite mergeFunctions_names. apply mergeFunctions_NoDup.
  - apply mapGet_elem in Hget. apply list_elem_of_fmap.
    by exists (functionName merged, merged).
Qed.

(** What is stored for the last run of a name. *)
Lemma storeFunctions_last_run tableId db functions before first run :
  filter (fun fn => functionName fn = functionName first) functions
    = before ++ first :: run ->
  before = [] \/ isOverload first = false ->
  Forall (fun fn => isOverload fn = true) run ->
  exists id,
    filter (fun row => key row = (tableId, functionName first))
           (lua_functions (storeFunctions tableId db functions))
      = [functionRow id tableId (foldl mergeOverload first run)].
Proof.
  intros Hnamed Hfirst Hrun.
  pose proof (mergeFunctions_last_run _ _ _ _ Hnamed Hfirst Hrun) as Hget.
  destruct (foldl_mergeOverload first run) as (_ & Hname & _).
  rewrite <-Hname in Hget |- *. by apply storeFunctions_key.
Qed.

End Stringify.





(** *** The heading of the spec *)

(** C4, as stated: in the heading as the claim writes it the parameter
    types are not quoted by backticks, and no parameter is recognized. *)
Lemma spawnItem_heading_counterexample :
  map (fun fn => (tableName fn, functionName fn, returnType fn, parameters fn))
      (parseMarkdownFile
         "#### `EntityId` world.spawnItem([String itemName], Vec2F position)"
         "world.md")
    = [("world", "spawnItem", "EntityId", [])] /\
  parseParameters "[String itemName], Vec2F position" = [].
Proof. split; by vm_compute. Qed.

(** C4, amended.  With its parameter types quoted by backticks, as the
    parameter pattern requires, the heading parses at depth 3 and at depth
    4 to table [world], function [spawnItem], return type [EntityId] and
    exactly two parameters, [itemName] optional and [position] required;
    without the backticks the same table, function and return type come
    with an empty parameter list. *)
Theorem spawnItem_heading_parses :
  let expected :=
    [("world", "spawnItem", "EntityId",
      [ {| name := "itemName"; type := "String"; optional := true |};
        {| name := "position"; type := "Vec2F"; optional := false |} ])] in
  let view fn := (tableName fn, functionName fn, returnType fn, parameters fn) in
  map view (parseMarkdownFile
    "### `EntityId` world.spawnItem([`String` itemName], `Vec2F` position)"
    "world.md") = expected /\
  map view (parseMarkdownFile
    "#### `EntityId` world.spawnItem([`String` itemName], `Vec2F` position)"
    "world.md") = expected /\
  parseSignatureLine
    "#### `EntityId` world.spawnItem([`String` itemName], `Vec2F` position)"
    = Some {| sig_returnType := "EntityId"; sig_tableName := "world";
              sig_functionName := "spawnItem";
              sig_rawParams := "[`String` itemName], `Vec2F` position" |} /\
  map view (parseMarkdownFile
    "### `EntityId` world.spawnItem([String itemName], Vec2F position)"
    "world.md") = [("world", "spawnItem", "EntityId", [])].
Proof. split_and!; by vm_compute. Qed.

End LuaDocsClaims.

(** ** Asset fields *)

Module OpenStarboundClaims.
Import JS JSFacts ExtractOpenStarbound Samples.

(** *** The loops over the matches have fuel enough *)

Lemma field_patterns_nonNullable :
  Forall (fun r => nonNullable r = true)
         [typedGetter; optGetter; genericOpt; converter; genericGet; contains].
Proof. repeat constructor. Qed.

(** *** The store only grows *)

Lemma extends_refl db : extends db db.
Proof. by split_and!. Qed.

Lemma extends_trans db1 db2 db3 : extends db1 db2 -> extends db2 db3 -> extends db1 db3.
Proof. intros (?&?&?) (?&?&?). split_and!; by etrans. Qed.

Lemma sameStore_extends db db' : sameStore db db' -> extends db db'.
Proof. intros (H1 & H2 & H3). unfold extends. by rewrite H1, H2, H3. Qed.

Lemma head_filter_prefix {A} (P : A -> Prop) `{!forall x, Decision (P x)}
    (l l' : list A) x :
  l `prefix_of` l' -> head (filter P l) = Some x -> head (filter P l') = Some x.
Proof.
  intros [k ->] Hx. rewrite filter_app.
  destruct (filter P l); [done|done].
Qed.

Lemma getAssetType_extends db db' sourceId name row :
  asset_types db `prefix_of` asset_types db' ->
  getAssetType db sourceId name = Some row ->
  getAssetType db' sourceId name = Some row.
Proof. apply head_filter_prefix. Qed.

Lemma hasField_spec db t path :
  hasField db t path = true <-> (t, path) ∈ fieldKeys db.
Proof.
  unfold hasField, fieldKeys. rewrite bool_decide_eq_true, Exists_exists.
  rewrite list_elem_of_fmap. split.
  - intros (row & Hrow & <- & <-). by exists row.
  - intros (row & [= -> ->] & Hrow). by exists row.
Qed.

Lemma hasField_extends db db' t path :
  asset_fields db `prefix_of` asset_fields db' ->
  hasField db t path = true -> hasField db' t path = true.
Proof.
  rewrite !hasField_spec. unfold fieldKeys. intros [k ->].
  rewrite fmap_app, elem_of_app. auto.
Qed.

Lemma covered_extends table sourceId db db' dbFile :
  extends db db' -> covered table sourceId db dbFile ->
  covered table sourceId db' dbFile.
Proof.
  intros (_ & Ht & Hf). unfold covered.
  destruct (mapGet table (fileName dbFile)) as [mapping|]; [|done].
  intros (row & Hrow & Hfields). exists row. split.
  - by eapply getAssetType_extends.
  - intros field Hin. eapply hasField_extends; [done|]. by apply Hfields.
Qed.

(** *** The single statements *)

Lemma insertSearch_sameStore db entityType entityId name content source :
  sameStore db (insertSearch db entityType entityId name content source).
Proof. done. Qed.

Lemma sameStore_refl db : sameStore db db.
Proof. done. Qed.

Lemma sameStore_trans db1 db2 db3 :
  sameStore db1 db2 -> sameStore db2 db3 -> sameStore db1 db3.
Proof. intros (?&?&?) (?&?&?). split_and!; congruence. Qed.

Lemma sameStore_sym db1 db2 : sameStore db1 db2 -> sameStore db2 db1.
Proof. intros (?&?&?). by split_and!. Qed.

Lemma insertField_extends db t path type description required defaultValue :
  extends db (insertField db t path type description required defaultValue) /\
  sources (insertField db t path type description required defaultValue) = sources db /\
  asset_types (insertField db t path type description required defaultValue)
    = asset_types db.
Proof.
  unfold insertField. destruct (hasField db t path).
  - split_and!; [apply extends_refl|done|done].
  - split_and!; [|done|done]. split_and!; simpl; [done|done|by apply prefix_app_r].
Qed.

Lemma insertField_stored db t path type description required defaultValue :
  hasField (insertField db t path type description required defaultValue) t path = true.
Proof.
  unfold insertField. destruct (hasField db t path) eqn:Hhas; [done|].
  apply hasField_spec. unfold fieldKeys. simpl.
  rewrite fmap_app, elem_of_app. right. simpl. apply list_elem_of_singleton. done.
Qed.

(** An insert that is ignored changes nothing; one that is not keeps the
    keys distinct. *)
Lemma insertField_present db t path type description required defaultValue :
  hasField db t path = true ->
  insertField db t path type description required defaultValue = db.
Proof. intros H. unfold insertField. by rewrite H. Qed.

Lemma insertField_NoDup db t path type description required defaultValue :
  NoDup (fieldKeys db) ->
  NoDup (fieldKeys (insertField db t path type description required defaultValue)).
Proof.
  intros Hnd. unfold insertField. destruct (hasField db t path) eqn:Hhas; [done|].
  unfold fieldKeys. simpl. rewrite fmap_app. apply NoDup_app. split_and!.
  - done.
  - intros key Hkey Hin. simpl in Hin. apply list_elem_of_singleton in Hin as ->.
    apply hasField_spec in Hkey. congruence.
  - simpl. apply NoDup_singleton.
Qed.

Lemma storeFields_extends t fields : forall db,
  extends db (foldl (storeField t) db fields) /\
  sources (foldl (storeField t) db fields) = sources db /\
  asset_types (foldl (storeField t) db fields) = asset_types db.
Proof.
  induction fields as [|field fields IH]; intros db; simpl.
  - split_and!; [apply extends_refl|done|done].
  - destruct (IH (storeField t db field)) as (He & Hs & Ht).
    destruct (insertField_extends db t (fieldName field) (type field)
                (fieldDescription field) (if optional field then 0 else 1)
                (defaultValue field)) as (He' & Hs' & Ht').
    split_and!; [by eapply extends_trans|by rewrite Hs|by rewrite Ht].
Qed.

Lemma storeFields_stored t fields : forall db field,
  field ∈ fields ->
  hasField (foldl (storeField t) db fields) t (fieldName field) = true.
Proof.
  induction fields as [|field0 fields IH]; intros db field Hin; simpl.
  - by apply elem_of_nil in Hin.
  - apply elem_of_cons in Hin as [->|Hin]; [|by apply IH].
    destruct (storeFields_extends t fields (storeField t db field0)) as ((_&_&Hf) & _).
    eapply hasField_extends; [done|]. apply insertField_stored.
Qed.

Lemma storeFields_present t fields : forall db,
  (forall field, field ∈ fields -> hasField db t (fieldName field) = true) ->
  foldl (storeField t) db fields = db.
Proof.
  induction fields as [|field fields IH]; intros db Hall; simpl; [done|].
  unfold storeField at 2. rewrite insertField_present.
  - apply IH. intros f Hf. apply Hall. by right.
  - apply Hall. by left.
Qed.

Lemma storeFields_NoDup t fields : forall db,
  NoDup (fieldKeys db) -> NoDup (fieldKeys (foldl (storeField t) db fields)).
Proof.
  induction fields as [|field fields IH]; intros db Hnd; simpl; [done|].
  apply IH. by apply insertField_NoDup.
Qed.

Lemma insertAssetType_extends db sourceId name extension description basePath :
  extends db (insertAssetType db sourceId name extension description basePath) /\
  sources (insertAssetType db sourceId name extension description basePath)
    = sources db /\
  asset_fields (insertAssetType db sourceId name extension description basePath)
    = asset_fields db.
Proof.
  unfold insertAssetType. destruct (getAssetType db sourceId name).
  - split_and!; [apply extends_refl|done|done].
  - split_and!; [|done|done]. split_and!; simpl; [done|by apply prefix_app_r|done].
Qed.

Lemma insertAssetType_stored db sourceId name extension description basePath :
  is_Some (getAssetType
             (insertAssetType db sourceId name extension description basePath)
             sourceId name).
Proof.
  unfold insertAssetType. destruct (getAssetType db sourceId name) eqn:Hget.
  - by rewrite Hget.
  - unfold getAssetType in *. simpl. rewrite filter_app.
    destruct (filter _ (asset_types db)); [|done].
    simpl. rewrite filter_cons. simpl. by rewrite decide_True.
Qed.

Lemma insertAssetType_present db sourceId name extension description basePath :
  is_Some (getAssetType db sourceId name) ->
  insertAssetType db sourceId name extension description basePath = db.
Proof. intros [row Hrow]. unfold insertAssetType. by rewrite Hrow. Qed.

(** *** One file, then all files *)

Section Store.
Variables (table : list (string * AssetMapping)) (sourceId : nat).

Lemma storeFile_extends db dbFile :
  extends db (storeFile table sourceId db dbFile) /\
  sources (storeFile table sourceId db dbFile) = sources db.
Proof.
  unfold storeFile. destruct (mapGet table (fileName dbFile)) as [mapping|];
    [|split; [apply extends_refl|done]].
  destruct (insertAssetType_extends db sourceId (map_assetType mapping)
              (map_extension mapping) (map_description mapping) EmptyString)
    as (He1 & Hs1 & _).
  destruct (getAssetType _ _ _) as [row|]; [|done].
  destruct (storeFields_extends (at_id row) (fields dbFile)
              (insertAssetType db sourceId (map_assetType mapping)
                 (map_extension mapping) (map_description mapping) EmptyString))
    as (He2 & Hs2 & _).
  split.
  - eapply extends_trans; [done|]. eapply extends_trans; [done|].
    apply sameStore_extends, insertSearch_sameStore.
  - simpl. by rewrite Hs2.
Qed.

Lemma storeFile_covers db dbFile :
  covered table sourceId (storeFile table sourceId db dbFile) dbFile.
Proof.
  unfold covered, storeFile.
  destruct (mapGet table (fileName dbFile)) as [mapping|]; [|done].
  set (db1 := insertAssetType db sourceId (map_assetType mapping)
                (map_extension mapping) (map_description mapping) EmptyString).
  destruct (insertAssetType_stored db sourceId (map_assetType mapping)
              (map_extension mapping) (map_description mapping) EmptyString)
    as [row Hrow].
  fold db1 in Hrow. rewrite Hrow.
  destruct (storeFields_extends (at_id row) (fields dbFile) db1) as (He & _ & Ht).
  exists row. split.
  - unfold getAssetType in *. simpl. by rewrite Ht.
  - intros field Hin. rewrite <-(storeFields_stored (at_id row) (fields dbFile) db1 field Hin).
    done.
Qed.

Lemma storeFile_covered db dbFile :
  covered table sourceId db dbFile ->
  sameStore db (storeFile table sourceId db dbFile).
Proof.
  unfold covered, storeFile.
  destruct (mapGet table (fileName dbFile)) as [mapping|]; [|done].
  intros (row & Hrow & Hfields).
  rewrite insertAssetType_present by (by rewrite Hrow).
  rewrite Hrow, storeFields_present by done.
  apply insertSearch_sameStore.
Qed.

Lemma covered_sameStore db db' dbFile :
  sameStore db db' -> covered table sourceId db dbFile ->
  covered table sourceId db' dbFile.
Proof. intros H. by apply covered_extends, sameStore_extends. Qed.

Lemma storeFiles_extends dbFiles : forall db,
  extends db (foldl (storeFile table sourceId) db dbFiles) /\
  sources (foldl (storeFile table sourceId) db dbFiles) = sources db.
Proof.
  induction dbFiles as [|dbFile dbFiles IH]; intros db; simpl.
  - split; [apply extends_refl|done].
  - destruct (IH (storeFile table sourceId db dbFile)) as (He & Hs).
    destruct (storeFile_extends db dbFile) as (He' & Hs').
    split; [by eapply extends_trans|by rewrite Hs].
Qed.

Lemma storeFiles_covers dbFiles : forall db dbFile,
  dbFile ∈ dbFiles ->
  covered table sourceId (foldl (storeFile table sourceId) db dbFiles) dbFile.
Proof.
  induction dbFiles as [|dbFile0 dbFiles IH]; intros db dbFile Hin; simpl.
  - by apply elem_of_nil in Hin.
  - apply elem_of_cons in Hin as [->|Hin]; [|by apply IH].
    eapply covered_extends; [|apply storeFile_covers].
    apply storeFiles_extends.
Qed.

Lemma storeFiles_covered dbFiles : forall db,
  (forall dbFile, dbFile ∈ dbFiles -> covered table sourceId db dbFile) ->
  sameStore db (foldl (storeFile table sourceId) db dbFiles).
Proof.
  induction dbFiles as [|dbFile dbFiles IH]; intros db Hall; simpl; [done|].
  assert (sameStore db (storeFile table sourceId db dbFile)) as Hsame.
  { apply storeFile_covered, Hall. by left. }
  eapply sameStore_trans; [done|]. apply IH.
  intros f Hf. eapply covered_sameStore; [done|]. apply Hall. by right.
Qed.

Lemma storeFile_NoDup db dbFile :
  NoDup (fieldKeys db) -> NoDup (fieldKeys (storeFile table sourceId db dbFile)).
Proof.
  intros Hnd. unfold storeFile.
  destruct (mapGet table (fileName dbFile)) as [mapping|]; [|done].
  destruct (insertAssetType_extends db sourceId (map_assetType mapping)
              (map_extension mapping) (map_description mapping) EmptyString)
    as (_ & _ & Hf).
  assert (NoDup (fieldKeys (insertAssetType db sourceId (map_assetType mapping)
              (map_extension mapping) (map_description mapping) EmptyString))) as Hnd1.
  { unfold fieldKeys. by rewrite Hf. }
  destruct (getAssetType _ _ _) as [row|]; [|done].
  by apply (storeFields_NoDup (at_id row) (fields dbFile)) in Hnd1.
Qed.

Lemma storeFiles_NoDup dbFiles : forall db,
  NoDup (fieldKeys db) ->
  NoDup (fieldKeys (foldl (storeFile table sourceId) db dbFiles)).
Proof.
  induction dbFiles as [|dbFile dbFiles IH]; intros db Hnd; simpl; [done|].
  by apply IH, storeFile_NoDup.
Qed.

End Store.

Lemma indexFields_sameStore db : sameStore db (indexFields db).
Proof.
  unfold indexFields. generalize (allFields db). intros rows.
  revert db. induction rows as [|[field assetName] rows IH]; intros db; simpl.
  - apply sameStore_refl.
  - eapply sameStore_trans; [|apply IH]. apply insertSearch_sameStore.
Qed.

(** The source is created once and found afterwards. *)
Lemma ensureSource_extends db :
  extends db (ensureSource db).1 /\
  asset_fields (ensureSource db).1 = asset_fields db.
Proof.
  unfold ensureSource. destruct (getSource db "openstarbound"); simpl.
  - split; [apply extends_refl|done].
  - split; [|done]. split_and!; simpl; [by apply prefix_app_r|done|done].
Qed.

Lemma ensureSource_again db db' :
  sources db' = sources (ensureSource db).1 ->
  ensureSource db' = (db', (ensureSource db).2).
Proof.
  unfold ensureSource, getSource. intros Hs.
  destruct (head (filter _ (sources db))) as [row|] eqn:Hrow; simpl in *.
  - by rewrite Hs, Hrow.
  - rewrite Hs, filter_app. simpl.
    destruct (filter _ (sources db)); [|done].
    rewrite app_nil_l, filter_cons, decide_True by done. done.
Qed.

Lemma insertExtractedDataWith_idempotent table db dbFiles :
  let once := insertExtractedDataWith table db dbFiles in
  asset_fields (insertExtractedDataWith table once dbFiles) = asset_fields once /\
  asset_fields db `prefix_of` asset_fields once /\
  (NoDup (fieldKeys db) -> NoDup (fieldKeys once)).
Proof.
  unfold insertExtractedDataWith.
  pose proof (ensureSource_extends db) as [He0 Hf0].
  pose proof (ensureSource_again db) as Hagain.
  destruct (ensureSource db) as [db0 sourceId]. simpl in *.
  set (stored := foldl (storeFile table sourceId) db0 dbFiles).
  destruct (storeFiles_extends table sourceId dbFiles db0) as [He1 Hs1].
  fold stored in He1, Hs1.
  pose proof (indexFields_sameStore stored) as Hidx.
  rewrite (Hagain (indexFields stored))
    by (destruct Hidx as (<- & _); done).
  split_and!.
  - assert (sameStore (indexFields stored)
              (foldl (storeFile table sourceId) (indexFields stored) dbFiles)) as Hsame.
    { apply storeFiles_covered. intros dbFile Hin.
      eapply covered_sameStore; [done|]. by apply storeFiles_covers. }
    pose proof (indexFields_sameStore
                  (foldl (storeFile table sourceId) (indexFields stored) dbFiles))
      as Hidx2.
    destruct Hsame as (_ & _ & ->). by destruct Hidx2 as (_ & _ & <-).
  - destruct Hidx as (_ & _ & <-). destruct He0 as (_ & _ & H0).
    destruct He1 as (_ & _ & H1). by etrans.
  - intros Hnd. unfold fieldKeys. destruct Hidx as (_ & _ & <-).
    apply (storeFiles_NoDup table sourceId dbFiles db0).
    unfold fieldKeys. by rewrite Hf0.
Qed.

(** C6.  A second run of the storage step on the same extracted files
    leaves the rows of [asset_fields] as the first run left them.  The
    rows there before a run are kept in place, so the definition inserted
    first stays; and no run creates two rows with the same asset type and
    field path. *)
Theorem field_storage_is_idempotent (db : Database) (dbFiles : list DatabaseFileInfo) :
  asset_fields (insertExtractedData (insertExtractedData db dbFiles) dbFiles)
    = asset_fields (insertExtractedData db dbFiles) /\
  asset_fields db `prefix_of` asset_fields (insertExtractedData db dbFiles) /\
  (NoDup (fieldKeys db) -> NoDup (fieldKeys (insertExtractedData db dbFiles))).
Proof. apply insertExtractedDataWith_idempotent. Qed.

Lemma field_storage_is_idempotent_witness :
  asset_fields (insertExtractedData (insertExtractedData emptyStore sampleDbFiles)
                                    sampleDbFiles)
    = asset_fields (insertExtractedData emptyStore sampleDbFiles) /\
  NoDup (fieldKeys (insertExtractedData emptyStore sampleDbFiles)).
Proof.
  destruct (field_storage_is_idempotent emptyStore sampleDbFiles) as (H1 & _ & H3).
  split; [exact H1|]. apply H3. apply NoDup_nil_2.
Defined.

Example field_storage_sample :
  (fun row => (af_asset_type_id row, af_field_path row, af_type row,
               af_required row, af_default_value row))
    <$> asset_fields (insertExtractedData
                        (insertExtractedData emptyStore sampleDbFiles) sampleDbFiles)
  = [ (1, "foo", "String", 1, None); (1, "speed", "Float", 0, Some "1.0f") ].
Proof. by vm_compute. Qed.

(** What the guard of pattern 6 tests: the bare name and the key name:Json
    against [seen], whose keys all have the form name:type.  A candidate
    of the same name and another type does not stop the presence check. *)
Lemma pattern6_adds content fileName (st : extraction) (m : MatchResult) :
  group 1 m ∉ st.2 -> fieldKey (group 1 m) "Json" ∉ st.2 ->
  (pattern6 content fileName st m).1
    = st.1 ++ [mkField content fileName (group 1 m) "Json" None true m].
Proof.
  intros Hname Hkey. unfold pattern6. rewrite decide_False by done.
  destruct st as [fields seen]. simpl in *. by rewrite decide_False.
Qed.

(** C9, at a field read by a typed getter and then tested for presence: the
    presence check adds a second, untyped candidate for the same name, the
    keys in [seen] being of the form name:type. *)
Theorem presence_check_of_captured_field :
  (fun field => (fieldName field, type field, optional field))
    <$> extractFieldsFromFile
          ("auto x = config.getString(" +:+ dq "foo" +:+ "); "
           +:+ "if (config.contains(" +:+ dq "foo" +:+ ")) {}")
          "StarTechDatabase.cpp"
  = [ ("foo", "String", false); ("foo", "Json", true) ].
Proof. by vm_compute. Qed.

End OpenStarboundClaims.

(** ** The sanitizer: what is removed and what is left *)

Module SanitizerExtras.
Import Sanitizer SanitizerFacts SanitizerClaims SanitizerShapes.

(** The output is what the loop had after [n] iterations followed by what
    it produces from there. *)
Lemma stripChars_from text n :
  stripChars text
    = result (loop n (init text))
        ++ strip (inString (loop n (init text))) (stringChar (loop n (init text)))
                 (rest (loop n (init text))).
Proof.
  unfold stripChars at 1.
  rewrite (loop_fuel _ (n + length text)) by (simpl; lia).
  rewrite loop_add. apply loop_strip.
  pose proof (loop_rest_length n (init text)) as Hle. by simpl in Hle.
Qed.

Lemma strip_outside sc text : strip false sc text = stripChars text.
Proof. rewrite stripChars_strip. by apply (strip_outside_stringChar (length text)). Qed.

Lemma skipLineComment_newline body post :
  newline ∉ body -> skipLineComment (body ++ newline :: post) = newline :: post.
Proof.
  induction body as [|c tl IH]; intros Hno; simpl; [done|].
  destruct (Ascii.eqb c newline) eqn:Hc.
  - apply Ascii.eqb_eq in Hc as ->. exfalso. apply Hno. by left.
  - apply IH. intros Hin. apply Hno. by right.
Qed.

Lemma skipLineComment_end body : newline ∉ body -> skipLineComment body = [].
Proof.
  induction body as [|c tl IH]; intros Hno; simpl; [done|].
  destruct (Ascii.eqb c newline) eqn:Hc.
  - apply Ascii.eqb_eq in Hc as ->. exfalso. apply Hno. by left.
  - apply IH. intros Hin. apply Hno. by right.
Qed.

Lemma skipBlockComment_close body post :
  closesBlock body = false ->
  skipBlockComment (body ++ star :: slash :: post) = star :: slash :: post.
Proof.
  induction body as [|c tl IH]; intros Hno.
  - done.
  - destruct tl as [|d tl'].
    + simpl. by rewrite andb_false_r.
    + cbn [closesBlock] in Hno. apply orb_false_iff in Hno as [Hcd Hno].
      change ((c :: d :: tl') ++ star :: slash :: post)
        with (c :: d :: (tl' ++ star :: slash :: post)).
      cbn [skipBlockComment]. rewrite Hcd.
      by apply IH.
Qed.

Lemma skipBlockComment_open body :
  closesBlock body = false -> drop 2 (skipBlockComment body) = [].
Proof.
  induction body as [|c tl IH]; intros Hno; [done|].
  destruct tl as [|d tl']; [done|].
  cbn [closesBlock] in Hno. apply orb_false_iff in Hno as [Hcd Hno].
  cbn [skipBlockComment]. rewrite Hcd. by apply IH.
Qed.

(** X1.  A line comment outside of strings is removed up to the end of its
    line, and the line feed that ends it is kept.  Whenever the loop stands
    outside a string at the two slashes, and [body] is the rest of the line,
    the output is what was produced so far, the line feed, and the
    sanitized rest of the text. *)
Theorem line_comment_removed (text : list ascii) (n : nat) (body post : list ascii) :
  inString (loop n (init text)) = false ->
  rest (loop n (init text)) = slash :: slash :: body ++ newline :: post ->
  newline ∉ body ->
  stripChars text = result (loop n (init text)) ++ newline :: stripChars post.
Proof.
  intros Hin Hrest Hbody.
  rewrite (stripChars_from text n), Hin, Hrest. f_equal.
  erewrite strip_step; [|unfold step; simpl; reflexivity].
  cbn [result inString stringChar rest app].
  rewrite skipLineComment_newline by done.
  erewrite strip_step; [|unfold step; simpl; reflexivity].
  simpl. f_equal. apply strip_outside.
Qed.

(** X2.  A terminated block comment outside of strings is removed with its
    opener and its terminator and nothing else: when [body] holds no
    terminator, the output is what was produced so far followed by the
    sanitized text behind the terminator. *)
Theorem block_comment_removed (text : list ascii) (n : nat) (body post : list ascii) :
  inString (loop n (init text)) = false ->
  rest (loop n (init text)) = slash :: star :: body ++ star :: slash :: post ->
  closesBlock body = false ->
  stripChars text = result (loop n (init text)) ++ stripChars post.
Proof.
  intros Hin Hrest Hbody.
  rewrite (stripChars_from text n), Hin, Hrest. f_equal.
  erewrite strip_step; [|unfold step; cbn [rest inString isQuote]; reflexivity].
  cbn [result inString stringChar rest app].
  rewrite skipBlockComment_close by done.
  apply strip_outside.
Qed.

(** X3.  An unterminated comment swallows the rest of the text and raises
    nothing: a line comment on the last line, without a line feed, and a
    block comment whose terminator never comes (a lone star at the very end
    included) both end the output where they start. *)
Theorem unterminated_comment_drops_rest (text : list ascii) (n : nat)
    (d : ascii) (body : list ascii) :
  inString (loop n (init text)) = false ->
  rest (loop n (init text)) = slash :: d :: body ->
  (d = slash /\ newline ∉ body) \/ (d = star /\ closesBlock body = false) ->
  stripChars text = result (loop n (init text)).
Proof.
  intros Hin Hrest Hbody.
  rewrite (stripChars_from text n), Hin, Hrest.
  rewrite <-(app_nil_r (result _)) at 2. f_equal.
  destruct Hbody as [[-> Hbody]|[-> Hbody]].
  - erewrite strip_step; [|unfold step; simpl; reflexivity].
    cbn [result inString stringChar rest app].
    by rewrite skipLineComment_end.
  - erewrite strip_step; [|unfold step; cbn [rest inString isQuote]; reflexivity].
    cbn [result inString stringChar rest app].
    by rewrite skipBlockComment_open.
Qed.

(** Inside a literal that is never closed everything is copied. *)
Lemma strip_open_string n : forall q body,
  length body <= n -> Ascii.eqb q backslash = false ->
  closesString q body = false -> strip true (Some q) body = body.
Proof.
  induction n as [|n IH]; intros q body Hn Hq Hbody.
  { destruct body; [done|simpl in Hn; lia]. }
  destruct body as [|c tl]; [done|]. simpl in Hn, Hbody.
  destruct (Ascii.eqb c backslash) eqn:Hc.
  - destruct tl as [|e tl'].
    + erewrite strip_step; [|unfold step; simpl; rewrite Hc; reflexivity]. done.
    + simpl in Hn.
      erewrite strip_step; [|unfold step; simpl; rewrite Hc; reflexivity].
      simpl. do 2 f_equal. apply IH; [lia|done|done].
  - destruct (Ascii.eqb c q) eqn:Hcq; [done|].
    erewrite strip_step.
    2:{ unfold step; simpl; rewrite Hc.
        instantiate (1 := {| result := [c]; inString := true;
                             stringChar := Some q; rest := tl |}).
        rewrite Hcq. by destruct tl. }
    simpl. f_equal. apply IH; [lia|done|done].
Qed.

(** X4.  A string literal that is never closed protects the rest of the
    text: everything behind the opening quote is copied, comment openers
    included. *)
Theorem unterminated_string_is_copied (text : list ascii) (n : nat) (q : ascii)
    (body : list ascii) :
  inString (loop n (init text)) = false ->
  rest (loop n (init text)) = q :: body ->
  isQuote q = true ->
  closesString q body = false ->
  stripChars text = result (loop n (init text)) ++ q :: body.
Proof.
  intros Hin Hrest Hq Hbody.
  rewrite (stripChars_from text n), Hin, Hrest. f_equal.
  erewrite strip_step; [|unfold step; simpl; rewrite Hq; reflexivity].
  simpl. f_equal.
  apply (strip_open_string (length body)); [done|by apply isQuote_not_backslash|done].
Qed.

(** Outside a string a character other than the slash is copied first. *)
Lemma strip_head sc d tl :
  Ascii.eqb d slash = false ->
  exists b sc', strip false sc (d :: tl) = d :: strip b sc' tl.
Proof.
  intros Hd.
  destruct (isQuote d) eqn:Hq.
  - exists true, (Some d).
    erewrite strip_step; [|unfold step; simpl; rewrite Hq; reflexivity]. done.
  - exists false, sc.
    erewrite strip_step; [|unfold step; simpl; rewrite Hq, Hd; reflexivity]. done.
Qed.

(** What the loop appends holds no comment opener outside of strings. *)
Lemma strip_leaves_no_comment n : forall text,
  length text <= n ->
  (forall sc, commentOutsideString None (strip false sc text) = false) /\
  (forall q, commentOutsideString (Some q) (strip true (Some q) text) = false).
Proof.
  induction n as [|n IH]; intros text Hn.
  { destruct text; [done|simpl in Hn; lia]. }
  destruct text as [|c tl]; [done|]. simpl in Hn.
  assert (length tl <= n) as Htl by lia.
  destruct (IH tl Htl) as [IHout IHin].
  split.
  - intros sc.
    destruct (step {| result := []; inString := false; stringChar := sc;
                      rest := c :: tl |}) as [s1|] eqn:H1;
      [|by apply step_None in H1].
    rewrite (strip_step _ _ _ _ H1).
    pose proof (step_shorter _ _ H1) as Hlt. simpl in Hlt.
    unfold step in H1. cbn [rest inString stringChar result] in H1.
    destruct (isQuote c) eqn:Hq.
    { injection H1 as <-. simpl. rewrite Hq. apply IHin. }
    destruct (Ascii.eqb c slash) eqn:Hc, tl as [|d tl'].
    + injection H1 as <-. simpl. by rewrite Hq.
    + destruct (Ascii.eqb d slash) eqn:Hd; [|destruct (Ascii.eqb d star) eqn:Hs];
        injection H1 as <-; cbn [rest inString stringChar result app] in *.
      * apply IH. lia.
      * apply IH. lia.
      * destruct (strip_head sc d tl' Hd) as (b & sc' & Heq).
        pose proof (IHout sc) as Hrec. rewrite Heq in Hrec |- *.
        cbn [commentOutsideString]. rewrite Hq, Hd, Hs. cbn [orb].
        rewrite andb_false_r.
        cbn [commentOutsideString] in Hrec. by rewrite Hd in Hrec.
    + injection H1 as <-. simpl. by rewrite Hq.
    + injection H1 as <-. cbn [rest inString stringChar result app] in *.
      cbn [commentOutsideString]. rewrite Hq.
      destruct (strip false sc (d :: tl')) as [|e out] eqn:Hout; [done|].
      rewrite Hc. cbn [andb]. rewrite <-Hout. apply IHout.
  - intros q.
    destruct (Ascii.eqb c backslash) eqn:Hc.
    + destruct tl as [|d tl'].
      { erewrite strip_step; [|unfold step; simpl; rewrite Hc; reflexivity].
        simpl. by rewrite Hc. }
      erewrite strip_step; [|unfold step; simpl; rewrite Hc; reflexivity].
      simpl. rewrite Hc.
      simpl in Htl. destruct (IH tl') as [_ IH']; [lia|]. apply IH'.
    + erewrite strip_step.
      2:{ unfold step; simpl; rewrite Hc.
          instantiate (1 := {| result := [c]; inString := negb (Ascii.eqb c q);
                               stringChar := Some q; rest := tl |}).
          by destruct tl. }
      simpl. rewrite Hc.
      destruct (Ascii.eqb c q); simpl; [apply IHout|apply IHin].
Qed.

(** X5.  The output holds no comment: no comment opener is left outside of
    the string literals of the output. *)
Theorem no_comment_left (text : string) :
  hasCommentOutsideString (stripJsonComments text) = false.
Proof.
  unfold hasCommentOutsideString, stripJsonComments.
  rewrite list_ascii_of_string_of_list_ascii, stripChars_strip.
  by apply (strip_leaves_no_comment (length (list_ascii_of_string text))).
Qed.

(** X6.  Sanitizing is idempotent: sanitizing a sanitized text changes
    nothing. *)
Theorem stripJsonComments_idempotent (text : string) :
  stripJsonComments (stripJsonComments text) = stripJsonComments text.
Proof.
  unfold stripJsonComments.
  rewrite list_ascii_of_string_of_list_ascii. f_equal.
  set (out := stripChars (list_ascii_of_string text)).
  rewrite stripChars_strip.
  destruct (strip_no_comment _ out (Nat.le_refl _)) as [Hout _].
  apply Hout. unfold out. rewrite stripChars_strip.
  by apply (strip_leaves_no_comment (length (list_ascii_of_string text))).
Qed.

Lemma line_comment_removed_witness :
  let text := list_ascii_of_string ("[1, // one" +:+ String newline "2]") in
  stripChars text
    = result (loop 4 (init text)) ++ newline :: stripChars (list_ascii_of_string "2]").
Proof.
  apply (line_comment_removed
           (list_ascii_of_string ("[1, // one" +:+ String newline "2]")) 4
           (list_ascii_of_string " one") (list_ascii_of_string "2]")).
  - reflexivity.
  - reflexivity.
  - apply (bool_decide_unpack _). by vm_compute.
Defined.

Lemma block_comment_removed_witness :
  let text := list_ascii_of_string "[1, /* a * b */ 2]" in
  stripChars text
    = result (loop 4 (init text)) ++ stripChars (list_ascii_of_string " 2]").
Proof.
  apply (block_comment_removed (list_ascii_of_string "[1, /* a * b */ 2]") 4
           (list_ascii_of_string " a * b ") (list_ascii_of_string " 2]"));
    reflexivity.
Defined.

Lemma unterminated_comment_drops_rest_witness :
  let text := list_ascii_of_string "{} /* open *" in
  stripChars text = result (loop 3 (init text)).
Proof.
  apply (unterminated_comment_drops_rest (list_ascii_of_string "{} /* open *") 3
           star (list_ascii_of_string " open *")).
  - reflexivity.
  - reflexivity.
  - right. split; reflexivity.
Defined.

Lemma unterminated_string_is_copied_witness :
  let text := list_ascii_of_string ("x = " +:+ String dquote "abc // d") in
  stripChars text
    = result (loop 4 (init text)) ++ dquote :: list_ascii_of_string "abc // d".
Proof.
  apply (unterminated_string_is_copied
           (list_ascii_of_string ("x = " +:+ String dquote "abc // d")) 4
           dquote (list_ascii_of_string "abc // d"));
    reflexivity.
Defined.

End SanitizerExtras.

(** ** Recipes and research trees: further properties *)

Module ExtractFuExtras.
Import JS ExtractFu Samples ExtractFuClaims ExtractFuShapes.

Section Recipes.
Variable readJsonFile : string -> json.

Local Abbreviation extractRecipes := (extractRecipes readJsonFile).
Local Abbreviation pushRecipe := (pushRecipe readJsonFile).

Lemma extractRecipes_cons file recipeFiles :
  extractRecipes (file :: recipeFiles)
    = match parseRecipe (readJsonFile file) with
      | Skipped => extractRecipes recipeFiles
      | Pushed recipe => (recipe ::.) <$> extractRecipes recipeFiles
      | Thrown => None
      end.
Proof.
  unfold ExtractFu.extractRecipes. simpl.
  destruct (parseRecipe (readJsonFile file)) as [|recipe|].
  - done.
  - by rewrite foldl_pushRecipe.
  - apply foldl_pushRecipe_thrown.
Qed.

(** X7.  What a run of [extractRecipes] gives.  It ends with an uncaught
    exception exactly when some file passes the guards with an input that
    is no array or that holds a null; otherwise it returns the records of
    the files that pass, one for each, in the order of the files. *)
Theorem extractRecipes_outcomes (recipeFiles : list string) :
  (extractRecipes recipeFiles = None
   <-> exists file, file ∈ recipeFiles /\ parseRecipe (readJsonFile file) = Thrown) /\
  (forall recipes, extractRecipes recipeFiles = Some recipes ->
     recipes = omap (fun file => pushed (parseRecipe (readJsonFile file))) recipeFiles).
Proof.
  induction recipeFiles as [|file l [IHn IHs]].
  - split; [|by intros recipes [= <-]].
    split; [done|]. intros (file & Hin & _). by apply elem_of_nil in Hin.
  - rewrite extractRecipes_cons.
    destruct (parseRecipe (readJsonFile file)) as [|recipe|] eqn:Hfile.
    + split.
      * rewrite IHn. split.
        -- intros (f & Hin & Hf). exists f. split; [by right|done].
        -- intros (f & [->|Hin]%elem_of_cons & Hf); [congruence|]. by exists f.
      * intros recipes Hrs. simpl. rewrite Hfile. simpl. by apply IHs.
    + split.
      * destruct (ExtractFu.extractRecipes readJsonFile l) as [rs|] eqn:Hl; simpl.
        -- split; [done|].
           intros (f & [->|Hin]%elem_of_cons & Hf); [congruence|].
           assert (Some rs = None) as Hbad by (apply IHn; by exists f). done.
        -- split; [|done]. intros _.
           destruct IHn as [IHn _]. destruct (IHn eq_refl) as (f & Hin & Hf).
           exists f. split; [by right|done].
      * intros recipes Hrs. simpl. rewrite Hfile. simpl.
        destruct (ExtractFu.extractRecipes readJsonFile l) as [rs|]; [|done].
        injection Hrs as <-. f_equal. by apply IHs.
    + split; [|done]. split; [|done]. intros _. exists file. split; [by left|done].
Qed.

(** A record is pushed only with a truthy output item, from an input
    array, and with its counts and groups defaulted. *)
Lemma orElse_not_null v d : d <> JNull -> orElse v d <> JNull.
Proof. intros Hd. by destruct v as [[]|]. Qed.

Lemma parseRecipe_pushed data recipe :
  parseRecipe data = Pushed recipe ->
  truthyValue (outputItem recipe) = true /\
  outputCount recipe <> JNull /\ groups recipe <> JNull /\
  Forall (fun i => i.2 <> JNull) (inputs recipe) /\
  exists items, getProp data "input" = Some (JArr items) /\
                mapM inputOf items = Some (inputs recipe).
Proof.
  unfold parseRecipe.
  destruct (negb (truthyValue data) || negb (truthyProp (getProp data "output"))
            || negb (truthyProp (getProp data "input"))); [done|].
  destruct (truthyProp (getProp (default JNull (getProp data "output")) "item"))
    eqn:Hitem; [|done]. simpl.
  destruct (getProp data "input") as [[| | | |items|]|]; simpl; try done.
  destruct (mapM inputOf items) as [inputs|] eqn:Hinputs; [|done].
  intros [= <-]. simpl. split_and!.
  - by destruct (getProp (default JNull (getProp data "output")) "item").
  - by apply orElse_not_null.
  - by apply orElse_not_null.
  - apply mapM_Some in Hinputs. induction Hinputs as [|i o ? ? Hi _ IH]; [done|].
    constructor; [|done].
    destruct i; try done; injection Hi as <-; cbn [snd];
      first [done | by apply orElse_not_null].
  - by exists items.
Qed.

(** X8.  Every record returned has a truthy output item; its output count
    and its groups are never null and no input count is, the defaults
    having been put in; and it is the record pushed for one of the files,
    whose input is an array, with one input for each element of that array:
    the item of the element and its count, or 1. *)
Theorem extracted_recipes_are_defaulted (recipeFiles : list string)
    (recipes : list ParsedRecipe) (recipe : ParsedRecipe) :
  extractRecipes recipeFiles = Some recipes -> recipe ∈ recipes ->
  truthyValue (outputItem recipe) = true /\
  outputCount recipe <> JNull /\ groups recipe <> JNull /\
  Forall (fun i => i.2 <> JNull) (inputs recipe) /\
  exists file items,
    file ∈ recipeFiles /\
    parseRecipe (readJsonFile file) = Pushed recipe /\
    getProp (readJsonFile file) "input" = Some (JArr items) /\
    length (inputs recipe) = length items /\
    Forall2 (fun i input =>
               input = (getProp i "item", orElse (getProp i "count") (JNum 1)))
            items (inputs recipe).
Proof.
  revert recipes. induction recipeFiles as [|file l IH]; intros recipes.
  { intros [= <-] Hin. by apply elem_of_nil in Hin. }
  rewrite extractRecipes_cons.
  assert (forall rs, ExtractFu.extractRecipes readJsonFile l = Some rs -> recipe ∈ rs ->
            truthyValue (outputItem recipe) = true /\
            outputCount recipe <> JNull /\ groups recipe <> JNull /\
            Forall (fun i => i.2 <> JNull) (inputs recipe) /\
            exists file' items,
              file' ∈ file :: l /\
              parseRecipe (readJsonFile file') = Pushed recipe /\
              getProp (readJsonFile file') "input" = Some (JArr items) /\
              length (inputs recipe) = length items /\
              Forall2 (fun i input =>
                         input = (getProp i "item",
                                  orElse (getProp i "count") (JNum 1)))
                      items (inputs recipe)) as IH'.
  { intros rs Hrs Hin.
    destruct (IH rs Hrs Hin) as (H1 & H2 & H3 & H4 & file' & items & H5 & H6).
    split_and!; [done..|]. exists file', items. split; [by right|done]. }
  destruct (parseRecipe (readJsonFile file)) as [|first|] eqn:Hfile; [by apply IH'| |done].
  destruct (ExtractFu.extractRecipes readJsonFile l) as [rs|]; [|done].
  intros [= <-] [->|Hin]%elem_of_cons; [|by apply (IH' rs)].
  destruct (parseRecipe_pushed _ _ Hfile) as (H1 & H2 & H3 & H4 & items & H5 & H6).
  split_and!; [done..|]. exists file, items.
  apply mapM_Some in H6.
  split_and!; [by left|done|done|symmetry; by eapply Forall2_length|].
  eapply Forall2_impl; [exact H6|]. intros i input. unfold inputOf.
  destruct i; [done|by intros [= <-]..].
Qed.

End Recipes.

Lemma extracted_recipes_are_defaulted_witness :
  truthyValue (outputItem (sampleRecipeOf "a.recipe")) = true /\
  outputCount (sampleRecipeOf "a.recipe") <> JNull /\
  exists file,
    file ∈ ["a.recipe"; "b.recipe"; "c.recipe"] /\
    parseRecipe (sampleRecipeFiles file) = Pushed (sampleRecipeOf "a.recipe").
Proof.
  destruct (extracted_recipes_are_defaulted sampleRecipeFiles
              ["a.recipe"; "b.recipe"; "c.recipe"]
              [sampleRecipeOf "a.recipe"; sampleRecipeOf "c.recipe"]
              (sampleRecipeOf "a.recipe"))
    as (H1 & H2 & _ & _ & file & items & H3 & H4 & _).
  - reflexivity.
  - by left.
  - split_and!; [exact H1|exact H2|]. exists file. exact (conj H3 H4).
Defined.

Lemma extractRecipes_outcomes_witness :
  extractRecipes sampleRecipeFiles ["a.recipe"; "e.recipe"; "c.recipe"] = None.
Proof.
  apply (proj1 (extractRecipes_outcomes sampleRecipeFiles
                  ["a.recipe"; "e.recipe"; "c.recipe"])).
  exists "e.recipe". split; [|reflexivity]. right. left.
Defined.

Section ResearchTrees.
Variable readJsonFile : string -> option ConfigData.

Local Abbreviation parseNodes := (parseNodes readJsonFile).
Local Abbreviation buildChildToParent := (buildChildToParent readJsonFile).
Local Abbreviation extractResearchTrees := (extractResearchTrees readJsonFile).
Local Abbreviation fileNodes := (fileNodes readJsonFile).
Local Abbreviation fileEdges := (fileEdges readJsonFile).
Local Abbreviation fileTrees := (fileTrees readJsonFile).
Local Abbreviation listsChild := (listsChild readJsonFile).
Local Abbreviation declaresNode := (declaresNode readJsonFile).

(** X9.  The prerequisites of a node come in the order in which the second
    pass meets the listings (file by file, tree by tree, node by node, child
    by child), and a parent appears once for each time it lists the node:
    nothing is deduplicated. *)
Theorem prerequisites_in_scan_order (configFiles : list string)
    (node : ParsedResearchNode) :
  node ∈ extractResearchTrees configFiles ->
  prerequisites node
    = (filter (fun edge => edge.1 = nodeId node) (configFiles ≫= fileEdges)).*2.
Proof.
  intros (node0 & _ & ->)%extractResearchTrees_elem. simpl.
  by rewrite buildChildToParent_edges, foldl_addEdge_lookup, lookup_empty.
Qed.

Lemma listsChild_declares configFiles t a b :
  listsChild configFiles t a b -> declaresNode configFiles t a.
Proof.
  intros (file & data & trees & nodes & body & cs & H1 & H2 & H3 & H4 & H5 & _).
  by exists file, data, trees, nodes, body.
Qed.

(** X10.  Prerequisites never dangle: every prerequisite of an extracted
    node is the id of an extracted node. *)
Theorem prerequisites_are_extracted_nodes (configFiles : list string)
    (node : ParsedResearchNode) (p : string) :
  node ∈ extractResearchTrees configFiles -> p ∈ prerequisites node ->
  exists parent, parent ∈ extractResearchTrees configFiles /\ nodeId parent = p.
Proof.
  intros (node0 & _ & ->)%extractResearchTrees_elem. simpl.
  rewrite childToParent_elem, edges_listsChild.
  intros (t & a & b & Hlists & Hb & ->).
  destruct (parseNodes_declared readJsonFile configFiles t a) as (parent0 & Hin & Hid);
    [by eapply listsChild_declares|].
  exists (setPrerequisites parent0
            (default [] (buildChildToParent configFiles !! nodeId parent0))).
  split; [|done].
  apply extractResearchTrees_elem. by exists parent0.
Qed.

(** X11.  A config file that cannot be parsed or has no [researchTree]
    plays no part: both passes skip it, and the run with it is the run
    without it. *)
Theorem file_without_research_tree_is_skipped (before after : list string)
    (file : string) :
  readJsonFile file ≫= researchTree = None ->
  extractResearchTrees (before ++ file :: after)
    = extractResearchTrees (before ++ after).
Proof.
  intros Hno.
  assert (fileNodes file = []) as Hnodes.
  { unfold ExtractFu.fileNodes, ExtractFu.fileTrees. by rewrite Hno. }
  assert (fileEdges file = []) as Hedges.
  { unfold ExtractFu.fileEdges, ExtractFu.fileTrees. by rewrite Hno. }
  unfold ExtractFu.extractResearchTrees.
  rewrite !parseNodes_bind, !buildChildToParent_edges.
  rewrite !bind_app, !bind_cons, Hnodes, Hedges. done.
Qed.

End ResearchTrees.

Lemma prerequisites_in_scan_order_witness :
  prerequisites sampleNodeB
    = (filter (fun edge => edge.1 = nodeId sampleNodeB)
              (["other.config"; "tree.config"] ≫= fileEdges sampleConfigs)).*2.
Proof.
  apply (prerequisites_in_scan_order sampleConfigs ["other.config"; "tree.config"]
           sampleNodeB).
  apply (list_elem_of_lookup_2 _ 1). reflexivity.
Defined.

Lemma prerequisites_are_extracted_nodes_witness :
  exists parent,
    parent ∈ extractResearchTrees sampleConfigs ["other.config"; "tree.config"] /\
    nodeId parent = "t1:c".
Proof.
  apply (prerequisites_are_extracted_nodes sampleConfigs
           ["other.config"; "tree.config"] sampleNodeB "t1:c").
  - apply (list_elem_of_lookup_2 _ 1). reflexivity.
  - right. left.
Defined.

Lemma file_without_research_tree_is_skipped_witness :
  extractResearchTrees sampleConfigs (["tree.config"] ++ "other.config" :: [])
    = extractResearchTrees sampleConfigs (["tree.config"] ++ []).
Proof.
  apply (file_without_research_tree_is_skipped sampleConfigs
           ["tree.config"] [] "other.config").
  reflexivity.
Defined.

End ExtractFuExtras.

(** ** Centrifuge and extraction lab recipes *)

Module MachinesExtras.
Import JS ExtractFu ExtractFuMachines.

(** Loops that stop at the first exception. *)
Section Throwing.
Context {A B : Type} (f : option A -> B -> option A).
Hypothesis f_None : forall x, f None x = None.

Lemma foldl_thrown l : foldl f None l = None.
Proof. induction l as [|x l IH]; simpl; [done|by rewrite f_None]. Qed.

Lemma foldl_throws (bad : B -> Prop) :
  (forall a x, f (Some a) x = None <-> bad x) ->
  forall l a, foldl f (Some a) l = None <-> exists x, x ∈ l /\ bad x.
Proof.
  intros Hbad l. induction l as [|x l IH]; intros a; simpl.
  - split; [done|]. intros (x & Hin & _). by apply elem_of_nil in Hin.
  - destruct (f (Some a) x) as [a'|] eqn:Hx.
    + rewrite IH. split.
      * intros (y & Hin & Hy). exists y. split; [by right|done].
      * intros (y & [->|Hin]%elem_of_cons & Hy); [|by exists y].
        apply Hbad with (a := a) in Hy. congruence.
    + rewrite foldl_thrown. split; [|done]. intros _.
      exists x. split; [by left|]. by apply (Hbad a).
Qed.

Lemma foldl_preserves (P : A -> Prop) l :
  (forall a x a', x ∈ l -> P a -> f (Some a) x = Some a' -> P a') ->
  forall a a', P a -> foldl f (Some a) l = Some a' -> P a'.
Proof.
  induction l as [|x l IH]; intros Hstep a a' Ha; simpl.
  - by intros [= <-].
  - destruct (f (Some a) x) as [a1|] eqn:Hx.
    + apply IH; [|by eapply Hstep; [left|..]].
      intros b y b' Hin. apply Hstep. by right.
    + by rewrite foldl_thrown.
Qed.

End Throwing.

Section Centrifuge.
Import Centrifuge.
Context {jsnumber : Type}.
Variables (toString : json -> option string) (toNumber : json -> option jsnumber).

Local Abbreviation outputOf := (outputOf toString toNumber).
Local Abbreviation pushOutput := (pushOutput toString toNumber).
Local Abbreviation pushInput := (pushInput toString toNumber).
Local Abbreviation pushGroup := (pushGroup toString toNumber).
Local Abbreviation extractCentrifugeRecipes :=
  (extractCentrifugeRecipes toString toNumber).
Local Abbreviation fromInput := (fromInput toString toNumber).
Local Abbreviation throwingOutput := (throwingOutput toString toNumber).

Lemma pushOutput_None entry : pushOutput None entry = None.
Proof. done. Qed.

Lemma pushInput_None method entry : pushInput method None entry = None.
Proof. done. Qed.

Lemma pushGroup_None entry : pushGroup None entry = None.
Proof. done. Qed.

(** The innermost loop pushes what the entries give, one after the other. *)
Lemma foldl_pushOutput outputs_ : forall acc,
  foldl pushOutput (Some acc) outputs_
    = (fun pushed => acc ++ concat pushed) <$> mapM outputOf outputs_.
Proof.
  induction outputs_ as [|entry l IH]; intros acc; simpl.
  - by rewrite app_nil_r.
  - destruct (outputOf entry) as [pushed|]; simpl; [|apply foldl_thrown; done].
    rewrite IH. destruct (mapM outputOf l); simpl; [|done].
    by rewrite <-app_assoc.
Qed.

Lemma outputOf_throws entry : outputOf entry = None <-> throwingOutput entry.
Proof.
  unfold Centrifuge.outputOf, Centrifuge.throwingOutput.
  destruct entry.2 as [| | | |[|rarity [|count rest]]|]; simpl;
    try (split; [done|]; by intros (? & ? & ? & [=] & _)).
  destruct (toString rarity) as [r|] eqn:Hr; simpl.
  - destruct (toNumber count) as [c|] eqn:Hc; simpl.
    + split; [done|]. intros (? & ? & ? & [= <- <- <-] & [H|H]); congruence.
    + split; [|done]. intros _. exists rarity, count, rest. split; [done|by right].
  - split; [|done]. intros _. exists rarity, count, rest. split; [done|by left].
Qed.

Lemma pushOutput_throws acc entry :
  pushOutput (Some acc) entry = None <-> throwingOutput entry.
Proof.
  rewrite <-outputOf_throws. unfold Centrifuge.pushOutput.
  by destruct (outputOf entry).
Qed.

Lemma pushInput_spec method recipes input :
  pushInput method (Some recipes) input = None \/
  pushInput method (Some recipes) input = Some recipes \/
  exists recipe, pushInput method (Some recipes) input = Some (recipes ++ [recipe]) /\
                 fromInput method input recipe /\ outputs recipe <> [].
Proof.
  unfold Centrifuge.pushInput, Centrifuge.fromInput.
  destruct (isObject input.2); [|by right; left]. cbn [negb].
  rewrite foldl_pushOutput.
  destruct (mapM outputOf (ownEntries input.2)) as [pushed|]; simpl; [|by left].
  destruct (concat pushed) as [|o os] eqn:Hout; [by right; left|].
  right. right. eexists. split; [done|]. simpl. split_and!; [done..| |done].
  by exists pushed.
Qed.

Lemma pushInput_throws method recipes input :
  pushInput method (Some recipes) input = None
  <-> isObject input.2 = true /\
      exists output, output ∈ ownEntries input.2 /\ throwingOutput output.
Proof.
  unfold Centrifuge.pushInput.
  destruct (isObject input.2); cbn [negb].
  2:{ split; [done|]. by intros [? _]. }
  rewrite <-(foldl_throws pushOutput pushOutput_None throwingOutput
               pushOutput_throws (ownEntries input.2) []).
  destruct (foldl pushOutput (Some []) (ownEntries input.2)) as [[|o os]|].
  - split; [done|]. by intros [_ ?].
  - split; [done|]. by intros [_ ?].
  - done.
Qed.

Lemma foldl_pushInput (Q : ParsedCentrifugeRecipe jsnumber -> Prop) method inputs :
  (forall input recipe,
     input ∈ inputs -> fromInput method input recipe -> outputs recipe <> [] ->
     Q recipe) ->
  forall recipes recipes',
    Forall Q recipes ->
    foldl (pushInput method) (Some recipes) inputs = Some recipes' ->
    Forall Q recipes'.
Proof.
  intros HQ. apply (foldl_preserves (pushInput method) (pushInput_None method)).
  intros acc input acc' Hin Hacc.
  destruct (pushInput_spec method acc input)
    as [->|[->|(recipe & -> & Hfrom & Hne)]]; [done|by intros [= <-]|].
  intros [= <-]. apply Forall_app. split; [done|]. constructor; [|done].
  by eapply HQ.
Qed.

Lemma entries_Some v inputs : entries v = Some inputs -> inputs = ownEntries v.
Proof. destruct v; simpl; by intros [= <-]. Qed.

Lemma entries_None v : entries v = None <-> v = JNull.
Proof. by destruct v. Qed.

(** X12.  Every centrifuge recipe returned has at least one output, and
    comes from an entry of a top-level group whose key begins with itemMap:
    its method is the label of the group in [CENTRIFUGE_GROUP_NAMES], or
    the key itself when the table has none; its outputs are those entries
    of the output map that are arrays of two elements or more. *)
Theorem centrifuge_recipes_come_from_item_maps (config : option json)
    (recipes : list (ParsedCentrifugeRecipe jsnumber))
    (recipe : ParsedCentrifugeRecipe jsnumber) :
  extractCentrifugeRecipes config = Some recipes -> recipe ∈ recipes ->
  outputs recipe <> [] /\
  exists data group input,
    config = Some data /\ group ∈ ownEntries data /\
    startsWith group.1 "itemMap" = true /\ input ∈ ownEntries group.2 /\
    fromInput (default group.1 (mapGet CENTRIFUGE_GROUP_NAMES group.1)) input recipe.
Proof.
  intros Hrun Hin. revert recipe Hin. apply Forall_forall.
  destruct config as [data|]; simpl in Hrun; [|by injection Hrun as <-].
  destruct (truthyValue data); simpl in Hrun; [|by injection Hrun as <-].
  revert Hrun.
  apply (foldl_preserves pushGroup pushGroup_None
           (Forall (fun recipe => outputs recipe <> [] /\
              exists data' group input,
                Some data = Some data' /\ group ∈ ownEntries data' /\
                startsWith group.1 "itemMap" = true /\ input ∈ ownEntries group.2 /\
                fromInput (default group.1 (mapGet CENTRIFUGE_GROUP_NAMES group.1))
                          input recipe)));
    [|done].
  intros acc group acc' Hgroup Hacc. unfold Centrifuge.pushGroup.
  destruct (startsWith group.1 "itemMap") eqn:Hkey; simpl; [|by intros [= <-]].
  destruct (entries group.2) as [inputs|] eqn:Hinputs; [|done].
  apply entries_Some in Hinputs as ->.
  apply foldl_pushInput; [|done].
  intros input recipe Hinput Hfrom Hne. split; [done|].
  by exists data, group, input.
Qed.

Lemma foldl_pushGroup_filter properties : forall recipes,
  foldl pushGroup recipes properties
    = foldl pushGroup recipes
            (filter (fun entry => startsWith entry.1 "itemMap" = true) properties).
Proof.
  induction properties as [|entry l IH]; intros recipes; [done|].
  rewrite filter_cons. destruct (decide (startsWith entry.1 "itemMap" = true)) as [Hkey|Hkey].
  - simpl. apply IH.
  - simpl. rewrite <-IH. f_equal.
    unfold Centrifuge.pushGroup. destruct recipes; [|done].
    by destruct (startsWith entry.1 "itemMap").
Qed.

(** X13.  Top-level keys that do not begin with itemMap are never read,
    whatever their values (null included). *)
Theorem centrifuge_other_keys_are_ignored (properties : list (string * json)) :
  extractCentrifugeRecipes (Some (JObj properties))
    = extractCentrifugeRecipes
        (Some (JObj (filter (fun entry => startsWith entry.1 "itemMap" = true)
                            properties))).
Proof. simpl. apply foldl_pushGroup_filter. Qed.

(** X14.  [extractCentrifugeRecipes] ends with an uncaught exception
    exactly when the config was parsed to a truthy value in which a key
    that begins with itemMap holds null, or holds an input whose output map
    has an array of two elements or more with a rarity or a count that the
    conversion throws on; a missing or unparsable config gives the empty
    list. *)
Theorem centrifuge_throws_on_null_group (config : option json) :
  extractCentrifugeRecipes config = None
  <-> exists data group,
        config = Some data /\ truthyValue data = true /\
        group ∈ ownEntries data /\ startsWith group.1 "itemMap" = true /\
        (group.2 = JNull \/
         exists input output,
           input ∈ ownEntries group.2 /\ isObject input.2 = true /\
           output ∈ ownEntries input.2 /\ throwingOutput output).
Proof.
  destruct config as [data|]; simpl.
  2:{ split; [done|]. by intros (data & group & [=] & _). }
  destruct (truthyValue data) eqn:Htruthy; simpl.
  2:{ split; [done|]. intros (data' & group & [= <-] & Ht & _). congruence. }
  rewrite (foldl_throws pushGroup pushGroup_None
             (fun group => startsWith group.1 "itemMap" = true /\
                (group.2 = JNull \/
                 exists input output,
                   input ∈ ownEntries group.2 /\ isObject input.2 = true /\
                   output ∈ ownEntries input.2 /\ throwingOutput output))).
  - split.
    + intros (group & Hin & Hkey & Hbad). by exists data, group.
    + intros (data' & group & [= <-] & _ & Hin & Hkey & Hbad). by exists group.
  - intros acc group. unfold Centrifuge.pushGroup.
    destruct (startsWith group.1 "itemMap"); simpl.
    2:{ split; [done|]. by intros [? _]. }
    destruct (entries group.2) as [inputs|] eqn:Hinputs.
    + assert (group.2 <> JNull) as Hnn.
      { intros Hnull. apply entries_None in Hnull. congruence. }
      apply entries_Some in Hinputs as ->.
      rewrite (foldl_throws (pushInput _) (pushInput_None _)
                 (fun input => isObject input.2 = true /\
                    exists output, output ∈ ownEntries input.2 /\ throwingOutput output)).
      * split.
        -- intros (input & Hin & Hobj & output & Hout & Hbad).
           split; [done|]. right. by exists input, output.
        -- intros [_ [Hnull|(input & output & Hin & Hobj & Hout & Hbad)]]; [done|].
           exists input. split_and!; [done..|]. by exists output.
      * intros acc' input. apply pushInput_throws.
    + split; [|done]. intros _. split; [done|]. left. by apply entries_None.
Qed.

End Centrifuge.

Lemma centrifuge_recipes_come_from_item_maps_witness :
  Centrifuge.outputs sampleWheat <> [] /\
  exists data group input,
    Some (sampleCentrifuge false) = Some data /\ group ∈ ownEntries data /\
    startsWith group.1 "itemMap" = true /\ input ∈ ownEntries group.2 /\
    Centrifuge.fromInput sampleString sampleNumber
      (default group.1 (mapGet CENTRIFUGE_GROUP_NAMES group.1)) input sampleWheat.
Proof.
  apply (centrifuge_recipes_come_from_item_maps sampleString sampleNumber
           (Some (sampleCentrifuge false)) [sampleWheat] sampleWheat).
  - reflexivity.
  - left.
Defined.

Lemma centrifuge_throws_on_null_group_witness :
  Centrifuge.extractCentrifugeRecipes sampleString sampleNumber
    (Some (sampleCentrifuge true)) = None /\
  Centrifuge.extractCentrifugeRecipes sampleString sampleNumber
    (Some sampleCentrifugeOdd) = None.
Proof.
  split.
  - apply (proj2 (centrifuge_throws_on_null_group sampleString sampleNumber
                    (Some (sampleCentrifuge true)))).
    exists (sampleCentrifuge true), ("itemMapBees", JNull).
    split_and!; [reflexivity|reflexivity| |reflexivity|by left].
    right. right. left.
  - apply (proj2 (centrifuge_throws_on_null_group sampleString sampleNumber
                    (Some sampleCentrifugeOdd))).
    eexists sampleCentrifugeOdd, (_, _).
    split_and!; [reflexivity|reflexivity|left|reflexivity|].
    right. eexists (_, _), (_, _).
    split_and!; [left|reflexivity|left|].
    eexists _, _, _. split; [reflexivity|]. by left.
Defined.

Section ExtractionLab.
Import ExtractionLab.
Context {jsnumber : Type}.
Variable toNumber : json -> option jsnumber.
Variable readConfig : string -> option json.

Local Abbreviation pushInput := (pushInput toNumber).
Local Abbreviation pushRecipe := (pushRecipe toNumber).
Local Abbreviation pushConfig := (pushConfig toNumber readConfig).
Local Abbreviation extractExtractionRecipes :=
  (extractExtractionRecipes toNumber readConfig).
Local Abbreviation fromRecipe := (fromRecipe toNumber).
Local Abbreviation throwingRecipe := (throwingRecipe toNumber).

Lemma tierOutputs_tier entry : Forall (fun o => tier o ∈ tiers) (tierOutputs entry).
Proof.
  unfold tierOutputs, tiers.
  destruct entry.2 as [| | | |[|t0 [|t1 [|t2 ts]]]|]; simpl;
    repeat (constructor; [set_solver|]); done.
Qed.

Lemma pushInput_lab_None method outputs_ input :
  pushInput method outputs_ None input = None.
Proof. done. Qed.

Lemma pushRecipe_None method recipe : pushRecipe method None recipe = None.
Proof. done. Qed.

Lemma pushConfig_None config : pushConfig None config = None.
Proof. done. Qed.

Lemma pushInput_lab_spec method outputs_ allRecipes input :
  pushInput method outputs_ (Some allRecipes) input = None \/
  pushInput method outputs_ (Some allRecipes) input = Some allRecipes \/
  exists parsed,
    pushInput method outputs_ (Some allRecipes) input = Some (allRecipes ++ [parsed]) /\
    inputItem parsed = input.1 /\ toNumber input.2 = Some (inputCount parsed) /\
    ExtractionLab.method parsed = method /\
    outputs parsed = ownEntries outputs_ ≫= tierOutputs /\ outputs parsed <> [].
Proof.
  unfold ExtractionLab.pushInput.
  destruct (ownEntries outputs_ ≫= tierOutputs) as [|o os] eqn:Hout; [by right; left|].
  destruct (toNumber input.2) as [n|] eqn:Hn; [|by left].
  right. right. eexists. by split_and!.
Qed.

Lemma pushInput_lab_throws method outputs_ allRecipes input :
  pushInput method outputs_ (Some allRecipes) input = None
  <-> ownEntries outputs_ ≫= tierOutputs <> [] /\ toNumber input.2 = None.
Proof.
  unfold ExtractionLab.pushInput.
  destruct (ownEntries outputs_ ≫= tierOutputs) as [|o os] eqn:Hout.
  - split; [done|]. by intros [? _].
  - destruct (toNumber input.2); [|done]. split; [done|]. by intros [_ ?].
Qed.

Lemma foldl_pushInput_lab (Q : ParsedExtractionRecipe jsnumber -> Prop)
    method outputs_ inputs :
  (forall input parsed,
     input ∈ inputs ->
     inputItem parsed = input.1 -> toNumber input.2 = Some (inputCount parsed) ->
     ExtractionLab.method parsed = method ->
     outputs parsed = ownEntries outputs_ ≫= tierOutputs -> outputs parsed <> [] ->
     Q parsed) ->
  forall allRecipes allRecipes',
    Forall Q allRecipes ->
    foldl (pushInput method outputs_) (Some allRecipes) inputs = Some allRecipes' ->
    Forall Q allRecipes'.
Proof.
  intros HQ.
  apply (foldl_preserves (pushInput method outputs_) (pushInput_lab_None method outputs_)).
  intros acc input acc' Hin Hacc.
  destruct (pushInput_lab_spec method outputs_ acc input)
    as [->|[->|(parsed & -> & H1 & H2 & H3 & H4 & H5)]]; [done|by intros [= <-]|].
  intros [= <-]. apply Forall_app. split; [done|]. constructor; [|done].
  by eapply HQ.
Qed.

Lemma pushRecipe_throws method allRecipes recipe :
  pushRecipe method (Some allRecipes) recipe = None <-> throwingRecipe recipe.
Proof.
  assert (recipe <> JNull ->
          pushRecipe method (Some allRecipes) recipe
          = if negb (truthyProp (getProp recipe "inputs"))
               || negb (truthyProp (getProp recipe "outputs"))
            then Some allRecipes
            else foldl (pushInput method (default JNull (getProp recipe "outputs")))
                       (Some allRecipes)
                       (ownEntries (default JNull (getProp recipe "inputs")))) as Hbody.
  { by destruct recipe. }
  unfold ExtractionLab.throwingRecipe.
  assert (recipe = JNull \/ recipe <> JNull) as [->|Hnn]
    by (destruct recipe; by auto).
  { split; [by left|done]. }
  rewrite (Hbody Hnn). clear Hbody.
  destruct (getProp recipe "inputs") as [inputs|] eqn:Hinputs; simpl.
  2:{ split; [done|]. intros [?|(? & ? & ? & [=] & _)]. done. }
  destruct (getProp recipe "outputs") as [outputs_|] eqn:Houtputs; simpl.
  2:{ rewrite orb_true_r. split; [done|].
      intros [?|(? & ? & ? & _ & _ & [=] & _)]. done. }
  destruct (truthyValue inputs) eqn:Hti; simpl.
  2:{ split; [done|]. intros [?|(? & ? & ? & [= <-] & ? & _)]; [done|congruence]. }
  destruct (truthyValue outputs_) eqn:Hto; simpl.
  2:{ split; [done|].
      intros [?|(? & ? & ? & _ & _ & [= <-] & ? & _)]; [done|congruence]. }
  rewrite (foldl_throws (pushInput method outputs_) (pushInput_lab_None method outputs_)
             (fun input => ownEntries outputs_ ≫= tierOutputs <> [] /\
                           toNumber input.2 = None)).
  - split.
    + intros (input & Hin & Hne & Hbad). right. by exists inputs, outputs_, input.
    + intros [?|(i & o & input & [= <-] & _ & [= <-] & _ & Hne & Hin & Hbad)]; [done|].
      by exists input.
  - intros acc input. apply pushInput_lab_throws.
Qed.

Lemma bind_tierOutputs_tier entries_ :
  Forall (fun o => tier o ∈ tiers) (entries_ ≫= tierOutputs).
Proof.
  induction entries_ as [|entry l IH]; [done|].
  rewrite bind_cons. apply Forall_app. split; [apply tierOutputs_tier|done].
Qed.

(** X15.  Every extraction recipe returned has at least one output, each of
    tier basic, improved, advanced or all, and comes from one input of one
    element of the recipe list of one of the five configs, with the method
    of that config. *)
Theorem extraction_recipes_come_from_configs
    (allRecipes : list (ParsedExtractionRecipe jsnumber))
    (parsed : ParsedExtractionRecipe jsnumber) :
  extractExtractionRecipes = Some allRecipes -> parsed ∈ allRecipes ->
  outputs parsed <> [] /\
  Forall (fun o => tier o ∈ tiers) (outputs parsed) /\
  exists config raw recipes recipe,
    config ∈ EXTRACTION_CONFIGS /\ readConfig config.1 = Some raw /\
    recipeList raw = Some recipes /\ recipe ∈ recipes /\
    fromRecipe config.2 recipe parsed.
Proof.
  intros Hrun Hin. revert parsed Hin. apply Forall_forall.
  revert Hrun. unfold ExtractionLab.extractExtractionRecipes.
  apply (foldl_preserves pushConfig pushConfig_None (Forall _)); [|done].
  intros acc config acc' Hconfig Hacc. unfold ExtractionLab.pushConfig.
  destruct (readConfig config.1) as [raw|] eqn:Hraw; [|by intros [= <-]].
  destruct (truthyValue raw); simpl; [|by intros [= <-]].
  destruct (recipeList raw) as [recipes|] eqn:Hrecipes; [|by intros [= <-]].
  apply (foldl_preserves (pushRecipe config.2) (pushRecipe_None config.2) (Forall _));
    [|done].
  intros acc1 recipe acc1' Hrecipe Hacc1. unfold ExtractionLab.pushRecipe.
  destruct (getProp recipe "inputs") as [inputs|] eqn:Hinputs;
    [|by destruct recipe; intros [= <-]].
  destruct (getProp recipe "outputs") as [outputs_|] eqn:Houtputs;
    [|destruct recipe; try done; simpl; rewrite orb_true_r; by intros [= <-]].
  simpl.
  destruct (negb (truthyValue inputs) || negb (truthyValue outputs_));
    [by destruct recipe; intros [= <-]|].
  assert (foldl (pushInput config.2 outputs_) (Some acc1) (ownEntries inputs)
            = Some acc1' ->
          Forall (fun parsed => outputs parsed <> [] /\
            Forall (fun o => tier o ∈ tiers) (outputs parsed) /\
            exists config raw recipes recipe,
              config ∈ EXTRACTION_CONFIGS /\ readConfig config.1 = Some raw /\
              recipeList raw = Some recipes /\ recipe ∈ recipes /\
              fromRecipe config.2 recipe parsed) acc1') as Hall.
  { apply foldl_pushInput_lab; [|done].
    intros input parsed Hinput H1 H2 H3 H4 H5. split_and!; [done| |].
    - rewrite H4. apply bind_tierOutputs_tier.
    - exists config, raw, recipes, recipe. split_and!; [done..|].
      by exists inputs, outputs_, input. }
  by destruct recipe.
Qed.

(** X16.  [extractExtractionRecipes] ends with an uncaught exception
    exactly when the recipe list of a config that was parsed holds a null,
    or holds a recipe with inputs and usable outputs in which the count of
    an input is a value that the conversion throws on; missing, unparsable
    and unexpectedly shaped configs are skipped. *)
Theorem extraction_throws_on_null_recipe :
  extractExtractionRecipes = None
  <-> exists config raw recipes recipe,
        config ∈ EXTRACTION_CONFIGS /\ readConfig config.1 = Some raw /\
        truthyValue raw = true /\ recipeList raw = Some recipes /\
        recipe ∈ recipes /\ throwingRecipe recipe.
Proof.
  unfold ExtractionLab.extractExtractionRecipes.
  rewrite (foldl_throws pushConfig pushConfig_None
             (fun config => exists raw recipes recipe,
                readConfig config.1 = Some raw /\ truthyValue raw = true /\
                recipeList raw = Some recipes /\ recipe ∈ recipes /\
                throwingRecipe recipe)).
  - split.
    + intros (config & Hin & raw & recipes & recipe & H).
      by exists config, raw, recipes, recipe.
    + intros (config & raw & recipes & recipe & Hin & H). exists config. split; [done|].
      by exists raw, recipes, recipe.
  - intros acc config. unfold ExtractionLab.pushConfig.
    destruct (readConfig config.1) as [raw|] eqn:Hraw.
    2:{ split; [done|]. by intros (raw & recipes & recipe & [=] & _). }
    destruct (truthyValue raw) eqn:Htruthy; simpl.
    2:{ split; [done|]. intros (raw' & recipes & recipe & [= <-] & Ht & _). congruence. }
    destruct (recipeList raw) as [recipes|] eqn:Hrecipes.
    2:{ split; [done|]. intros (raw' & recipes & recipe & [= <-] & _ & Hr & _).
        congruence. }
    rewrite (foldl_throws (pushRecipe config.2) (pushRecipe_None config.2)
               throwingRecipe).
    + split.
      * intros (recipe & Hin & Hbad). by exists raw, recipes, recipe.
      * intros (raw' & recipes' & recipe & [= <-] & _ & Hr & Hin & Hbad).
        exists recipe. split; [|done]. congruence.
    + intros acc' recipe. apply pushRecipe_throws.
Qed.

End ExtractionLab.

Lemma extraction_recipes_come_from_configs_witness :
  ExtractionLab.outputs sampleSand <> [] /\
  Forall (fun o => ExtractionLab.tier o ∈ ExtractionLab.tiers)
         (ExtractionLab.outputs sampleSand).
Proof.
  destruct (extraction_recipes_come_from_configs sampleNumber (sampleLabConfigs false)
              [sampleOre; sampleSand] sampleSand) as (H1 & H2 & _).
  - reflexivity.
  - right. left.
  - exact (conj H1 H2).
Defined.

Lemma extraction_throws_on_null_recipe_witness :
  ExtractionLab.extractExtractionRecipes sampleNumber (sampleLabConfigs true) = None /\
  ExtractionLab.extractExtractionRecipes sampleNumber sampleLabConfigsOdd = None.
Proof.
  split.
  - apply (proj2 (extraction_throws_on_null_recipe sampleNumber (sampleLabConfigs true))).
    exists ("objects/power/fu_liquidmixer/fu_liquidmixer_recipes.config", "liquid mixer"),
      (JObj [("recipes", JArr [JNull])]), [JNull], JNull.
    split_and!; [|reflexivity|reflexivity|reflexivity|left|by left].
    do 3 right. left.
  - apply (proj2 (extraction_throws_on_null_recipe sampleNumber sampleLabConfigsOdd)).
    eexists ("objects/generic/extractionlab_recipes.config", "extraction lab"), _, _, _.
    split_and!; [left|reflexivity|reflexivity|reflexivity|left|].
    right. eexists _, _, (_, _).
    split_and!; [reflexivity|reflexivity|reflexivity|reflexivity|done|left|reflexivity].
Defined.

End MachinesExtras.

(** ** Storing the research nodes *)

Module FuStoreExtras.
Import JS ExtractFu ExtractFuStore.

Section Stringify.
Variable stringifyCost : list (string * number) -> string.
Variable stringifyList : list string -> string.

Local Abbreviation researchRow := (researchRow stringifyCost stringifyList).
Local Abbreviation storeNode := (storeNode stringifyCost stringifyList).
Local Abbreviation researchTransaction :=
  (researchTransaction stringifyCost stringifyList).
Local Abbreviation entity_id := ExtractOpenStarbound.entity_id.

Lemma max_list_bound (l : list nat) m : Forall (fun x => x <= m) l -> max_list l <= m.
Proof. induction 1; simpl; lia. Qed.

Lemma max_list_append (l k : list nat) :
  max_list (l ++ k) = max_list l `max` max_list k.
Proof. induction l as [|y l IH]; simpl; lia. Qed.

Lemma storeNode_rows db node :
  fu_research (storeNode db node)
    = filter (fun row => fr_node_id row <> nodeId node) (fu_research db)
      ++ [researchRow (S (top db)) node].
Proof. done. Qed.

Lemma storeNode_search db node :
  exists s, search_index (storeNode db node) = search_index db ++ [s] /\
            entity_id s = S (top db).
Proof. eexists. split; [reflexivity|done]. Qed.

Lemma storeNode_top db node : top (storeNode db node) = S (top db).
Proof.
  unfold top at 1. rewrite storeNode_rows, fmap_app, max_list_append. simpl.
  assert (max_list (fr_id <$> filter (fun row => fr_node_id row <> nodeId node)
                                     (fu_research db)) <= top db); [|lia].
  apply max_list_bound, Forall_forall. intros id (row & -> & Hrow)%list_elem_of_fmap.
  apply list_elem_of_filter in Hrow as [_ Hrow].
  assert (fr_id row <= max_list (fr_id <$> fu_research db)); [|unfold top; lia].
  apply max_list_elem_of_le, list_elem_of_fmap. by exists row.
Qed.

(** What a run leaves in the two tables. *)
Lemma researchTransaction_spec nodes : forall db,
  top (researchTransaction db nodes) = top db + length nodes /\
  (exists added,
     search_index (researchTransaction db nodes) = search_index db ++ added /\
     length added = length nodes /\
     Forall (fun s => top db < entity_id s <= top db + length nodes) added) /\
  Forall (fun row =>
            (row ∈ fu_research db /\ fr_node_id row ∉ nodeId <$> nodes) \/
            (top db < fr_id row /\ fr_node_id row ∈ nodeId <$> nodes))
         (fu_research (researchTransaction db nodes)).
Proof.
  induction nodes as [|node l IH]; intros db.
  - simpl. split_and!; [lia| |].
    + exists []. by rewrite app_nil_r.
    + apply Forall_forall. intros row Hrow. left. split; [done|]. apply not_elem_of_nil.
  - change (researchTransaction db (node :: l))
      with (researchTransaction (storeNode db node) l).
    destruct (IH (storeNode db node)) as (Htop & (added & Hadded & Hlen & Hids) & Hrows).
    rewrite storeNode_top in Htop, Hids, Hrows.
    split_and!.
    + rewrite Htop. simpl. lia.
    + destruct (storeNode_search db node) as (s & Hs & Hid).
      exists (s :: added). rewrite Hadded, Hs, <-app_assoc. split_and!; [done|simpl; lia|].
      constructor; [simpl; lia|].
      eapply Forall_impl; [exact Hids|]. simpl. intros; lia.
    + eapply Forall_impl; [exact Hrows|]. cbv beta.
      intros row [[Hrow Hno]|[Hid Hin]].
      * rewrite storeNode_rows in Hrow.
        apply elem_of_app in Hrow as [Hrow|Hrow].
        -- apply list_elem_of_filter in Hrow as [Hne Hrow].
           left. split; [done|]. rewrite fmap_cons. by apply not_elem_of_cons.
        -- apply list_elem_of_singleton in Hrow as ->. right. split; [simpl; lia|].
           rewrite fmap_cons. left.
      * right. split; [lia|]. rewrite fmap_cons. by right.
Qed.

Lemma researchTransaction_keeps nodes : forall db row,
  row ∈ fu_research db -> fr_node_id row ∉ nodeId <$> nodes ->
  row ∈ fu_research (researchTransaction db nodes).
Proof.
  induction nodes as [|node l IH]; intros db row Hrow Hno; [done|].
  rewrite fmap_cons in Hno. apply not_elem_of_cons in Hno as [Hne Hno].
  change (researchTransaction db (node :: l))
    with (researchTransaction (storeNode db node) l).
  apply IH; [|done]. rewrite storeNode_rows. apply elem_of_app. left.
  by apply list_elem_of_filter.
Qed.

Lemma storeNode_NoDup db node :
  NoDup (fr_node_id <$> fu_research db) ->
  NoDup (fr_node_id <$> fu_research (storeNode db node)).
Proof.
  intros Hdb. rewrite storeNode_rows, fmap_app. apply NoDup_app. split_and!.
  - eapply sublist_NoDup; [exact Hdb|apply fmap_sublist, sublist_filter].
  - intros k (row & -> & Hrow)%list_elem_of_fmap.
    apply list_elem_of_filter in Hrow as [Hne _].
    simpl. by intros ?%list_elem_of_singleton.
  - apply NoDup_singleton.
Qed.

(** X17.  Of several research nodes with one id the last is the one stored:
    after the transaction the table holds the row made from the last node
    with a given id, and node ids stay unique. *)
Theorem last_research_node_is_stored (db : Store)
    (before after : list ParsedResearchNode) (node : ParsedResearchNode) :
  nodeId node ∉ nodeId <$> after ->
  (exists id,
     researchRow id node ∈ fu_research (researchTransaction db (before ++ node :: after))) /\
  (NoDup (fr_node_id <$> fu_research db) ->
   NoDup (fr_node_id <$> fu_research (researchTransaction db (before ++ node :: after)))).
Proof.
  intros Hlast. split.
  - unfold ExtractFuStore.researchTransaction. rewrite foldl_app. simpl.
    set (db1 := foldl storeNode db before).
    exists (S (top db1)). apply researchTransaction_keeps; [|done].
    rewrite storeNode_rows. apply elem_of_app. right. left.
  - generalize (before ++ node :: after). intros nodes. revert db.
    induction nodes as [|n l IH]; intros db Hdb; [done|].
    apply IH. by apply storeNode_NoDup.
Qed.

(** X18.  The transaction adds one search row for each node and never
    removes one; as a replaced row gets a new row id, a second run over the
    same nodes leaves every search row of the first run pointing at a row
    id that [fu_research] no longer holds. *)
Theorem rerun_orphans_research_search_rows (db : Store)
    (nodes : list ParsedResearchNode) :
  exists added,
    search_index (researchTransaction db nodes) = search_index db ++ added /\
    length added = length nodes /\
    Forall (fun s =>
              ExtractOpenStarbound.entity_type s = "fu_research" /\
              entity_id s ∉
                fr_id <$> fu_research
                            (researchTransaction (researchTransaction db nodes) nodes))
           added.
Proof.
  destruct (researchTransaction_spec nodes db)
    as (Htop & (added & Hadded & Hlen & Hids) & Hrows).
  destruct (researchTransaction_spec nodes (researchTransaction db nodes))
    as (_ & _ & Hrows2).
  exists added. split_and!; [done|done|].
  assert (Forall (fun s => ExtractOpenStarbound.entity_type s = "fu_research") added)
    as Htypes.
  { clear -Hadded. revert db added Hadded.
    induction nodes as [|node l IH]; intros db added Hadded.
    - simpl in Hadded. rewrite <-(app_nil_r (search_index db)) in Hadded at 1.
      by apply app_inv_head in Hadded as <-.
    - change (researchTransaction db (node :: l))
        with (researchTransaction (storeNode db node) l) in Hadded.
      destruct (researchTransaction_spec l (storeNode db node))
        as (_ & (added' & Hadded' & _ & _) & _).
      rewrite Hadded' in Hadded. simpl in Hadded. rewrite <-app_assoc in Hadded.
      apply app_inv_head in Hadded as <-.
      constructor; [done|]. by apply (IH (storeNode db node)). }
  apply Forall_forall. intros s Hs. split; [by eapply Forall_forall in Htypes|].
  eapply Forall_forall in Hids; [|done].
  intros (row & Hid & Hrow)%list_elem_of_fmap.
  eapply Forall_forall in Hrows2; [|done].
  destruct Hrows2 as [[Hrow1 Hno]|[Hgt _]]; [|lia].
  eapply Forall_forall in Hrows; [|done].
  destruct Hrows as [[Hrow0 _]|[_ Hin]]; [|done].
  assert (fr_id row <= top db); [|lia].
  unfold top. etrans; [|apply Nat.le_max_r].
  apply max_list_elem_of_le, list_elem_of_fmap. by exists row.
Qed.

End Stringify.

Lemma last_research_node_is_stored_witness :
  exists id,
    researchRow sampleStringifyCost sampleStringifyList id sampleNodeNew
      ∈ fu_research (researchTransaction sampleStringifyCost sampleStringifyList
                       emptyFuStore ([sampleNodeOld] ++ sampleNodeNew :: [])).
Proof.
  apply (last_research_node_is_stored sampleStringifyCost sampleStringifyList
           emptyFuStore [sampleNodeOld] [] sampleNodeNew).
  apply not_elem_of_nil.
Defined.

End FuStoreExtras.

(** ** Lua documentation: provenance, grouping and merging *)

Module LuaDocsExtras.
Import JS ExtractLuaDocs Samples JSFacts LuaDocsClaims ExtractLuaDocsShapes.

Lemma drop_cons_inv {A} (l : list A) i x rest :
  drop i l = x :: rest -> l !! i = Some x /\ drop (S i) l = rest.
Proof.
  intros Hdrop. split.
  - rewrite <-(Nat.add_0_r i), <-lookup_drop, Hdrop. done.
  - change (S i) with (1 + i). rewrite Nat.add_comm, <-drop_drop, Hdrop. done.
Qed.

Lemma collectDescription_drop (all : list string) lines : forall i acc,
  lines = drop i all ->
  (collectDescription lines i acc).1.2 = drop (collectDescription lines i acc).2 all /\
  i <= (collectDescription lines i acc).2.
Proof.
  induction lines as [|nextLine rest IH]; intros i acc Hlines; simpl; [done|].
  destruct (looksLikeSignature nextLine); [done|].
  symmetry in Hlines. apply drop_cons_inv in Hlines as [_ Hrest].
  destruct (String.eqb (trim nextLine) "---"); simpl; [split; [done|lia]|].
  destruct (IH (S i) (acc ++ [nextLine])) as [H1 H2]; [done|]. split; [done|lia].
Qed.

Lemma entriesOk_mono fileName all i i' functions :
  i <= i' -> entriesOk fileName all i functions -> entriesOk fileName all i' functions.
Proof.
  intros Hle [Hall Hinc]. split; [|done].
  eapply Forall_impl; [exact Hall|]. cbv beta. intros fn [Hrange Hline].
  split; [lia|done].
Qed.

Lemma entriesOk_snoc fileName all i i' functions fn line :
  entriesOk fileName all i functions ->
  lineNumber fn = i + 1 -> i + 1 <= i' ->
  all !! i = Some line ->
  parsedFromHeading fileName line (drop (i + 1) all) fn ->
  entriesOk fileName all i' (functions ++ [fn]).
Proof.
  intros [Hall Hinc] Hnum Hle Hline Hfn. split.
  - apply Forall_app. split.
    + eapply Forall_impl; [exact Hall|]. cbv beta. intros f [Hrange Hf].
      split; [lia|done].
    + constructor; [|done]. split; [lia|]. exists line. rewrite Hnum.
      split; [|done]. by replace (i + 1 - 1) with i by lia.
  - intros j k a b Ha Hb Hjk.
    assert (k < length (functions ++ [fn])) as Hk by (by eapply lookup_lt_Some).
    rewrite length_app in Hk. simpl in Hk.
    rewrite lookup_app_l in Ha by lia.
    destruct (decide (k < length functions)) as [Hlt|Hge].
    + rewrite lookup_app_l in Hb by done. by eapply Hinc.
    + rewrite lookup_app_r in Hb by lia.
      replace (k - length functions) with 0 in Hb by lia. injection Hb as <-.
      apply list_elem_of_lookup_2 in Ha.
      eapply Forall_forall in Hall; [|done]. lia.
Qed.

Lemma parseLines_ok fileName all fuel : forall lines i functions,
  lines = drop i all -> entriesOk fileName all i functions ->
  exists i', entriesOk fileName all i' (parseLines fuel fileName lines i functions).
Proof.
  induction fuel as [|fuel IH]; intros lines i functions Hlines Hok; [by exists i|].
  simpl. destruct lines as [|line rest]; [by exists i|].
  symmetry in Hlines. apply drop_cons_inv in Hlines as [Hline Hrest].
  assert (exists i', entriesOk fileName all i'
                       (parseLines fuel fileName rest (S i) functions)) as Hskip.
  { apply IH; [done|]. eapply entriesOk_mono; [|done]. lia. }
  destruct (negb (startsWith line "###") && negb (startsWith line "####")) eqn:Hhead;
    [done|].
  destruct (negb (includes line "`") || negb (includes line "(")) eqn:Hinc; [done|].
  destruct (parseSignatureLine line) as [parsed|] eqn:Hparsed; [|done].
  destruct (collectDescription rest (S i) []) as [[descriptionLines rest'] i'] eqn:Hc.
  pose proof (collectDescription_drop all rest (S i) [] (eq_sym Hrest)) as [Hrest' Hle].
  rewrite Hc in Hrest', Hle. simpl in Hrest', Hle.
  apply IH; [done|].
  eapply entriesOk_snoc; [done|done|lia|done|].
  split.
  - unfold looksLikeSignature.
    apply orb_false_iff in Hinc as [->%negb_false_iff ->%negb_false_iff].
    rewrite !andb_true_r.
    destruct (startsWith line "###"), (startsWith line "####"); done.
  - exists parsed. split_and!; try done. simpl.
    replace (i + 1) with (S i) by lia. by rewrite Hrest, Hc.
Qed.

(** X19.  Every entry of [parseMarkdownFile] points at the heading it was
    parsed from: its line number is the 1-based index of a line of the
    file that passes the tests of the loop and that [parseSignatureLine]
    accepts; names, return type, parameters and signature are computed from
    that line, the description from the lines behind it, and the source
    file is the name of the file. *)
Theorem parsed_function_points_at_its_heading (content fileName : string)
    (fn : ParsedFunction) :
  fn ∈ parseMarkdownFile content fileName ->
  1 <= lineNumber fn <= length (splitLines content) /\
  exists line,
    splitLines content !! (lineNumber fn - 1) = Some line /\
    parsedFromHeading fileName line (drop (lineNumber fn) (splitLines content)) fn.
Proof.
  intros Hfn. unfold parseMarkdownFile in Hfn.
  destruct (parseLines_ok fileName (splitLines content) (length (splitLines content))
              (splitLines content) 0 []) as (i' & Hall & _); [done|by split|].
  eapply Forall_forall in Hall as [Hrange (line & Hline & Hfrom)]; [|done].
  split; [|by exists line].
  apply lookup_lt_Some in Hline. lia.
Qed.

(** X20.  The entries of a file come in the order of their headings: line
    numbers increase strictly along the list. *)
Theorem line_numbers_increase (content fileName : string) (j k : nat)
    (a b : ParsedFunction) :
  parseMarkdownFile content fileName !! j = Some a ->
  parseMarkdownFile content fileName !! k = Some b ->
  j < k -> lineNumber a < lineNumber b.
Proof.
  unfold parseMarkdownFile.
  destruct (parseLines_ok fileName (splitLines content) (length (splitLines content))
              (splitLines content) 0 []) as (i' & _ & Hinc); [done|by split|].
  apply Hinc.
Qed.

Lemma parsed_function_points_at_its_heading_witness :
  1 <= lineNumber entryOne <= length (splitLines overloadedDoc) /\
  exists line,
    splitLines overloadedDoc !! (lineNumber entryOne - 1) = Some line /\
    parsedFromHeading "t.md" line (drop (lineNumber entryOne) (splitLines overloadedDoc))
                      entryOne.
Proof.
  apply (parsed_function_points_at_its_heading overloadedDoc "t.md" entryOne).
  apply (list_elem_of_lookup_2 _ 0). reflexivity.
Defined.

Lemma line_numbers_increase_witness : lineNumber entryOne < lineNumber entryThree.
Proof.
  apply (line_numbers_increase overloadedDoc "t.md" 0 1 entryOne entryThree).
  - reflexivity.
  - reflexivity.
  - lia.
Defined.

(** X22.  The record the merge loop leaves under a name is merged from the
    last run of the name, whatever stands before, between and behind its
    entries: the last entry of the name that starts a record (the first of
    the name, or one that is no overload) and the overloads of the name
    behind it.  The record keeps the table, the name, the source file and
    the line number of that entry; its signature is the signatures of the
    run joined by line feeds; and it has as many parameters as the entry
    of the run with the most, from which its parameters and return type
    are taken.  (Every name that occurs has such a run, lemma
    [last_run_exists].) *)
Theorem overload_run_is_merged_in_order (functions before run : list ParsedFunction)
    (first : ParsedFunction) :
  filter (fun fn => functionName fn = functionName first) functions
    = before ++ first :: run ->
  before = [] \/ isOverload first = false ->
  Forall (fun fn => isOverload fn = true) run ->
  exists merged,
    mapGet (mergeFunctions functions) (functionName first) = Some merged /\
    tableName merged = tableName first /\ functionName merged = functionName first /\
    sourceFile merged = sourceFile first /\ lineNumber merged = lineNumber first /\
    signature merged = join (String newline EmptyString) (signature <$> first :: run) /\
    length (parameters merged)
      = max_list ((fun fn => length (parameters fn)) <$> first :: run) /\
    exists fn, fn ∈ first :: run /\
               parameters merged = parameters fn /\ returnType merged = returnType fn.
Proof.
  intros Hnamed Hfirst Hrun. exists (foldl mergeOverload first run).
  split; [by apply (mergeFunctions_last_run functions before)|].
  destruct (foldl_mergeOverload first run) as (H1 & H2 & H3 & H4 & H5 & H6 & H7 & H8).
  by split_and!.
Qed.

(** X23.  Merging gives one record for each function name of the table: the
    keys are distinct, they are the function names that occur, and every
    record carries the name it is stored under. *)
Theorem merged_records_are_the_function_names (functions : list ParsedFunction) :
  NoDup (mergeFunctions functions).*1 /\
  (forall n, n ∈ (mergeFunctions functions).*1 <-> n ∈ functionName <$> functions) /\
  Forall (fun entry => functionName entry.2 = entry.1) (mergeFunctions functions).
Proof.
  split; [apply mergeFunctions_NoDup|].
  induction functions as [|fn functions [IHkeys IHnames]] using rev_ind.
  - split; [|done]. intros n. simpl. split; by intros ?%elem_of_nil.
  - rewrite mergeFunctions_snoc. split; [|by apply mergeStep_named].
    intros n. rewrite mergeStep_keys, IHkeys, fmap_app, elem_of_app.
    simpl. rewrite list_elem_of_singleton. tauto.
Qed.

Lemma overload_run_is_merged_in_order_witness :
  (exists merged,
     mapGet (mergeFunctions [entryOne; entryThree]) (functionName entryOne)
       = Some merged /\
     lineNumber merged = lineNumber entryOne /\
     signature merged
       = join (String newline EmptyString) (signature <$> entryOne :: [entryThree]) /\
     length (parameters merged) = 3) /\
  (exists merged,
     mapGet (mergeFunctions [entryOne; entryThree; entryOne]) (functionName entryOne)
       = Some merged /\
     signature merged = signature entryOne /\ length (parameters merged) = 1).
Proof.
  split.
  - destruct (overload_run_is_merged_in_order [entryOne; entryThree] [] [entryThree]
                entryOne) as (merged & H1 & _ & _ & _ & H5 & H6 & H7 & _).
    + reflexivity.
    + by left.
    + repeat constructor.
    + exists merged. split_and!; [exact H1|exact H5|exact H6|exact H7].
  - destruct (overload_run_is_merged_in_order [entryOne; entryThree; entryOne]
                [entryOne; entryThree] [] entryOne)
      as (merged & H1 & _ & _ & _ & _ & H6 & H7 & _).
    + reflexivity.
    + by right.
    + constructor.
    + exists merged. split_and!; [exact H1|exact H6|exact H7].
Defined.

Lemma groupByTable_snoc allFunctions fn :
  groupByTable (allFunctions ++ [fn])
    = mapSet (groupByTable allFunctions) (tableName fn)
             (default [] (mapGet (groupByTable allFunctions) (tableName fn)) ++ [fn]).
Proof. unfold groupByTable. by rewrite foldl_app. Qed.

(** X21.  Grouping by table loses and duplicates nothing: there is one
    group for each table name that occurs, and the group of a table holds
    exactly the entries of that table, in their order. *)
Theorem grouping_partitions_the_functions (allFunctions : list ParsedFunction) :
  NoDup (groupByTable allFunctions).*1 /\
  (forall t, t ∈ (groupByTable allFunctions).*1 <-> t ∈ tableName <$> allFunctions) /\
  (forall t functions,
     (t, functions) ∈ groupByTable allFunctions ->
     functions = ofTable t allFunctions /\ functions <> []).
Proof.
  assert (NoDup (groupByTable allFunctions).*1 /\
          forall t, t ∈ (groupByTable allFunctions).*1 <-> t ∈ tableName <$> allFunctions)
    as [Hnd Hkeys].
  { induction allFunctions as [|fn l [IHnd IHkeys]] using rev_ind.
    - split; [apply NoDup_nil_2|]. intros t. simpl. split; by intros ?%elem_of_nil.
    - rewrite groupByTable_snoc. split; [by apply mapSet_NoDup|].
      intros t. rewrite mapSet_keys, IHkeys, fmap_app, elem_of_app.
      simpl. rewrite list_elem_of_singleton. tauto. }
  split_and!; [done|done|].
  intros t functions Hin.
  assert (functions = ofTable t allFunctions) as ->.
  { rewrite <-groupByTable_lookup. by rewrite (mapGet_of_elem _ t functions). }
  split; [done|].
  assert (t ∈ tableName <$> allFunctions) as (fn & -> & Hfn)%list_elem_of_fmap.
  { apply Hkeys, list_elem_of_fmap. by exists (t, ofTable t allFunctions). }
  intros Hnil. assert (fn ∈ ofTable (tableName fn) allFunctions) as Hfn'.
  { by apply list_elem_of_filter. }
  rewrite Hnil in Hfn'. by apply elem_of_nil in Hfn'.
Qed.

End LuaDocsExtras.

(** ** Asset fields: further properties *)

Module OpenStarboundExtras.
Import JS ExtractOpenStarbound Samples JSFacts OpenStarboundClaims
  ExtractOpenStarboundShapes.

Lemma addField_distinctKeys st field : distinctKeys st -> distinctKeys (addField st field).
Proof.
  destruct st as [fields seen]. intros [Hnd Hseen]. unfold addField.
  destruct (decide (fieldKey (fieldName field) (type field) ∈ seen)) as [Hin|Hnot];
    [done|].
  split; simpl.
  - rewrite fmap_app. apply NoDup_app. split_and!; [done| |apply NoDup_singleton].
    intros k (f & Hk & Hf)%list_elem_of_fmap Hk'%list_elem_of_singleton.
    apply Hnot. change (keyOf field ∈ seen). rewrite <-Hk', Hk. by apply Hseen.
  - intros f [Hf| ->%list_elem_of_singleton]%elem_of_app.
    + apply elem_of_union_r. by apply Hseen.
    + apply elem_of_union_l. by apply elem_of_singleton.
Qed.

Lemma foldl_distinctKeys {A} (f : extraction -> A -> extraction) l :
  (forall st x, distinctKeys st -> distinctKeys (f st x)) ->
  forall st, distinctKeys st -> distinctKeys (foldl f st l).
Proof.
  intros Hf. induction l as [|x l IH]; intros st Hst; simpl; [done|].
  by apply IH, Hf.
Qed.

Section File.
Variables (content fileName : string).

Local Abbreviation pattern5 := (pattern5 content fileName).

Lemma pattern5_fields st m : (pattern5 st m).1 = st.1.
Proof.
  unfold ExtractOpenStarbound.pattern5.
  destruct (test typedGetterCall _); [done|].
  match goal with |- context [decide (?k ∈ st.2)] => set (key := k) end.
  destruct (decide (key ∈ st.2)); [done|].
  unfold addField. cbn [fieldName type mkField].
  fold key. rewrite decide_True; [done|].
  apply elem_of_union_l. by apply elem_of_singleton.
Qed.

Lemma pattern5_distinctKeys st m : distinctKeys st -> distinctKeys (pattern5 st m).
Proof.
  intros Hst. unfold ExtractOpenStarbound.pattern5.
  destruct (test typedGetterCall _); [done|].
  match goal with |- context [decide (?k ∈ st.2)] => set (key := k) end.
  destruct (decide (key ∈ st.2)); [done|].
  apply addField_distinctKeys. destruct Hst as [Hnd Hseen]. split; [done|].
  intros f Hf. apply elem_of_union_r. by apply Hseen.
Qed.

Lemma foldl_pattern5_fields ms : forall st, (foldl pattern5 st ms).1 = st.1.
Proof.
  induction ms as [|m ms IH]; intros st; simpl; [done|].
  by rewrite IH, pattern5_fields.
Qed.

(** X24.  Within a file no two fields returned have the same name and the
    same type. *)
Theorem extracted_fields_are_distinct :
  NoDup ((fun field => (fieldName field, type field))
           <$> extractFieldsFromFile content fileName).
Proof.
  assert (distinctKeys
            (foldl (pattern6 content fileName)
               (foldl pattern5
                  (foldl (pattern4 content fileName)
                     (foldl (pattern3 content fileName)
                        (foldl (pattern2 content fileName)
                           (foldl (pattern1 content fileName) ([], ∅)
                              (execAll typedGetter content))
                           (execAll optGetter content))
                        (execAll genericOpt content))
                     (execAll converter content))
                  (execAll genericGet content))
               (execAll contains content))) as [Hnd _].
  { repeat (apply foldl_distinctKeys;
            [intros st m Hst;
             first [ by apply pattern5_distinctKeys
                   | by apply addField_distinctKeys
                   | unfold pattern6; destruct (decide _);
                     [done|by apply addField_distinctKeys] ]|]).
    split; [apply NoDup_nil_2|]. intros f Hf. by apply elem_of_nil in Hf. }
  unfold extractFieldsFromFile.
  apply (NoDup_fmap_1 (fun p => fieldKey p.1 p.2)).
  by rewrite <-list_fmap_compose.
Qed.

(** X25.  The loop of pattern 5 never adds a field, as it puts the key into
    [seen] before [addField] tests it; so a file whose only matches are
    those of the untyped getter yields no field. *)
Theorem generic_get_adds_no_field :
  (forall st ms, (foldl pattern5 st ms).1 = st.1) /\
  (execAll typedGetter content = [] -> execAll optGetter content = [] ->
   execAll genericOpt content = [] -> execAll converter content = [] ->
   execAll contains content = [] ->
   extractFieldsFromFile content fileName = []).
Proof.
  split; [intros st ms; apply foldl_pattern5_fields|].
  intros H1 H2 H3 H4 H6. unfold extractFieldsFromFile.
  rewrite H1, H2, H3, H4, H6. simpl. apply foldl_pattern5_fields.
Qed.

End File.

Lemma generic_get_adds_no_field_witness :
  execAll genericGet genericGetSource <> [] /\
  extractFieldsFromFile genericGetSource "StarTechDatabase.cpp" = [].
Proof.
  split; [by vm_compute|].
  apply (proj2 (generic_get_adds_no_field genericGetSource "StarTechDatabase.cpp"));
    reflexivity.
Defined.

(** *** Line numbers *)

Lemma splitLines_length_pos s : 1 <= length (splitLines s).
Proof.
  induction s as [|c s IH]; simpl; [done|].
  destruct (Ascii.eqb c newline); simpl; [lia|].
  destruct (splitLines s); simpl in *; lia.
Qed.

Lemma splitLines_length_cons c s :
  length (splitLines (String c s))
    = if Ascii.eqb c newline then S (length (splitLines s)) else length (splitLines s).
Proof.
  simpl. destruct (Ascii.eqb c newline); [done|].
  pose proof (splitLines_length_pos s). destruct (splitLines s); simpl in *; [lia|done].
Qed.

Lemma splitLines_length_take s : forall n,
  length (splitLines (takeString n s)) <= length (splitLines s).
Proof.
  induction s as [|c s IH]; intros n.
  - by destruct n.
  - destruct n as [|n]; [apply splitLines_length_pos|].
    change (takeString (S n) (String c s)) with (String c (takeString n s)).
    rewrite !splitLines_length_cons. specialize (IH n).
    destruct (Ascii.eqb c newline); lia.
Qed.

Lemma mkField_locatedIn content fileName name type defaultValue optional m :
  locatedIn content fileName (mkField content fileName name type defaultValue optional m).
Proof.
  split; [done|]. simpl. unfold getLineNumber, substring.
  split; [apply splitLines_length_pos|]. apply splitLines_length_take.
Qed.

Lemma addField_Forall (Q : ExtractedField -> Prop) st field :
  Q field -> Forall Q st.1 -> Forall Q (addField st field).1.
Proof.
  destruct st as [fields seen]. intros Hfield Hst. unfold addField.
  destruct (decide _); [done|]. simpl. apply Forall_app. by split; [|constructor].
Qed.

Lemma foldl_fields_Forall {A} (Q : ExtractedField -> Prop)
    (f : extraction -> A -> extraction) l :
  (forall st x, Forall Q st.1 -> Forall Q (f st x).1) ->
  forall st, Forall Q st.1 -> Forall Q (foldl f st l).1.
Proof.
  intros Hf. induction l as [|x l IH]; intros st Hst; simpl; [done|].
  by apply IH, Hf.
Qed.

(** X26.  Every field returned names the file it was extracted from and a
    line of it: its line number is at least 1 and at most the number of
    lines of the content. *)
Theorem extracted_fields_are_located (content fileName : string)
    (field : ExtractedField) :
  field ∈ extractFieldsFromFile content fileName ->
  sourceFile field = fileName /\
  1 <= lineNumber field <= length (splitLines content).
Proof.
  revert field. apply Forall_forall. unfold extractFieldsFromFile.
  repeat (apply foldl_fields_Forall;
          [intros st m Hst;
           first [ by rewrite pattern5_fields
                 | by apply addField_Forall; [apply mkField_locatedIn|]
                 | unfold pattern6; destruct (decide _);
                   [done|by apply addField_Forall; [apply mkField_locatedIn|]] ]|]).
  done.
Qed.

Lemma extracted_fields_are_located_witness :
  sourceFile sampleSpeed = "StarTechDatabase.cpp" /\
  1 <= lineNumber sampleSpeed <= length (splitLines sampleSource).
Proof.
  apply (extracted_fields_are_located sampleSource "StarTechDatabase.cpp" sampleSpeed).
  apply (list_elem_of_lookup_2 _ 1). reflexivity.
Defined.

(** *** Storage *)

Lemma NoDup_fmap_eq {A B} (f : A -> B) (l : list A) x y :
  NoDup (f <$> l) -> x ∈ l -> y ∈ l -> f x = f y -> x = y.
Proof.
  induction l as [|a l IH]; [by intros _ ?%elem_of_nil|].
  rewrite fmap_cons, NoDup_cons.
  intros [Ha Hnd] [->|Hx]%elem_of_cons [->|Hy]%elem_of_cons Heq; [done| | |by apply IH].
  - exfalso. apply Ha. rewrite Heq. apply list_elem_of_fmap. by exists y.
  - exfalso. apply Ha. rewrite <-Heq. apply list_elem_of_fmap. by exists x.
Qed.

Lemma hasField_false db t path :
  hasField db t path = false <-> (t, path) ∉ fieldKeys db.
Proof.
  rewrite <-hasField_spec. destruct (hasField db t path); split; done.
Qed.

Lemma storeField_other t db field path :
  fieldName field <> path -> hasField db t path = false ->
  hasField (storeField t db field) t path = false.
Proof.
  intros Hne Hno. unfold storeField, insertField.
  destruct (hasField db t (fieldName field)); [done|].
  apply hasField_false. apply hasField_false in Hno. unfold fieldKeys in *. simpl.
  rewrite fmap_app, elem_of_app. intros [Hin|Hin]; [done|].
  simpl in Hin. apply list_elem_of_singleton in Hin. congruence.
Qed.

Lemma storeFields_other t fields path : forall db,
  (forall field, field ∈ fields -> fieldName field <> path) ->
  hasField db t path = false ->
  hasField (foldl (storeField t) db fields) t path = false.
Proof.
  induction fields as [|field fields IH]; intros db Hne Hno; simpl; [done|].
  apply IH; [intros g Hg; apply Hne; by right|].
  apply storeField_other; [apply Hne; by left|done].
Qed.

(** X27.  Of several candidates for one field of an asset type the first is
    the one stored: when no row exists for the field, the loop over the
    fields of a file stores the type, the required flag, the default value
    and the description of the first candidate with that name, and (the
    keys being unique) no other row for it. *)
Theorem first_candidate_is_stored (assetTypeId : nat) (db : Database)
    (before after : list ExtractedField) (field : ExtractedField) :
  hasField db assetTypeId (fieldName field) = false ->
  (forall other, other ∈ before -> fieldName other <> fieldName field) ->
  let stored := foldl (storeField assetTypeId) db (before ++ field :: after) in
  exists row,
    row ∈ asset_fields stored /\
    af_asset_type_id row = assetTypeId /\ af_field_path row = fieldName field /\
    af_type row = type field /\
    af_required row = (if optional field then 0 else 1) /\
    af_default_value row = defaultValue field /\
    af_description row = Some (fieldDescription field) /\
    (NoDup (fieldKeys db) ->
     forall row', row' ∈ asset_fields stored ->
       af_asset_type_id row' = assetTypeId -> af_field_path row' = fieldName field ->
       row' = row).
Proof.
  intros Hno Hbefore stored. unfold stored. rewrite foldl_app. simpl.
  set (db1 := foldl (storeField assetTypeId) db before).
  assert (hasField db1 assetTypeId (fieldName field) = false) as Hno1
    by (by apply storeFields_other).
  set (db2 := storeField assetTypeId db1 field).
  set (row := {| af_id := nextId (af_id <$> asset_fields db1);
                 af_asset_type_id := assetTypeId; af_field_path := fieldName field;
                 af_type := type field;
                 af_description := Some (fieldDescription field);
                 af_required := if optional field then 0 else 1;
                 af_default_value := defaultValue field;
                 af_enum_values := None; af_examples := None |}).
  assert (asset_fields db2 = asset_fields db1 ++ [row]) as H2.
  { unfold db2, storeField, insertField. by rewrite Hno1. }
  destruct (storeFields_extends assetTypeId after db2) as ((_ & _ & Hprefix) & _ & _).
  assert (row ∈ asset_fields (foldl (storeField assetTypeId) db2 after)) as Hrow.
  { destruct Hprefix as [k ->]. rewrite H2, !elem_of_app. left. right. left. }
  exists row. split_and!; try done.
  intros Hnd row' Hrow' Ht Hp.
  assert (NoDup (fieldKeys (foldl (storeField assetTypeId) db2 after))) as Hnd'.
  { apply storeFields_NoDup. unfold db2. apply insertField_NoDup.
    by apply storeFields_NoDup. }
  eapply (NoDup_fmap_eq _ _ row' row Hnd'); [done|done|].
  simpl. by rewrite Ht, Hp.
Qed.

Lemma first_candidate_is_stored_witness :
  exists row,
    row ∈ asset_fields (foldl (storeField 1) emptyStore
                              ([] ++ candidateString :: [candidateJson])) /\
    af_field_path row = "foo" /\ af_type row = "String".
Proof.
  destruct (first_candidate_is_stored 1 emptyStore [] [candidateJson] candidateString)
    as (row & H1 & _ & H3 & H4 & _).
  - reflexivity.
  - intros other Hin. by apply elem_of_nil in Hin.
  - exists row. split_and!; [exact H1|exact H3|exact H4].
Defined.

(** *** The search index *)

Lemma storeFields_search t fields : forall db,
  search_index (foldl (storeField t) db fields) = search_index db.
Proof.
  induction fields as [|field fields IH]; intros db; simpl; [done|].
  rewrite IH. unfold storeField, insertField. by destruct (hasField _ _ _).
Qed.

Lemma insertAssetType_search db sourceId name extension description basePath :
  search_index (insertAssetType db sourceId name extension description basePath)
    = search_index db.
Proof. unfold insertAssetType. by destruct (getAssetType _ _ _). Qed.

Lemma storeFile_search table sourceId db dbFile :
  exists added,
    search_index (storeFile table sourceId db dbFile) = search_index db ++ added /\
    length added = length (mappedFiles table [dbFile]).
Proof.
  unfold storeFile, mappedFiles. rewrite filter_cons, filter_nil.
  destruct (mapGet table (fileName dbFile)) as [mapping|] eqn:Hmap.
  2:{ exists []. rewrite app_nil_r. split; [done|].
      rewrite decide_False; [done|]. by intros [? ?]. }
  rewrite decide_True by (by eexists).
  destruct (insertAssetType_stored db sourceId (map_assetType mapping)
              (map_extension mapping) (map_description mapping) EmptyString)
    as [row Hrow].
  rewrite Hrow. eexists. split.
  - simpl. rewrite storeFields_search, insertAssetType_search. reflexivity.
  - done.
Qed.

Lemma storeFiles_search table sourceId dbFiles : forall db,
  exists added,
    search_index (foldl (storeFile table sourceId) db dbFiles)
      = search_index db ++ added /\
    length added = length (mappedFiles table dbFiles).
Proof.
  induction dbFiles as [|dbFile dbFiles IH]; intros db; simpl.
  - exists []. by rewrite app_nil_r.
  - destruct (IH (storeFile table sourceId db dbFile)) as (added & Hadded & Hlen).
    destruct (storeFile_search table sourceId db dbFile) as (first & Hfirst & Hlen1).
    exists (first ++ added). rewrite Hadded, Hfirst, <-app_assoc. split; [done|].
    rewrite length_app, Hlen, Hlen1. unfold mappedFiles.
    change (dbFile :: dbFiles) with ([dbFile] ++ dbFiles).
    by rewrite filter_app, length_app.
Qed.

Lemma indexFields_search db :
  exists added,
    search_index (indexFields db) = search_index db ++ added /\
    length added = length (allFields db).
Proof.
  unfold indexFields. generalize (allFields db). intros rows. revert db.
  induction rows as [|[field assetName] rows IH]; intros db; simpl.
  - exists []. by rewrite app_nil_r.
  - match goal with
    | |- context [foldl _ ?db1 rows] => destruct (IH db1) as (added & -> & Hlen)
    end.
    eexists (_ :: added). simpl. rewrite <-app_assoc. split; [reflexivity|].
    simpl. by rewrite Hlen.
Qed.

Lemma allFields_sameStore db db' : sameStore db db' -> allFields db = allFields db'.
Proof. intros (H1 & H2 & H3). unfold allFields. by rewrite H1, H2, H3. Qed.

Lemma ensureSource_search db : search_index (ensureSource db).1 = search_index db.
Proof. unfold ensureSource. by destruct (getSource db "openstarbound"). Qed.

(** X28.  Every run appends to the search index, and removes nothing from
    it: one row for each file with a known asset type, and one row for each
    field stored under the openstarbound source, those of earlier runs
    included. *)
Theorem search_rows_added_by_a_run (db : Database) (dbFiles : list DatabaseFileInfo) :
  exists added,
    search_index (insertExtractedData db dbFiles) = search_index db ++ added /\
    length added
      = length (mappedFiles DATABASE_TO_ASSET dbFiles)
        + length (allFields (insertExtractedData db dbFiles)).
Proof.
  unfold insertExtractedData, insertExtractedDataWith.
  pose proof (ensureSource_search db) as Hsource.
  destruct (ensureSource db) as [db0 sourceId]. simpl in Hsource.
  destruct (storeFiles_search DATABASE_TO_ASSET sourceId dbFiles db0)
    as (added1 & Hadded1 & Hlen1).
  destruct (indexFields_search (foldl (storeFile DATABASE_TO_ASSET sourceId) db0 dbFiles))
    as (added2 & Hadded2 & Hlen2).
  exists (added1 ++ added2). rewrite Hadded2, Hadded1, Hsource, <-app_assoc.
  split; [done|]. rewrite length_app, Hlen1, Hlen2. f_equal. f_equal.
  apply allFields_sameStore, indexFields_sameStore.
Qed.

(** *** Completeness of the storage step *)

Lemma ensureSource_found db :
  sources (ensureSource db).1 = sources db ->
  exists source, getSource db "openstarbound" = Some source /\
                 (ensureSource db).2 = src_id source.
Proof.
  unfold ensureSource.
  destruct (getSource db "openstarbound") as [source|]; [by exists source|].
  simpl. intros Hsources. apply (f_equal length) in Hsources.
  rewrite length_app in Hsources. simpl in Hsources. lia.
Qed.

(** X29.  A run stores everything it was given: for every file with a known
    asset type the store then holds the openstarbound source, the row of
    the asset type under it, and a row for each field name of the file. *)
Theorem every_field_name_is_stored (db : Database) (dbFiles : list DatabaseFileInfo)
    (dbFile : DatabaseFileInfo) (mapping : AssetMapping) :
  dbFile ∈ dbFiles ->
  mapGet DATABASE_TO_ASSET (fileName dbFile) = Some mapping ->
  let stored := insertExtractedData db dbFiles in
  exists source row,
    getSource stored "openstarbound" = Some source /\
    getAssetType stored (src_id source) (map_assetType mapping) = Some row /\
    forall field, field ∈ fields dbFile ->
      hasField stored (at_id row) (fieldName field) = true.
Proof.
  intros Hin Hmap stored.
  assert (sources stored = sources (ensureSource db).1 /\
          covered DATABASE_TO_ASSET (ensureSource db).2 stored dbFile) as [Hsources Hcov].
  { unfold stored, insertExtractedData, insertExtractedDataWith.
    destruct (ensureSource db) as [db0 sourceId]. simpl.
    set (db1 := foldl (storeFile DATABASE_TO_ASSET sourceId) db0 dbFiles).
    destruct (indexFields_sameStore db1) as (Hs & _).
    destruct (storeFiles_extends DATABASE_TO_ASSET sourceId dbFiles db0) as [_ Hs0].
    split; [by rewrite <-Hs|].
    eapply covered_sameStore; [apply indexFields_sameStore|].
    by apply storeFiles_covers. }
  pose proof (ensureSource_again db stored Hsources) as Hagain.
  destruct (ensureSource_found stored) as (source & Hsource & Hid);
    [by rewrite Hagain|].
  rewrite Hagain in Hid. simpl in Hid.
  unfold covered in Hcov. rewrite Hmap, Hid in Hcov.
  destruct Hcov as (row & Hrow & Hfields). by exists source, row.
Qed.

Lemma every_field_name_is_stored_witness :
  exists source row,
    getSource (insertExtractedData emptyStore sampleDbFiles) "openstarbound"
      = Some source /\
    getAssetType (insertExtractedData emptyStore sampleDbFiles) (src_id source) "tech"
      = Some row /\
    forall field, field ∈ extractFieldsFromFile sampleSource "StarTechDatabase.cpp" ->
      hasField (insertExtractedData emptyStore sampleDbFiles) (at_id row)
               (fieldName field) = true.
Proof.
  apply (every_field_name_is_stored emptyStore sampleDbFiles
           {| fileName := "StarTechDatabase.cpp"; assetType := "tech";
              fileExtension := ".tech";
              fields := extractFieldsFromFile sampleSource "StarTechDatabase.cpp" |}
           {| map_assetType := "tech"; map_extension := ".tech";
              map_description :=
                "Tech definitions — player abilities like double jump, dash, sphere, etc." |}).
  - left.
  - reflexivity.
Defined.

End OpenStarboundExtras.
